(** * Token lifecycle manager of the Consinco SQL gateway

    A shallow embedding of [gerenciar_token.py] (class [GerenciadorToken])
    and of the Basic-Auth dependency and SQL route of [main.py] /
    [api_fastapi.py], followed by the properties the specification states
    about them.

    Conventions of the embedding
    - a naive [datetime] is the number of microseconds since
      0001-01-01T00:00:00, kept inside the range Python accepts (adding a
      [timedelta] raises [OverflowError] outside it); a [timedelta] is a
      number of microseconds; the texts made by [strftime], [isoformat]
      and [str] of a duration are left as the numbers they render;
    - a Python [str] is a [string]; characters with code 128 and above
      stand for the non-ASCII ones;
    - the instance attributes, the cookie file, the wall clock, the ERP
      endpoints and the standard output live in one record, [Mundo],
      threaded through a small state-and-exception monad; every
      [datetime.now()] consumes one reading of the clock, every [print] is
      recorded as a message;
    - the cookie jar of the session is a map from names to values (one
      domain, one path); opening and writing the cookie file do not fail;
    - [json.loads], [datetime.strptime] with the fixed format
      ['%Y-%m-%dT%H:%M:%SZ'] and [str()] of a decoded value are library
      code: they are the fields of the class [Biblioteca], and every
      theorem holds whatever they compute;
    - the sequential methods are given first; the same methods as threads
      of atomic actions, for the callers that run at once, come after,
      and a thread run alone is proved to be the sequential method. *)

From Stdlib Require Import ZArith String Ascii List Bool Lia.
From stdpp Require Import gmap strings.

#[local] Set Warnings "-register-all".
#[local] Open Scope Z_scope.

(** ** Dates and durations *)

Definition microssegundos_por_segundo : Z := 1000000.
Definition segundos (n : Z) : Z := n * microssegundos_por_segundo.
Definition minutos (n : Z) : Z := segundos (n * 60).
Definition horas (n : Z) : Z := minutos (n * 60).
Definition dias (n : Z) : Z := horas (n * 24).

(** [datetime.min] and [datetime.max]: years 1 to 9999. *)
Definition datetime_min : Z := 0.
Definition datetime_max : Z := dias 3652059 - 1.

(** ** Decoded JSON values *)

Inductive json :=
| JNull
| JBool (b : bool)
| JNum (n : Z)
| JStr (s : string)
| JArr (l : list json)
| JObj (m : gmap string json).

(** ** Exceptions, HTTP traffic, the cookie file, the output *)

Inductive excecao :=
| TypeError
| KeyError
| ValueError
| OverflowError
| FileNotFoundError
| ErroTransporte.

Inductive res (A : Type) :=
| Ok (a : A)
| Exc (e : excecao).
Arguments Ok {A} a.
Arguments Exc {A} e.

Record resposta := {
  status_code : Z;
  text : string;
  cookies_recebidos : list (string * string)
}.

(** What [requests] gives back: a response, or an exception raised by the
    transport (connection refused, TLS failure, ...). *)
Inductive resultado_http :=
| FalhaTransporte
| Respondeu (r : resposta).

Record pedido_login := {
  DataHoraLocal : Z;
  returnUrl : string;
  Nome : Z;
  Senha : Z;
  NroEmpresa : Z
}.

Record pedido_sql := {
  sql_url : string;
  sql_data : string;
  sql_headers : list (string * string)
}.

(** The file [self.arquivo_cookies]: missing, not decodable by
    [json.load], or the mapping written by a login. *)
Inductive arquivo :=
| Ausente
| Ilegivel
| Gravado (c : gmap string string).

(** One constructor per [print] of the module. *)
Inductive mensagem :=
| MsgErroConsultaSQL (status : Z)
| MsgLoginSucesso (validade : option Z)
| MsgTokenNaoEncontrado
| MsgFalhaLogin (status : Z)
| MsgRespostaLogin (texto : string)
| MsgErroLogin (e : excecao)
| MsgTokenCarregado (validade : option Z)
| MsgTokenSalvoVencido
| MsgErroCarregar (e : excecao)
| MsgTokenAindaValido (validade : option Z)
| MsgTokenRenovadoPorOutra (validade : option Z)
| MsgTokenCarregadoValido (validade : option Z)
| MsgRenovando.

(** ** The library functions the module calls *)

Class Biblioteca := {
  (** [json.loads]: [None] when it raises *)
  json_loads : string -> option json;
  (** [datetime.strptime(_, '%Y-%m-%dT%H:%M:%SZ')]: [None] when it raises *)
  strptime : string -> option Z;
  (** [str()] of a decoded value that is not itself a [str] *)
  py_repr : json -> string
}.

(** ** The world: a [GerenciadorToken] and what surrounds it *)

Record Mundo := {
  (* attributes set by __init__ *)
  dominio : string;
  nome : Z;
  senha : Z;
  nro_empresa : Z;
  session_cookies : gmap string string;
  _token_data : option json;
  _validade_token : option Z;
  (* the file at self.arquivo_cookies *)
  arquivo_cookies : arquivo;
  (* datetime.now(): the k-th reading of the clock is [relogio k] *)
  relogio : nat -> Z;
  tiques : nat;
  (* the login endpoint answers the k-th request with [erp_login k] *)
  erp_login : nat -> resultado_http;
  pedidos_login : list pedido_login;
  (* the SQL endpoint answers the k-th request with [erp_sql k] *)
  erp_sql : nat -> resultado_http;
  pedidos_sql : list pedido_sql;
  (* standard output *)
  saida : list mensagem
}.

Definition com_session_cookies (c : gmap string string) (w : Mundo) : Mundo :=
  {| dominio := dominio w; nome := nome w; senha := senha w;
     nro_empresa := nro_empresa w; session_cookies := c;
     _token_data := _token_data w; _validade_token := _validade_token w;
     arquivo_cookies := arquivo_cookies w; relogio := relogio w;
     tiques := tiques w; erp_login := erp_login w;
     pedidos_login := pedidos_login w; erp_sql := erp_sql w;
     pedidos_sql := pedidos_sql w; saida := saida w |}.

Definition com_token_data (t : option json) (w : Mundo) : Mundo :=
  {| dominio := dominio w; nome := nome w; senha := senha w;
     nro_empresa := nro_empresa w; session_cookies := session_cookies w;
     _token_data := t; _validade_token := _validade_token w;
     arquivo_cookies := arquivo_cookies w; relogio := relogio w;
     tiques := tiques w; erp_login := erp_login w;
     pedidos_login := pedidos_login w; erp_sql := erp_sql w;
     pedidos_sql := pedidos_sql w; saida := saida w |}.

Definition com_validade_token (v : option Z) (w : Mundo) : Mundo :=
  {| dominio := dominio w; nome := nome w; senha := senha w;
     nro_empresa := nro_empresa w; session_cookies := session_cookies w;
     _token_data := _token_data w; _validade_token := v;
     arquivo_cookies := arquivo_cookies w; relogio := relogio w;
     tiques := tiques w; erp_login := erp_login w;
     pedidos_login := pedidos_login w; erp_sql := erp_sql w;
     pedidos_sql := pedidos_sql w; saida := saida w |}.

Definition com_arquivo_cookies (a : arquivo) (w : Mundo) : Mundo :=
  {| dominio := dominio w; nome := nome w; senha := senha w;
     nro_empresa := nro_empresa w; session_cookies := session_cookies w;
     _token_data := _token_data w; _validade_token := _validade_token w;
     arquivo_cookies := a; relogio := relogio w;
     tiques := tiques w; erp_login := erp_login w;
     pedidos_login := pedidos_login w; erp_sql := erp_sql w;
     pedidos_sql := pedidos_sql w; saida := saida w |}.

Definition com_tiques (n : nat) (w : Mundo) : Mundo :=
  {| dominio := dominio w; nome := nome w; senha := senha w;
     nro_empresa := nro_empresa w; session_cookies := session_cookies w;
     _token_data := _token_data w; _validade_token := _validade_token w;
     arquivo_cookies := arquivo_cookies w; relogio := relogio w;
     tiques := n; erp_login := erp_login w;
     pedidos_login := pedidos_login w; erp_sql := erp_sql w;
     pedidos_sql := pedidos_sql w; saida := saida w |}.

Definition com_pedidos_login (l : list pedido_login) (w : Mundo) : Mundo :=
  {| dominio := dominio w; nome := nome w; senha := senha w;
     nro_empresa := nro_empresa w; session_cookies := session_cookies w;
     _token_data := _token_data w; _validade_token := _validade_token w;
     arquivo_cookies := arquivo_cookies w; relogio := relogio w;
     tiques := tiques w; erp_login := erp_login w;
     pedidos_login := l; erp_sql := erp_sql w;
     pedidos_sql := pedidos_sql w; saida := saida w |}.

Definition com_pedidos_sql (l : list pedido_sql) (w : Mundo) : Mundo :=
  {| dominio := dominio w; nome := nome w; senha := senha w;
     nro_empresa := nro_empresa w; session_cookies := session_cookies w;
     _token_data := _token_data w; _validade_token := _validade_token w;
     arquivo_cookies := arquivo_cookies w; relogio := relogio w;
     tiques := tiques w; erp_login := erp_login w;
     pedidos_login := pedidos_login w; erp_sql := erp_sql w;
     pedidos_sql := l; saida := saida w |}.

Definition com_saida (s : list mensagem) (w : Mundo) : Mundo :=
  {| dominio := dominio w; nome := nome w; senha := senha w;
     nro_empresa := nro_empresa w; session_cookies := session_cookies w;
     _token_data := _token_data w; _validade_token := _validade_token w;
     arquivo_cookies := arquivo_cookies w; relogio := relogio w;
     tiques := tiques w; erp_login := erp_login w;
     pedidos_login := pedidos_login w; erp_sql := erp_sql w;
     pedidos_sql := pedidos_sql w; saida := s |}.

(** ** State and exceptions *)

Definition M (A : Type) : Type := Mundo -> res A * Mundo.

Definition ret {A} (a : A) : M A := fun w => (Ok a, w).

Definition bind {A B} (m : M A) (k : A -> M B) : M B :=
  fun w =>
    match m w with
    | (Ok a, w') => k a w'
    | (Exc e, w') => (Exc e, w')
    end.

Definition raise {A} (e : excecao) : M A := fun w => (Exc e, w).

(** [try: m except Exception as e: h e] *)
Definition try_except {A} (m : M A) (h : excecao -> M A) : M A :=
  fun w =>
    match m w with
    | (Ok a, w') => (Ok a, w')
    | (Exc e, w') => h e w'
    end.

Definition gets {A} (f : Mundo -> A) : M A := fun w => (Ok (f w), w).
Definition modify (f : Mundo -> Mundo) : M unit := fun w => (Ok tt, f w).

Notation "x <- c1 ;; c2" := (bind c1 (fun x => c2))
  (at level 100, c1 at next level, right associativity).
Notation "c1 ;;; c2" := (bind c1 (fun _ => c2))
  (at level 100, right associativity).

Definition print (m : mensagem) : M unit :=
  modify (fun w => com_saida (saida w ++ [m]) w).

(** The instant the next [datetime.now()] returns. *)
Definition agora (w : Mundo) : Z := relogio w (tiques w).

Definition datetime_now : M Z :=
  fun w => (Ok (agora w), com_tiques (S (tiques w)) w).

(** [d + delta] on a [datetime]: [OverflowError] outside years 1..9999. *)
Definition datetime_mais (d delta : Z) : M Z :=
  if (datetime_min <=? d + delta) && (d + delta <=? datetime_max)
  then ret (d + delta)
  else raise OverflowError.

(** [v[chave]] on a value that may be [None]. *)
Definition subscrito (v : option json) (chave : string) : M json :=
  match v with
  | Some (JObj m) =>
      match m !! chave with
      | Some x => ret x
      | None => raise KeyError
      end
  | _ => raise TypeError
  end.

(** The Python value of a decoded document: JSON [null] is [None]. *)
Definition valor_python (j : json) : option json :=
  match j with
  | JNull => None
  | _ => Some j
  end.

Definition margem_seguranca : Z := minutos 10.

(** ** Strings *)

Definition aspas : string := String (ascii_of_nat 34) EmptyString.
Definition nova_linha : string := String (ascii_of_nat 10) EmptyString.

(** [s.replace(old, new)] for a non-empty [old]: the occurrences are found
    from left to right and do not overlap; [saltar] counts the characters
    of a match still to be dropped. *)
Fixpoint replace_de (old new : string) (saltar : nat) (s : string) : string :=
  match s with
  | EmptyString => EmptyString
  | String c s' =>
      match saltar with
      | S k => replace_de old new k s'
      | O =>
          if String.prefix old s
          then new +:+ replace_de old new (String.length old - 1) s'
          else String c (replace_de old new 0 s')
      end
  end.

Definition str_replace (s old new : string) : string := replace_de old new 0 s.

(** [str(d) if d else None] on a [timedelta]: a zero duration is falsy. *)
Definition duracao_ou_none (d : Z) : option Z :=
  if d =? 0 then None else Some d.

(** ** class GerenciadorToken *)

Section GerenciadorToken.
Context `{Biblioteca}.

(** [json.loads(blob)] *)
Definition loads (blob : string) : M json :=
  match json_loads blob with
  | Some j => ret j
  | None => raise ValueError
  end.

(** [datetime.strptime(v, '%Y-%m-%dT%H:%M:%SZ')] on a decoded value *)
Definition strptime_de (v : json) : M Z :=
  match v with
  | JStr s =>
      match strptime s with
      | Some d => ret d
      | None => raise ValueError
      end
  | _ => raise TypeError
  end.

(** [f"{v}"] *)
Definition py_str (v : json) : string :=
  match v with
  | JStr s => s
  | _ => py_repr v
  end.

(** The session keeps every cookie a response sets. *)
Definition guardar_cookies (novos : list (string * string))
    (jar : gmap string string) : gmap string string :=
  fold_left (fun j nv => <[fst nv := snd nv]> j) novos jar.

(** [self.session.post(self.url_login, data=modelo_request, verify=False)] *)
Definition session_post_login (p : pedido_login) : M resposta :=
  fun w =>
    let k := length (pedidos_login w) in
    let w1 := com_pedidos_login (pedidos_login w ++ [p]) w in
    match erp_login w k with
    | FalhaTransporte => (Exc ErroTransporte, w1)
    | Respondeu r =>
        (Ok r,
         com_session_cookies
           (guardar_cookies (cookies_recebidos r) (session_cookies w1)) w1)
    end.

Definition _fazer_login : M bool :=
  try_except
    (horario <- datetime_now ;;
     n <- gets nome ;;
     s <- gets senha ;;
     e <- gets nro_empresa ;;
     response <- session_post_login
       {| DataHoraLocal := horario; returnUrl := EmptyString;
          Nome := n; Senha := s; NroEmpresa := e |} ;;
     if status_code response =? 200 then
       cookies_dict <- gets session_cookies ;;
       modify (com_arquivo_cookies (Gravado cookies_dict)) ;;;
       match cookies_dict !! "oAuthToken" with
       | Some blob =>
           j <- loads blob ;;
           modify (com_token_data (valor_python j)) ;;;
           td <- gets _token_data ;;
           expira <- subscrito td ".expires" ;;
           d <- strptime_de expira ;;
           modify (com_validade_token (Some d)) ;;;
           v <- gets _validade_token ;;
           print (MsgLoginSucesso v) ;;;
           ret true
       | None =>
           print MsgTokenNaoEncontrado ;;;
           ret false
       end
     else
       print (MsgFalhaLogin (status_code response)) ;;;
       print (MsgRespostaLogin (text response)) ;;;
       ret false)
    (fun e => print (MsgErroLogin e) ;;; ret false).

Definition _token_precisa_renovar : M bool :=
  v <- gets _validade_token ;;
  t <- gets _token_data ;;
  match v, t with
  | Some validade, Some _ =>
      agora <- datetime_now ;;
      ret (validade - agora <=? margem_seguranca)
  | _, _ => ret true
  end.

Definition _token_e_valido : M bool :=
  v <- gets _validade_token ;;
  t <- gets _token_data ;;
  match v, t with
  | Some validade, Some _ =>
      agora <- datetime_now ;;
      ret (validade - agora >? margem_seguranca)
  | _, _ => ret false
  end.

(** [for name, value in cookies_dict.items(): self.session.cookies.set(name, value)] *)
Definition recriar_cookies (cookies_dict jar : gmap string string)
    : gmap string string :=
  map_fold (fun name value j => <[name := value]> j) jar cookies_dict.

Definition carregar_token_salvo : M bool :=
  try_except
    (a <- gets arquivo_cookies ;;
     match a with
     | Ausente => ret false
     | Ilegivel => raise ValueError
     | Gravado cookies_dict =>
         match cookies_dict !! "oAuthToken" with
         | None => ret false
         | Some blob =>
             j <- loads blob ;;
             modify (com_token_data (valor_python j)) ;;;
             td <- gets _token_data ;;
             expira <- subscrito td ".expires" ;;
             d <- strptime_de expira ;;
             modify (com_validade_token (Some d)) ;;;
             d3 <- datetime_mais d (horas (-3)) ;;
             modify (com_validade_token (Some d3)) ;;;
             modify (fun w =>
               com_session_cookies
                 (recriar_cookies cookies_dict (session_cookies w)) w) ;;;
             precisa <- _token_precisa_renovar ;;
             if negb precisa then
               v <- gets _validade_token ;;
               print (MsgTokenCarregado v) ;;;
               ret true
             else
               print MsgTokenSalvoVencido ;;;
               ret false
         end
     end)
    (fun e => print (MsgErroCarregar e) ;;; ret false).

(** Run by one caller on its own, the [with self._lock:] block is entered
    at once and left at every [return]; the interleaving of several
    callers is the subject of the section on threads. *)
Definition pegar_token_atualizado : M (option json) :=
  valido <- _token_e_valido ;;
  if valido then
    v <- gets _validade_token ;;
    print (MsgTokenAindaValido v) ;;;
    gets _token_data
  else
    valido <- _token_e_valido ;;
    if valido then
      v <- gets _validade_token ;;
      print (MsgTokenRenovadoPorOutra v) ;;;
      gets _token_data
    else
      t <- gets _token_data ;;
      match t with
      | None => carregar_token_salvo ;;; ret tt
      | Some _ => ret tt
      end ;;;
      valido <- _token_e_valido ;;
      if valido then
        v <- gets _validade_token ;;
        print (MsgTokenCarregadoValido v) ;;;
        gets _token_data
      else
        precisa <- _token_precisa_renovar ;;
        if precisa then
          print MsgRenovando ;;;
          ok <- _fazer_login ;;
          if negb ok then ret None else gets _token_data
        else
          gets _token_data.

Definition obter_session_autenticada : M (option (gmap string string)) :=
  t <- pegar_token_atualizado ;;
  match t with
  | Some _ => c <- gets session_cookies ;; ret (Some c)
  | None => ret None
  end.

Definition tempo_restante_token : M (option Z) :=
  v <- gets _validade_token ;;
  match v with
  | None => ret None
  | Some validade =>
      agora <- datetime_now ;;
      let tempo_restante := validade - agora in
      ret (Some (if tempo_restante >? 0 then tempo_restante else 0))
  end.

Record status := {
  token_valido : bool;
  validade : option Z;
  tempo_restante : option Z;
  precisa_renovar : bool
}.

Definition status_token : M status :=
  t <- gets _token_data ;;
  valido <- match t with
            | Some _ => p <- _token_precisa_renovar ;; ret (negb p)
            | None => ret false
            end ;;
  restante <- tempo_restante_token ;;
  v <- gets _validade_token ;;
  p <- _token_precisa_renovar ;;
  ret {| token_valido := valido;
         validade := v;
         tempo_restante :=
           match restante with
           | Some d => duracao_ou_none d
           | None => None
           end;
         precisa_renovar := p |}.

(** *** consulta_sql *)

Definition api_sql_url (w : Mundo) : string :=
  "https://" +:+ dominio w +:+
  ":8343/ConstrutorAnaliseAPI/api/Analysis/GetSqlResult".

Definition body2_antes : string :=
  nova_linha +:+ "        {" +:+ nova_linha +:+
  "            " +:+ aspas +:+ "CommandText" +:+ aspas +:+ ": " +:+ aspas.

Definition body2_depois : string :=
  aspas +:+ "," +:+ nova_linha +:+
  "            " +:+ aspas +:+ "ConnectionType" +:+ aspas +:+ ": 0," +:+
  nova_linha +:+
  "            " +:+ aspas +:+ "Limit" +:+ aspas +:+ ": null" +:+
  nova_linha +:+ "        }" +:+ nova_linha +:+ "        ".

Definition body2 : string := body2_antes +:+ "{SQL_TEXT}" +:+ body2_depois.

(** [ss.post(self.api_sql_url, data=..., headers=headers, verify=False)]
    on a session of its own. *)
Definition ss_post_sql (p : pedido_sql) : M resposta :=
  fun w =>
    let k := length (pedidos_sql w) in
    let w1 := com_pedidos_sql (pedidos_sql w ++ [p]) w in
    match erp_sql w k with
    | FalhaTransporte => (Exc ErroTransporte, w1)
    | Respondeu r => (Ok r, w1)
    end.

Definition consulta_sql (sql_text : string) : M (option json) :=
  session <- obter_session_autenticada ;;
  t <- pegar_token_atualizado ;;
  access_token <- subscrito t "access_token" ;;
  let headers :=
    [("Content-Type", "application/json");
     ("Accept", "application/json");
     ("Authorization", "Bearer " +:+ py_str access_token)] in
  url <- gets api_sql_url ;;
  dados_objetos <- ss_post_sql
    {| sql_url := url;
       sql_data := str_replace body2 "{SQL_TEXT}" sql_text;
       sql_headers := headers |} ;;
  if status_code dados_objetos =? 200 then
    j <- loads (text dados_objetos) ;;
    ret (valor_python j)
  else
    print (MsgErroConsultaSQL (status_code dados_objetos)) ;;;
    ret None.

End GerenciadorToken.

(** ** The service front: Basic-Auth dependency and the SQL route *)

Definition is_ascii (s : string) : bool :=
  forallb (fun c => (nat_of_ascii c <? 128)%nat) (list_ascii_of_string s).

(** [secrets.compare_digest] on two [str]: it refuses non-ASCII text. *)
Definition compare_digest (a b : string) : res bool :=
  if is_ascii a && is_ascii b then Ok (String.eqb a b) else Exc TypeError.

Record HTTPBasicCredentials := {
  username : string;
  password : string
}.

Inductive detalhe :=
| Detalhe (s : string)
| DetalheErro (prefixo : string) (e : excecao).

(** How a route or a dependency ends: a value, an [HTTPException], or an
    exception nobody catches (answered by the framework with status 500). *)
Inductive desfecho (A : Type) :=
| Devolve (a : A)
| HTTPException (status : Z) (detail : detalhe)
    (headers : list (string * string))
| NaoTratada (e : excecao).
Arguments Devolve {A} a.
Arguments HTTPException {A} status detail headers.
Arguments NaoTratada {A} e.

Record SQLResponse := {
  success : bool;
  data : option json;
  error : option string
}.

Section ServiceFront.
Variables VALID_USERNAME VALID_PASSWORD : string.
Context `{Biblioteca}.

Definition verificar_autenticacao (credentials : HTTPBasicCredentials)
    : desfecho string :=
  match compare_digest (username credentials) VALID_USERNAME with
  | Exc e => NaoTratada e
  | Ok correct_username =>
      match compare_digest (password credentials) VALID_PASSWORD with
      | Exc e => NaoTratada e
      | Ok correct_password =>
          if negb (correct_username && correct_password) then
            HTTPException 401 (Detalhe "Credenciais inválidas")
              [("WWW-Authenticate", "Basic")]
          else
            Devolve (username credentials)
      end
  end.

(** The body of [executar_sql], once the dependency has let the request in
    and [obter_gerenciador] has picked the manager whose world is [w]. *)
Definition executar_sql (sql_query : string) (w : Mundo)
    : desfecho SQLResponse * Mundo :=
  match consulta_sql sql_query w with
  | (Ok (Some resultado), w') =>
      (Devolve {| success := true; data := Some resultado; error := None |},
       w')
  | (Ok None, w') =>
      (Devolve {| success := false; data := None;
                  error := Some "Falha ao executar a consulta SQL" |}, w')
  | (Exc e, w') =>
      (HTTPException 500 (DetalheErro "Erro ao executar consulta: " e) [], w')
  end.

End ServiceFront.

(** ** Vocabulary of the statements *)

(** [n] calls of the same operation, one after the other. *)
Fixpoint repetir {A} (n : nat) (m : M A) : M (list A) :=
  match n with
  | O => ret []
  | S k => a <- m ;; l <- repetir k m ;; ret (a :: l)
  end.

(** [w'] differs from [w] at most by the number of clock readings. *)
Definition so_leu_relogio (w w' : Mundo) : Prop :=
  dominio w' = dominio w /\ nome w' = nome w /\ senha w' = senha w /\
  nro_empresa w' = nro_empresa w /\
  session_cookies w' = session_cookies w /\
  _token_data w' = _token_data w /\
  _validade_token w' = _validade_token w /\
  arquivo_cookies w' = arquivo_cookies w /\
  relogio w' = relogio w /\
  erp_login w' = erp_login w /\ pedidos_login w' = pedidos_login w /\
  erp_sql w' = erp_sql w /\ pedidos_sql w' = pedidos_sql w /\
  saida w' = saida w /\
  (tiques w <= tiques w')%nat.

(** A manager just built by [__init__] in the environment of [w]: no token,
    no expiry, a new session; the file, the clock and the ERP are those of
    [w]. *)
Definition novo_gerenciador (w : Mundo) : Mundo :=
  com_token_data None (com_validade_token None (com_session_cookies ∅ w)).

(** [m] never raises. *)
Definition nunca_levanta {A} (m : M A) : Prop :=
  forall w, exists a, fst (m w) = Ok a.

(** Every run of [m] takes a world to one related to it by [R]. *)
Definition preserva {A} (R : Mundo -> Mundo -> Prop) (m : M A) : Prop :=
  forall w, R w (snd (m w)).

(** The SQL endpoint, the queries sent so far and the domain are those of
    [w]. *)
Definition mesmo_sql (w w' : Mundo) : Prop :=
  erp_sql w' = erp_sql w /\ pedidos_sql w' = pedidos_sql w /\
  dominio w' = dominio w.

(** The request [consulta_sql] sends for [sql_text] with the token field
    [a]. *)
Definition pedido_sql_de `{Biblioteca} (w : Mundo) (sql_text : string) (a : json)
    : pedido_sql :=
  {| sql_url := api_sql_url w;
     sql_data := body2_antes +:+ sql_text +:+ body2_depois;
     sql_headers :=
       [("Content-Type", "application/json");
        ("Accept", "application/json");
        ("Authorization", "Bearer " +:+ py_str a)] |}.


(** The login endpoint, the logins sent so far and the clock are those of
    [w]. *)
Definition mesmo_login (w w' : Mundo) : Prop :=
  erp_login w' = erp_login w /\ pedidos_login w' = pedidos_login w /\
  relogio w' = relogio w.

(** The request [_fazer_login] sends from [w]. *)
Definition pedido_login_de (w : Mundo) : pedido_login :=
  {| DataHoraLocal := agora w; returnUrl := EmptyString;
     Nome := nome w; Senha := senha w; NroEmpresa := nro_empresa w |}.

(** ** Reference codecs for the worked examples

    A strict reader of the fixed-width [YYYY-MM-DDTHH:MM:SSZ] form and a
    decoder of flat JSON objects whose members are strings (no escapes, no
    white space). On such inputs they return what [datetime.strptime] and
    [json.loads] return. *)

Definition digito (c : ascii) : option Z :=
  let n := Z.of_nat (nat_of_ascii c) in
  if (48 <=? n) && (n <=? 57) then Some (n - 48) else None.

Fixpoint ler_digitos (n : nat) (acc : Z) (l : list ascii)
    : option (Z * list ascii) :=
  match n with
  | O => Some (acc, l)
  | S k =>
      match l with
      | c :: l' =>
          match digito c with
          | Some d => ler_digitos k (10 * acc + d) l'
          | None => None
          end
      | [] => None
      end
  end.

Definition ler_literal (c : ascii) (l : list ascii) : option (list ascii) :=
  match l with
  | c' :: l' => if Ascii.eqb c c' then Some l' else None
  | [] => None
  end.

Definition bissexto (y : Z) : bool :=
  (y mod 4 =? 0) && (negb (y mod 100 =? 0) || (y mod 400 =? 0)).

Definition dias_no_mes (y m : Z) : Z :=
  if m =? 2 then (if bissexto y then 29 else 28)
  else if (m =? 4) || (m =? 6) || (m =? 9) || (m =? 11) then 30
  else 31.

Fixpoint dias_antes_do_mes (y : Z) (m : nat) : Z :=
  match m with
  | O => 0
  | S k => dias_antes_do_mes y k + dias_no_mes y (Z.of_nat m)
  end.

Definition dias_antes_do_ano (y : Z) : Z :=
  let a := y - 1 in 365 * a + a / 4 - a / 100 + a / 400.

Definition strptime_fixo (s : string) : option Z :=
  '(y, l) ← ler_digitos 4 0 (list_ascii_of_string s);
  l ← ler_literal "-" l;
  '(m, l) ← ler_digitos 2 0 l;
  l ← ler_literal "-" l;
  '(d, l) ← ler_digitos 2 0 l;
  l ← ler_literal "T" l;
  '(hh, l) ← ler_digitos 2 0 l;
  l ← ler_literal ":" l;
  '(mm, l) ← ler_digitos 2 0 l;
  l ← ler_literal ":" l;
  '(ss, l) ← ler_digitos 2 0 l;
  l ← ler_literal "Z" l;
  match l with
  | [] =>
      if (1 <=? y) && (1 <=? m) && (m <=? 12) && (1 <=? d)
         && (d <=? dias_no_mes y m) && (hh <=? 23) && (mm <=? 59)
         && (ss <=? 59)
      then Some (dias (dias_antes_do_ano y
                       + dias_antes_do_mes y (Z.to_nat (m - 1)) + (d - 1))
                 + horas hh + minutos mm + segundos ss)
      else None
  | _ => None
  end.

(** The characters up to the closing quote. *)
Fixpoint ler_texto (l : list ascii) : option (string * list ascii) :=
  match l with
  | [] => None
  | c :: l' =>
      if Ascii.eqb c (ascii_of_nat 34) then Some (EmptyString, l')
      else if Ascii.eqb c (ascii_of_nat 92) then None
      else '(s, r) ← ler_texto l'; Some (String c s, r)
  end.

Fixpoint ler_membros (fuel : nat) (l : list ascii) (m : gmap string json)
    : option (gmap string json) :=
  match fuel with
  | O => None
  | S f =>
      l ← ler_literal (ascii_of_nat 34) l;
      '(k, l) ← ler_texto l;
      l ← ler_literal ":" l;
      l ← ler_literal (ascii_of_nat 34) l;
      '(v, l) ← ler_texto l;
      match l with
      | c :: l' =>
          if Ascii.eqb c "}" then
            match l' with
            | [] => Some (<[k := JStr v]> m)
            | _ => None
            end
          else if Ascii.eqb c "," then ler_membros f l' (<[k := JStr v]> m)
          else None
      | [] => None
      end
  end.

Definition json_loads_plano (s : string) : option json :=
  match list_ascii_of_string s with
  | c :: l =>
      if Ascii.eqb c "{" then
        match l with
        | [c'] => if Ascii.eqb c' "}" then Some (JObj ∅) else None
        | _ => JObj <$> ler_membros (length l) l ∅
        end
      else None
  | [] => None
  end.

Definition biblioteca_exemplo : Biblioteca :=
  {| json_loads := json_loads_plano;
     strptime := strptime_fixo;
     py_repr := fun _ => EmptyString |}.

(** [{"access_token":"<a>",".expires":"<e>"}] *)
Definition blob_token (a e : string) : string :=
  "{" +:+ aspas +:+ "access_token" +:+ aspas +:+ ":" +:+ aspas +:+ a +:+ aspas
  +:+ "," +:+ aspas +:+ ".expires" +:+ aspas +:+ ":" +:+ aspas +:+ e +:+ aspas
  +:+ "}".

(** ** Worked examples: worlds *)

Definition instante (s : string) : Z := default 0 (strptime_fixo s).

(** A clock that advances one second between two readings. *)
Definition relogio_de (t0 : Z) : nat -> Z :=
  fun k => t0 + segundos (Z.of_nat k).

Definition sem_resposta : nat -> resultado_http := fun _ => FalhaTransporte.

Definition responde (status : Z) (corpo : string)
    (cookies : list (string * string)) : nat -> resultado_http :=
  fun _ => Respondeu {| status_code := status; text := corpo;
                        cookies_recebidos := cookies |}.

(** A manager just built, with no cookie file, at noon of 2025-01-01. *)
Definition mundo_inicial (login sql : nat -> resultado_http) : Mundo :=
  {| dominio := "erp.example"; nome := 7; senha := 1234; nro_empresa := 1;
     session_cookies := ∅; _token_data := None; _validade_token := None;
     arquivo_cookies := Ausente;
     relogio := relogio_de (instante "2025-01-01T12:00:00Z"); tiques := 0;
     erp_login := login; pedidos_login := [];
     erp_sql := sql; pedidos_sql := [];
     saida := [] |}.

(** The login answers 200 with a token that expires five minutes later. *)
Definition mundo_token_curto : Mundo :=
  mundo_inicial
    (responde 200 EmptyString
       [("oAuthToken", blob_token "abc" "2025-01-01T12:05:00Z")])
    sem_resposta.


(** The login answers 200 with a token whose expiry is [datetime.min]. *)
Definition mundo_validade_minima : Mundo :=
  mundo_inicial
    (responde 200 EmptyString
       [("oAuthToken", blob_token "abc" "0001-01-01T00:00:00Z");
        ("ASP.NET_SessionId", "xyz")])
    sem_resposta.

(** The login answers 200 with a token good until 20:00; the SQL endpoint
    answers with the given status and a small document. *)
Definition mundo_token_longo (status_sql : Z) : Mundo :=
  mundo_inicial
    (responde 200 EmptyString
       [("oAuthToken", blob_token "abc" "2025-01-01T20:00:00Z");
        ("ASP.NET_SessionId", "xyz")])
    (responde status_sql
       ("{" +:+ aspas +:+ "rows" +:+ aspas +:+ ":" +:+ aspas +:+ "none"
        +:+ aspas +:+ "}") []).

Definition token_exemplo (expira : string) : json :=
  JObj (<["access_token" := JStr "abc"]> (<[".expires" := JStr expira]> ∅)).

(** A manager that already holds in memory a token good until 20:00. *)
Definition mundo_token_em_memoria : Mundo :=
  com_token_data (Some (token_exemplo "2025-01-01T20:00:00Z"))
    (com_validade_token (Some (instante "2025-01-01T20:00:00Z"))
       (mundo_inicial sem_resposta sem_resposta)).

(** The login answers 200 with a token that has no [.expires] member. *)
Definition mundo_token_sem_validade : Mundo :=
  mundo_inicial
    (responde 200 EmptyString
       [("oAuthToken",
         "{" +:+ aspas +:+ "access_token" +:+ aspas +:+ ":" +:+ aspas
         +:+ "abc" +:+ aspas +:+ "}")])
    sem_resposta.

(** A manager that starts at noon beside a cookie file whose token
    expires at 14:00 as written, 11:00 once corrected by three hours; the
    login answers 200 with a session cookie and no [oAuthToken]. *)
Definition mundo_snapshot_vencido_sem_token : Mundo :=
  com_arquivo_cookies
    (Gravado {["oAuthToken" := blob_token "old" "2025-01-01T14:00:00Z"]})
    (mundo_inicial (responde 200 "OK" [("ASP.NET_SessionId", "abc")])
       sem_resposta).

(** ** Several callers at once

    The callers of [pegar_token_atualizado] are threads of one process that
    share the manager. A thread is a tree of actions: each action reads or
    writes one attribute, reads the clock, prints, looks at or writes the
    file, computes on local values, sends the login request or receives
    its answer; taking and releasing [self._lock] are actions of their own.
    At each step the scheduler picks the thread that performs its next
    action. *)

Inductive prog (A : Type) : Type :=
| Fim (r : res A)
| Atomico (efeito : Mundo -> Mundo) (segue : Mundo -> prog A)
| Adquirir (segue : prog A)
| Liberar (segue : prog A)
| Receber (r : resultado_http) (segue : res resposta -> prog A).
Arguments Fim {A} r.
Arguments Atomico {A} efeito segue.
Arguments Adquirir {A} segue.
Arguments Liberar {A} segue.
Arguments Receber {A} r segue.

Fixpoint liga {A B} (p : prog A) (k : A -> prog B) : prog B :=
  match p with
  | Fim (Ok a) => k a
  | Fim (Exc e) => Fim (Exc e)
  | Atomico e s => Atomico e (fun w => liga (s w) k)
  | Adquirir s => Adquirir (liga s k)
  | Liberar s => Liberar (liga s k)
  | Receber r s => Receber r (fun x => liga (s x) k)
  end.

(** [try: p except Exception as e: h e] *)
Fixpoint tentar {A} (p : prog A) (h : excecao -> prog A) : prog A :=
  match p with
  | Fim (Ok a) => Fim (Ok a)
  | Fim (Exc e) => h e
  | Atomico e s => Atomico e (fun w => tentar (s w) h)
  | Adquirir s => Adquirir (tentar s h)
  | Liberar s => Liberar (tentar s h)
  | Receber r s => Receber r (fun x => tentar (s x) h)
  end.

(** The lock is released on the way out, whatever the way. *)
Fixpoint ao_sair_libera {A} (p : prog A) : prog A :=
  match p with
  | Fim r => Liberar (Fim r)
  | Atomico e s => Atomico e (fun w => ao_sair_libera (s w))
  | Adquirir s => Adquirir (ao_sair_libera s)
  | Liberar s => Liberar (ao_sair_libera s)
  | Receber r s => Receber r (fun x => ao_sair_libera (s x))
  end.

(** [with self._lock: p] *)
Definition com_lock {A} (p : prog A) : prog A := Adquirir (ao_sair_libera p).

(** An operation of [M] performed as one action. *)
Definition atomico {A} (m : M A) : prog A :=
  Atomico (fun w => snd (m w)) (fun w => Fim (fst (m w))).

Notation "x <~ c1 ;; c2" := (liga c1 (fun x => c2))
  (at level 100, c1 at next level, right associativity).
Notation "c1 ~;; c2" := (liga c1 (fun _ => c2))
  (at level 100, right associativity).

(** What the session does with an answer: it keeps the cookies. *)
Definition receber_efeito (r : resultado_http) (w : Mundo) : Mundo :=
  match r with
  | FalhaTransporte => w
  | Respondeu x =>
      com_session_cookies
        (guardar_cookies (cookies_recebidos x) (session_cookies w)) w
  end.

Definition receber_valor (r : resultado_http) : res resposta :=
  match r with
  | FalhaTransporte => Exc ErroTransporte
  | Respondeu x => Ok x
  end.

Module Fio.
Section Metodos.
Context `{Biblioteca}.

Definition devolve {A} (a : A) : prog A := Fim (Ok a).
Definition levanta {A} (e : excecao) : prog A := Fim (Exc e).
Definition le {A} (f : Mundo -> A) : prog A := atomico (gets f).
Definition escreve (f : Mundo -> Mundo) : prog unit := atomico (modify f).
Definition imprime (m : mensagem) : prog unit := atomico (print m).

(** The request goes out in one action and the answer comes back in a
    later one; in between the login is in flight. *)
Definition session_post_login (p : pedido_login) : prog resposta :=
  Atomico (fun w => com_pedidos_login (pedidos_login w ++ [p]) w)
    (fun w => Receber (erp_login w (length (pedidos_login w))) Fim).

Definition _fazer_login : prog bool :=
  tentar
    (horario <~ atomico datetime_now ;;
     n <~ le nome ;;
     s <~ le senha ;;
     e <~ le nro_empresa ;;
     response <~ session_post_login
       {| DataHoraLocal := horario; returnUrl := EmptyString;
          Nome := n; Senha := s; NroEmpresa := e |} ;;
     if status_code response =? 200 then
       cookies_dict <~ le session_cookies ;;
       escreve (com_arquivo_cookies (Gravado cookies_dict)) ~;;
       match cookies_dict !! "oAuthToken" with
       | Some blob =>
           j <~ atomico (loads blob) ;;
           escreve (com_token_data (valor_python j)) ~;;
           td <~ le _token_data ;;
           expira <~ atomico (subscrito td ".expires") ;;
           d <~ atomico (strptime_de expira) ;;
           escreve (com_validade_token (Some d)) ~;;
           v <~ le _validade_token ;;
           imprime (MsgLoginSucesso v) ~;;
           devolve true
       | None =>
           imprime MsgTokenNaoEncontrado ~;;
           devolve false
       end
     else
       imprime (MsgFalhaLogin (status_code response)) ~;;
       imprime (MsgRespostaLogin (text response)) ~;;
       devolve false)
    (fun e => imprime (MsgErroLogin e) ~;; devolve false).

Definition _token_precisa_renovar : prog bool :=
  v <~ le _validade_token ;;
  match v with
  | None => devolve true
  | Some _ =>
      t <~ le _token_data ;;
      match t with
      | None => devolve true
      | Some _ =>
          agora <~ atomico datetime_now ;;
          v <~ le _validade_token ;;
          match v with
          | Some validade => devolve (validade - agora <=? margem_seguranca)
          | None => levanta TypeError
          end
      end
  end.

Definition _token_e_valido : prog bool :=
  v <~ le _validade_token ;;
  match v with
  | None => devolve false
  | Some _ =>
      t <~ le _token_data ;;
      match t with
      | None => devolve false
      | Some _ =>
          agora <~ atomico datetime_now ;;
          v <~ le _validade_token ;;
          match v with
          | Some validade => devolve (validade - agora >? margem_seguranca)
          | None => levanta TypeError
          end
      end
  end.

Definition carregar_token_salvo : prog bool :=
  tentar
    (existe <~ le (fun w => match arquivo_cookies w with
                            | Ausente => false
                            | _ => true
                            end) ;;
     if negb existe then devolve false
     else
       a <~ le arquivo_cookies ;;
       match a with
       | Ausente => levanta FileNotFoundError
       | Ilegivel => levanta ValueError
       | Gravado cookies_dict =>
           match cookies_dict !! "oAuthToken" with
           | None => devolve false
           | Some blob =>
               j <~ atomico (loads blob) ;;
               escreve (com_token_data (valor_python j)) ~;;
               td <~ le _token_data ;;
               expira <~ atomico (subscrito td ".expires") ;;
               d <~ atomico (strptime_de expira) ;;
               escreve (com_validade_token (Some d)) ~;;
               v <~ le _validade_token ;;
               d3 <~ match v with
                     | Some d => atomico (datetime_mais d (horas (-3)))
                     | None => levanta TypeError
                     end ;;
               escreve (com_validade_token (Some d3)) ~;;
               escreve (fun w =>
                 com_session_cookies
                   (recriar_cookies cookies_dict (session_cookies w)) w) ~;;
               precisa <~ _token_precisa_renovar ;;
               if negb precisa then
                 v <~ le _validade_token ;;
                 imprime (MsgTokenCarregado v) ~;;
                 devolve true
               else
                 imprime MsgTokenSalvoVencido ~;;
                 devolve false
           end
       end)
    (fun e => imprime (MsgErroCarregar e) ~;; devolve false).

Definition pegar_token_atualizado : prog (option json) :=
  valido <~ _token_e_valido ;;
  if valido then
    v <~ le _validade_token ;;
    imprime (MsgTokenAindaValido v) ~;;
    le _token_data
  else
    com_lock
      (valido <~ _token_e_valido ;;
       if valido then
         v <~ le _validade_token ;;
         imprime (MsgTokenRenovadoPorOutra v) ~;;
         le _token_data
       else
         t <~ le _token_data ;;
         match t with
         | None => carregar_token_salvo ~;; devolve tt
         | Some _ => devolve tt
         end ~;;
         valido <~ _token_e_valido ;;
         if valido then
           v <~ le _validade_token ;;
           imprime (MsgTokenCarregadoValido v) ~;;
           le _token_data
         else
           precisa <~ _token_precisa_renovar ;;
           if precisa then
             imprime MsgRenovando ~;;
             ok <~ _fazer_login ;;
             if negb ok then devolve None else le _token_data
           else
             le _token_data).

End Metodos.
End Fio.

(** A thread run on its own, from its first action to its last. *)
Fixpoint sozinho {A} (p : prog A) : M A :=
  match p with
  | Fim r => fun w => (r, w)
  | Atomico e s => fun w => sozinho (s w) (e w)
  | Adquirir s => sozinho s
  | Liberar s => sozinho s
  | Receber r s => fun w => sozinho (s (receber_valor r)) (receber_efeito r w)
  end.

(** The manager, the holder of [self._lock] if any, and the callers. *)
Record Config := {
  mundo : Mundo;
  trinco : option nat;
  fios : list (prog (option json))
}.

(** Thread [t] performs its next action; nothing happens when it has
    returned or waits for the lock. *)
Definition passo (t : nat) (c : Config) : Config :=
  match fios c !! t with
  | Some (Atomico e s) =>
      {| mundo := e (mundo c); trinco := trinco c;
         fios := <[t := s (mundo c)]> (fios c) |}
  | Some (Adquirir s) =>
      match trinco c with
      | None =>
          {| mundo := mundo c; trinco := Some t;
             fios := <[t := s]> (fios c) |}
      | Some _ => c
      end
  | Some (Liberar s) =>
      {| mundo := mundo c; trinco := None; fios := <[t := s]> (fios c) |}
  | Some (Receber r s) =>
      {| mundo := receber_efeito r (mundo c); trinco := trinco c;
         fios := <[t := s (receber_valor r)]> (fios c) |}
  | Some (Fim _) | None => c
  end.

Definition executar (ordem : list nat) (c : Config) : Config :=
  fold_left (fun c t => passo t c) ordem c.

(** [n] callers enter [pegar_token_atualizado] on the manager of [w]. *)
Definition config_inicial `{Biblioteca} (n : nat) (w : Mundo) : Config :=
  {| mundo := w; trinco := None;
     fios := replicate n Fio.pegar_token_atualizado |}.

(** What each caller has returned, if it has. *)
Definition devolvido {A} (p : prog A) : option (res A) :=
  match p with
  | Fim r => Some r
  | _ => None
  end.

(** The login of the thread is in flight. *)
Definition em_voo {A} (p : prog A) : bool :=
  match p with
  | Receber _ _ => true
  | _ => false
  end.

(** ** Vocabulary for the runs of several callers

    The scenario: the manager starts in [c_w0]; the first login is
    answered with the token [c_tok], whose expiry is [c_v1]; the run has
    at most [c_passos] steps. *)

Record cenario := {
  c_w0 : Mundo;
  c_tok : json;
  c_v1 : Z;
  c_passos : nat
}.

(** The attributes and the file that only the holder of the lock writes. *)
Definition campos_iguais (w w' : Mundo) : Prop :=
  _token_data w' = _token_data w /\
  _validade_token w' = _validade_token w /\
  session_cookies w' = session_cookies w /\
  arquivo_cookies w' = arquivo_cookies w /\
  pedidos_login w' = pedidos_login w.

Section Logica.
Variable cn : cenario.

Definition estatico (w : Mundo) : Prop :=
  relogio w = relogio (c_w0 cn) /\ erp_login w = erp_login (c_w0 cn).

(** No login yet: the manager is as it started. *)
Definition fase_A (w : Mundo) : Prop := campos_iguais (c_w0 cn) w.

(** The login is over: its token and expiry are in place. *)
Definition fase_C (w : Mundo) : Prop :=
  length (pedidos_login w) = S (length (pedidos_login (c_w0 cn))) /\
  _token_data w = Some (c_tok cn) /\
  _validade_token w = Some (c_v1 cn).

(** What holds of the manager and of the lock after [n] steps. *)
Definition inv (n : nat) (w : Mundo) (l : option nat) : Prop :=
  estatico w /\
  (tiques w <= tiques (c_w0 cn) + n)%nat /\
  (fase_C w \/
   (_validade_token w = _validade_token (c_w0 cn) /\
    (length (pedidos_login w) <= S (length (pedidos_login (c_w0 cn))))%nat /\
    (l = None -> fase_A w))).

(** What a thread knows at a point of its program, whatever the others
    do meanwhile. *)
Inductive saber :=
| Nada
| SabeC
| LockAC
| LockC
| Exato (x : Mundo).

Definition sabe (t : nat) (s : saber) (w : Mundo) (l : option nat) : Prop :=
  match s with
  | Nada => True
  | SabeC => fase_C w
  | LockAC => l = Some t /\ (fase_C w \/ fase_A w)
  | LockC => l = Some t /\ fase_C w
  | Exato x =>
      l = Some t /\ campos_iguais x w /\
      _validade_token x = _validade_token (c_w0 cn) /\
      (length (pedidos_login x) <= S (length (pedidos_login (c_w0 cn))))%nat
  end.

(** What a step of thread [t] may do to the others. *)
Definition garante (t : nat) (w : Mundo) (l : option nat)
    (w' : Mundo) (l' : option nat) : Prop :=
  (fase_C w -> fase_C w') /\
  (l <> Some t ->
   campos_iguais w w' /\ (l' = l \/ (l = None /\ l' = Some t))).

(** [seguro t s p Q]: from any state where thread [t] knows [s], every
    action of [p] keeps [inv], does to the others no more than [garante],
    and [p] ends with a result and a knowledge that satisfy [Q]. *)
Fixpoint seguro {A} (t : nat) (s : saber) (p : prog A)
    (Q : res A -> saber -> Prop) : Prop :=
  match p with
  | Fim r => Q r s
  | Atomico ef k =>
      forall n w l, (n < c_passos cn)%nat -> inv n w l -> sabe t s w l ->
        inv (S n) (ef w) l /\ garante t w l (ef w) l /\
        exists s', sabe t s' (ef w) l /\ seguro t s' (k w) Q
  | Adquirir k =>
      forall n w, (n < c_passos cn)%nat -> inv n w None -> sabe t s w None ->
        inv (S n) w (Some t) /\
        exists s', sabe t s' w (Some t) /\ seguro t s' k Q
  | Liberar k =>
      forall n w l, (n < c_passos cn)%nat -> inv n w l -> sabe t s w l ->
        l = Some t /\ inv (S n) w None /\
        exists s', sabe t s' w None /\ seguro t s' k Q
  | Receber r k =>
      forall n w l, (n < c_passos cn)%nat -> inv n w l -> sabe t s w l ->
        l = Some t /\
        inv (S n) (receber_efeito r w) l /\
        garante t w l (receber_efeito r w) l /\
        exists s', sabe t s' (receber_efeito r w) l /\
                   seguro t s' (k (receber_valor r)) Q
  end.

(** A caller ends with the token of the login, the login being over. *)
Definition fim_esperado (r : res (option json)) (s : saber) : Prop :=
  r = Ok (Some (c_tok cn)) /\ s = SabeC.

Definition inv_config (n : nat) (c : Config) : Prop :=
  inv n (mundo c) (trinco c) /\
  forall t p, fios c !! t = Some p ->
    exists s, sabe t s (mundo c) (trinco c) /\ seguro t s p fim_esperado.

End Logica.

(** ** Worked examples: several callers *)

(** The threads [0 .. n-1] take turns, [voltas] times each. *)
Definition alternado (n voltas : nat) : list nat :=
  flat_map (fun _ => seq 0 n) (seq 0 voltas).

(** Every login is answered with status 500. *)
Definition mundo_login_recusado : Mundo :=
  mundo_inicial (responde 500 "erro" []) sem_resposta.

(** The scenario of [mundo_token_longo]: one login, answered with a token
    good until 20:00, and runs of fewer than 200 steps. *)
Definition cenario_exemplo : cenario :=
  {| c_w0 := mundo_token_longo 200;
     c_tok := token_exemplo "2025-01-01T20:00:00Z";
     c_v1 := instante "2025-01-01T20:00:00Z";
     c_passos := 200 |}.

(** A manager whose cookie file holds a token that expires at 14:00 as
    written, 11:00 once corrected by three hours; it is noon. *)
Definition mundo_snapshot_vencido : Mundo :=
  com_arquivo_cookies
    (Gravado {["oAuthToken" := blob_token "old" "2025-01-01T14:00:00Z"]})
    (mundo_inicial
       (responde 200 EmptyString
          [("oAuthToken", blob_token "abc" "2025-01-01T20:00:00Z")])
       sem_resposta).

(** Thread 0 takes the lock and reloads the file up to the assignment of
    the expiry as written; thread 1 then runs its fast path; thread 0
    finishes. *)
Definition ordem_leitura_a_meio : list nat :=
  repeat 0%nat 12 ++ repeat 1%nat 7 ++ repeat 0%nat 60.

(** The [access_token] of what a caller has returned. *)
Definition access_token_devolvido (p : prog (option json)) : option json :=
  match p with
  | Fim (Ok (Some (JObj m))) => m !! "access_token"
  | _ => None
  end.

(** ** The shape of a caller's program, whatever the manager holds

    [leitor p]: no action of [p] touches the lock, the attributes, the
    file or the network. [neutro p]: no action of [p] touches the lock.
    [fora p]: [p] is the program of a thread that does not hold the lock;
    until it takes it, it behaves as a [leitor]. [dentro p]: [p] is the
    program of the thread that holds the lock; it releases it before it
    returns. *)

Fixpoint leitor {A} (p : prog A) : Prop :=
  match p with
  | Fim _ => True
  | Atomico e s => (forall w, campos_iguais w (e w)) /\ forall w, leitor (s w)
  | Adquirir _ | Liberar _ | Receber _ _ => False
  end.

Fixpoint neutro {A} (p : prog A) : Prop :=
  match p with
  | Fim _ => True
  | Atomico e s => forall w, neutro (s w)
  | Receber r s => forall x, neutro (s x)
  | Adquirir _ | Liberar _ => False
  end.

Fixpoint fora {A} (p : prog A) : Prop :=
  match p with
  | Fim _ => True
  | Atomico e s => (forall w, campos_iguais w (e w)) /\ forall w, fora (s w)
  | Adquirir s => dentro s
  | Liberar _ | Receber _ _ => False
  end
with dentro {A} (p : prog A) : Prop :=
  match p with
  | Fim _ => False
  | Atomico e s => forall w, dentro (s w)
  | Adquirir _ => False
  | Liberar s => fora s
  | Receber r s => forall x, dentro (s x)
  end.

(** Every thread is where the lock says it is. *)
Definition bem_formado (c : Config) : Prop :=
  match trinco c with
  | None => forall t p, fios c !! t = Some p -> fora p
  | Some h =>
      (exists p, fios c !! h = Some p /\ dentro p) /\
      forall t p, t <> h -> fios c !! t = Some p -> fora p
  end.

(** Thread [t] has an action to perform now. *)
Definition pode_avancar (t : nat) (c : Config) : bool :=
  match fios c !! t with
  | Some (Fim _) | None => false
  | Some (Adquirir _) =>
      match trinco c with
      | None => true
      | Some _ => false
      end
  | Some _ => true
  end.

(** Every path of [p] ends within [n] actions. *)
Fixpoint acaba_em {A} (n : nat) (p : prog A) {struct p} : Prop :=
  match p with
  | Fim _ => True
  | Atomico e s =>
      match n with
      | O => False
      | S k => forall w, acaba_em k (s w)
      end
  | Adquirir s | Liberar s =>
      match n with
      | O => False
      | S k => acaba_em k s
      end
  | Receber r s =>
      match n with
      | O => False
      | S k => forall x, acaba_em k (s x)
      end
  end.

(** The bound on the actions of one call of [pegar_token_atualizado]. *)
Definition passos_pegar_token_atualizado : nat := 60.

(** [bs] bounds, thread by thread, the actions the callers have left. *)
Definition orcamento (c : Config) (bs : list nat) : Prop :=
  Forall2 (fun p b => acaba_em b p) (fios c) bs.

(** Every caller has returned. *)
Definition todos_devolveram (c : Config) : Prop :=
  forall t p, fios c !! t = Some p -> exists r, p = Fim r.

(** The login of thread [t] is in flight. *)
Definition login_em_voo (t : nat) (c : Config) : bool :=
  match fios c !! t with
  | Some p => em_voo p
  | None => false
  end.

(** [p] sends at most [k] login requests, and nothing else changes the
    list of the requests sent. *)
Fixpoint envia_ate {A} (k : nat) (p : prog A) {struct p} : Prop :=
  match p with
  | Fim _ => True
  | Atomico e s =>
      forall w,
        (pedidos_login (e w) = pedidos_login w /\ envia_ate k (s w)) \/
        ((exists q, pedidos_login (e w) = pedidos_login w ++ [q]) /\
         match k with
         | O => False
         | S k' => envia_ate k' (s w)
         end)
  | Adquirir s | Liberar s => envia_ate k s
  | Receber r s => forall x, envia_ate k (s x)
  end.

(** The list of the login requests is the same. *)
Definition mesmos_pedidos_login (w w' : Mundo) : Prop :=
  pedidos_login w' = pedidos_login w.

(** An expiry is set; no method ever unsets it. *)
Definition tem_validade (w : Mundo) : Prop :=
  exists v, _validade_token w = Some v.

(** No action of [p] unsets the expiry. *)
Fixpoint inofensivo {A} (p : prog A) : Prop :=
  match p with
  | Fim _ => True
  | Atomico e s =>
      (forall w, tem_validade w -> tem_validade (e w)) /\
      forall w, inofensivo (s w)
  | Adquirir s | Liberar s => inofensivo s
  | Receber r s => forall x, inofensivo (s x)
  end.

(** [calmo k p Q]: no action of [p] unsets the expiry, and [p], run
    among threads that do not unset it either, ends with a result and a
    knowledge that satisfy [Q]; [k] says whether the thread knows, at
    this point of [p], that an expiry is set. *)
Fixpoint calmo {A} (k : bool) (p : prog A) (Q : res A -> bool -> Prop)
    : Prop :=
  match p with
  | Fim r => Q r k
  | Atomico e s =>
      (forall w, tem_validade w -> tem_validade (e w)) /\
      forall w, (k = true -> tem_validade w) ->
        exists k', (k' = true -> tem_validade (e w)) /\ calmo k' (s w) Q
  | Adquirir s | Liberar s => calmo k s Q
  | Receber r s => calmo k (s (receber_valor r)) Q
  end.

(** The caller returns a value, not an exception. *)
Definition sem_excecao {A} (r : res A) (k : bool) : Prop :=
  exists a, r = Ok a.

(** Every caller is calm, with what it knows true of the manager. *)
Definition todos_calmos (c : Config) : Prop :=
  forall t p, fios c !! t = Some p ->
    exists k, (k = true -> tem_validade (mundo c)) /\ calmo k p sem_excecao.

(** The number of actions of [p] from the manager [w] to its return, when
    none of them takes or releases the lock or receives an answer, and
    no other thread runs meanwhile. *)
Fixpoint passos_livres {A} (p : prog A) (w : Mundo) : option nat :=
  match p with
  | Fim _ => Some O
  | Atomico e s => S <$> passos_livres (s w) (e w)
  | Adquirir _ | Liberar _ | Receber _ _ => None
  end.

(** A turn of thread [t] at which the answer of the ERP may be late:
    [(t, chegou)] is a turn of [t]; when [t] has sent its login and waits
    for the answer, and [chegou] is [false], the answer has not arrived
    and nothing happens. The request is posted without a timeout: the
    answer may be late for any number of turns. *)
Definition passo_espera (tb : nat * bool) (c : Config) : Config :=
  if login_em_voo (fst tb) c && negb (snd tb) then c else passo (fst tb) c.

Definition executar_espera (ordem : list (nat * bool)) (c : Config)
    : Config :=
  fold_left (fun c tb => passo_espera tb c) ordem c.

(** The threads [0 .. n-1] take turns, once for each element of
    [rodadas]; the element says whether an answer awaited in that round
    has arrived. *)
Definition alternado_espera (n : nat) (rodadas : list bool)
    : list (nat * bool) :=
  flat_map (fun chegou => map (fun t => (t, chegou)) (seq 0 n)) rodadas.

(** The rounds in which the answers have arrived. *)
Definition rodadas_com_resposta (rodadas : list bool) : nat :=
  length (List.filter (fun b : bool => b) rodadas).

(** ** The other authenticated requests of [GerenciadorToken]

    [requisicao_get], [requisicao_post] and [ativar_categoria] go through
    [self.session] to an endpoint of the ERP that is neither the login nor
    the SQL endpoint: the k-th of these requests is answered with
    [erp_api k], and what each of them sends is recorded. What the three
    methods print is kept in a list of its own, apart from what the token
    methods print. *)

Inductive metodo_http := GET | POST.

(** The arguments given to [session.get] or [session.post]. *)
Record pedido_api := {
  api_metodo : metodo_http;
  api_url : string;
  api_params : option json;
  api_json : option json;
  api_data : option json;
  api_headers : list (string * string)
}.

Inductive mensagem_api :=
| MsgSemSessaoGET
| MsgErroGET (status : Z)
| MsgSemSessaoPOST
| MsgErroPOST (status : Z)
| MsgSemSessaoAtivar
| MsgCategoriaAtivada (codigo : string)
| MsgFalhaAtivar (codigo : string) (status : Z).

Record MundoAPI := {
  base : Mundo;
  erp_api : nat -> resultado_http;
  pedidos_api : list pedido_api;
  saida_api : list mensagem_api
}.

Definition com_base (w : Mundo) (a : MundoAPI) : MundoAPI :=
  {| base := w; erp_api := erp_api a; pedidos_api := pedidos_api a;
     saida_api := saida_api a |}.

Definition com_pedidos_api (l : list pedido_api) (a : MundoAPI) : MundoAPI :=
  {| base := base a; erp_api := erp_api a; pedidos_api := l;
     saida_api := saida_api a |}.

Definition com_saida_api (s : list mensagem_api) (a : MundoAPI) : MundoAPI :=
  {| base := base a; erp_api := erp_api a; pedidos_api := pedidos_api a;
     saida_api := s |}.

Definition MA (A : Type) : Type := MundoAPI -> res A * MundoAPI.

Definition ret_api {A} (x : A) : MA A := fun a => (Ok x, a).

Definition bind_api {A B} (m : MA A) (k : A -> MA B) : MA B :=
  fun a =>
    match m a with
    | (Ok x, a') => k x a'
    | (Exc e, a') => (Exc e, a')
    end.

(** A method of the manager, run on the manager of the larger world. *)
Definition no_gerenciador {A} (m : M A) : MA A :=
  fun a =>
    match m (base a) with
    | (r, w') => (r, com_base w' a)
    end.

Definition print_api (m : mensagem_api) : MA unit :=
  fun a => (Ok tt, com_saida_api (saida_api a ++ [m]) a).

Notation "x <-- c1 ;; c2" := (bind_api c1 (fun x => c2))
  (at level 100, c1 at next level, right associativity).
Notation "c1 ;;;; c2" := (bind_api c1 (fun _ => c2))
  (at level 100, right associativity).

(** [self.session.get(...)] and [self.session.post(...)]: the request is
    sent, and the session keeps the cookies of the answer. *)
Definition session_request (p : pedido_api) : MA resposta :=
  fun a =>
    let k := length (pedidos_api a) in
    let a1 := com_pedidos_api (pedidos_api a ++ [p]) a in
    match erp_api a k with
    | FalhaTransporte => (Exc ErroTransporte, a1)
    | Respondeu r =>
        (Ok r,
         com_base
           (com_session_cookies
              (guardar_cookies (cookies_recebidos r)
                 (session_cookies (base a1))) (base a1)) a1)
    end.

(** [self.cadastros_estruturais_ativar_categoria], as [__init__] sets it. *)
Definition cadastros_estruturais_ativar_categoria (w : Mundo) : string :=
  "https://" +:+ dominio w +:+
  ":8343/CadastrosEstruturaisAPI/api/v1/Familia/:codigo_categoria/ativar-categoria".

Section OutrasRequisicoes.
Context `{Biblioteca}.

Definition cabecalhos_de (access_token : json) : list (string * string) :=
  [("Content-Type", "application/json");
   ("Authorization", "Bearer " +:+ py_str access_token)].

Definition requisicao_get (url : string) (params : option json)
    : MA (option resposta) :=
  session <-- no_gerenciador obter_session_autenticada ;;
  match session with
  | None =>
      print_api MsgSemSessaoGET ;;;;
      ret_api None
  | Some _ =>
      t <-- no_gerenciador pegar_token_atualizado ;;
      access_token <-- no_gerenciador (subscrito t "access_token") ;;
      response <-- session_request
        {| api_metodo := GET; api_url := url; api_params := params;
           api_json := None; api_data := None;
           api_headers := cabecalhos_de access_token |} ;;
      if status_code response =? 200 then
        ret_api (Some response)
      else
        print_api (MsgErroGET (status_code response)) ;;;;
        ret_api None
  end.

Definition requisicao_post (url : string) (json_ data : option json)
    : MA (option resposta) :=
  t <-- no_gerenciador pegar_token_atualizado ;;
  access_token <-- no_gerenciador (subscrito t "access_token") ;;
  session <-- no_gerenciador obter_session_autenticada ;;
  match session with
  | None =>
      print_api MsgSemSessaoPOST ;;;;
      ret_api None
  | Some _ =>
      response <-- session_request
        {| api_metodo := POST; api_url := url; api_params := None;
           api_json := json_; api_data := data;
           api_headers := cabecalhos_de access_token |} ;;
      if status_code response =? 200 then
        ret_api (Some response)
      else
        print_api (MsgErroPOST (status_code response)) ;;;;
        ret_api None
  end.

Definition ativar_categoria (codigo_categoria : string) : MA bool :=
  session <-- no_gerenciador obter_session_autenticada ;;
  match session with
  | None =>
      print_api MsgSemSessaoAtivar ;;;;
      ret_api false
  | Some _ =>
      modelo <-- no_gerenciador (gets cadastros_estruturais_ativar_categoria) ;;
      let url_ativar :=
        str_replace modelo ":codigo_categoria" codigo_categoria in
      response <-- session_request
        {| api_metodo := POST; api_url := url_ativar; api_params := None;
           api_json := None; api_data := None; api_headers := [] |} ;;
      if status_code response =? 200 then
        print_api (MsgCategoriaAtivada codigo_categoria) ;;;;
        ret_api true
      else
        print_api (MsgFalhaAtivar codigo_categoria (status_code response)) ;;;;
        ret_api false
  end.

End OutrasRequisicoes.

(** The manager of [w] with an ERP endpoint that answers with [api]. *)
Definition mundo_api (w : Mundo) (api : nat -> resultado_http) : MundoAPI :=
  {| base := w; erp_api := api; pedidos_api := []; saida_api := [] |}.

(** The manager after a call of [pegar_token_atualizado] that found the
    token of the memory valid until [v]: one more reading of the clock and
    one more line printed. *)
Definition depois_do_atalho (v : Z) (w : Mundo) : Mundo :=
  com_saida (saida w ++ [MsgTokenAindaValido (Some v)])
    (com_tiques (S (tiques w)) w).

(** No character of [s] is [c]. *)
Definition sem_caractere (c : ascii) (s : string) : bool :=
  forallb (fun x => negb (Ascii.eqb x c)) (list_ascii_of_string s).

(** ** [extrair_dominio] and [__init__]

    The three substitutions are [re.sub] with a fixed pattern and an empty
    replacement; each is written out for its pattern. The text is ASCII,
    where [\d] is one of [0] to [9]; [.] is any character but the line
    feed, and [$] is the end of the text or the place before a line feed
    that ends it. *)

Definition e_digito (c : ascii) : bool :=
  (48 <=? nat_of_ascii c)%nat && (nat_of_ascii c <=? 57)%nat.

Definition quebra_de_linha : ascii := ascii_of_nat 10.

Fixpoint descartar (n : nat) (s : string) : string :=
  match n, s with
  | S k, String _ r => descartar k r
  | _, _ => s
  end.

(** [re.sub(r'^https?://', '', url)] *)
Definition remover_protocolo (url : string) : string :=
  if String.prefix "http://" url then descartar 7 url
  else if String.prefix "https://" url then descartar 8 url
  else url.

Definition comeca_com_digito (s : string) : bool :=
  match s with
  | String c _ => e_digito c
  | EmptyString => false
  end.

(** [re.sub(r':\d+', '', url)]: every [:] that a digit follows goes, with
    all the digits after it; [saltando] says that the digits of a match
    are being dropped. *)
Fixpoint remover_porta_de (saltando : bool) (s : string) : string :=
  match s with
  | EmptyString => EmptyString
  | String c r =>
      if saltando && e_digito c then remover_porta_de true r
      else if Ascii.eqb c ":" && comeca_com_digito r
           then remover_porta_de true r
           else String c (remover_porta_de false r)
  end.

Definition remover_porta (url : string) : string := remover_porta_de false url.

(** [.*$] matches what follows: no line feed but, at most, a last one. *)
Fixpoint ate_ao_fim (s : string) : bool :=
  match s with
  | EmptyString => true
  | String c r =>
      if Ascii.eqb c quebra_de_linha
      then match r with
           | EmptyString => true
           | _ => false
           end
      else ate_ao_fim r
  end.

Fixpoint termina_em_quebra (s : string) : bool :=
  match s with
  | EmptyString => false
  | String c EmptyString => Ascii.eqb c quebra_de_linha
  | String _ r => termina_em_quebra r
  end.

(** [re.sub(r'/.*$', '', url)]: the text is cut at the first [/] from
    which the rest runs to the end; a line feed that ends the text
    stays. *)
Fixpoint remover_caminho (s : string) : string :=
  match s with
  | EmptyString => EmptyString
  | String c r =>
      if Ascii.eqb c "/" && ate_ao_fim r
      then if termina_em_quebra r
           then String quebra_de_linha EmptyString
           else EmptyString
      else String c (remover_caminho r)
  end.

Definition extrair_dominio (url : string) : string :=
  remover_caminho (remover_porta (remover_protocolo url)).

(** [os.path.join(a, b)] on a POSIX system, for a directory name [a] that
    is not empty and does not end with [/]. *)
Definition os_path_join (a b : string) : string :=
  if String.prefix "/" b then b else a +:+ "/" +:+ b.

(** The value of [self.arquivo_cookies] that [__init__] sets. *)
Definition caminho_arquivo_cookies (url_login : string)
    (arquivo_cookies : option string) : string :=
  let dominio := extrair_dominio url_login in
  match arquivo_cookies with
  | Some f => f
  | None =>
      let url_login_limpo :=
        remover_caminho (remover_porta (remover_protocolo dominio)) in
      os_path_join "tokens" (url_login_limpo +:+ "_" +:+ "cookies.json")
  end.

(** The other addresses [__init__] derives from the domain. *)
Definition url_login (w : Mundo) : string :=
  "https://" +:+ dominio w +:+ "/Login".

Definition cadastros_estruturais_url (w : Mundo) : string :=
  "https://" +:+ dominio w +:+
  ":8343/CadastrosEstruturaisAPI/api/v1/:entidade".

Definition informacoes_nutricionais_url (w : Mundo) : string :=
  "https://" +:+ dominio w +:+
  ":8343/CadastrosEstruturaisAPI/api/v1/Familia/informacao-nutricional".

(** [GerenciadorToken(url_login, nome, senha, nro_empresa)] built where
    the file at its cookie path, the clock and the ERP are those of
    [ambiente]; the creation of the directory [tokens] is left out. *)
Definition __init__ (url : string) (nome_ senha_ nro_empresa_ : Z)
    (ambiente : Mundo) : Mundo :=
  {| dominio := extrair_dominio url;
     nome := nome_; senha := senha_; nro_empresa := nro_empresa_;
     session_cookies := ∅; _token_data := None; _validade_token := None;
     arquivo_cookies := arquivo_cookies ambiente;
     relogio := relogio ambiente; tiques := tiques ambiente;
     erp_login := erp_login ambiente;
     pedidos_login := pedidos_login ambiente;
     erp_sql := erp_sql ambiente; pedidos_sql := pedidos_sql ambiente;
     saida := saida ambiente |}.

(** No [:] of [s] is followed by a digit. *)
Fixpoint sem_porta (s : string) : bool :=
  match s with
  | EmptyString => true
  | String c r =>
      negb (Ascii.eqb c ":" && comeca_com_digito r) && sem_porta r
  end.

Definition todos_digitos (s : string) : bool :=
  forallb e_digito (list_ascii_of_string s).

(** A login address as it is usually written: a scheme, a host, and
    maybe a port and a path. *)
Definition url_de (esquema host : string) (porta caminho : option string)
    : string :=
  esquema +:+ host +:+
  match porta with
  | Some p => ":" +:+ p
  | None => EmptyString
  end +:+
  match caminho with
  | Some c => "/" +:+ c
  | None => EmptyString
  end.

(** * Properties *)

Section Propriedades.
Context `{Biblioteca}.

(** ** The validity and renewal predicates *)

Lemma _token_e_valido_eq (w : Mundo) :
  _token_e_valido w =
  match _validade_token w, _token_data w with
  | Some v, Some _ =>
      (Ok (v - agora w >? margem_seguranca), com_tiques (S (tiques w)) w)
  | _, _ => (Ok false, w)
  end.
Proof.
  unfold _token_e_valido, bind, gets, datetime_now, ret.
  destruct (_validade_token w), (_token_data w); reflexivity.
Qed.

Lemma _token_precisa_renovar_eq (w : Mundo) :
  _token_precisa_renovar w =
  match _validade_token w, _token_data w with
  | Some v, Some _ =>
      (Ok (v - agora w <=? margem_seguranca), com_tiques (S (tiques w)) w)
  | _, _ => (Ok true, w)
  end.
Proof.
  unfold _token_precisa_renovar, bind, gets, datetime_now, ret.
  destruct (_validade_token w), (_token_data w); reflexivity.
Qed.

Lemma gtb_negb_leb (a b : Z) : (a <=? b) = negb (a >? b).
Proof. rewrite Z.gtb_ltb, Z.leb_antisym. reflexivity. Qed.

(** C3. The validity predicate holds exactly when a token is present and
    [expiry - now > 10 minutes]; the needs-renewal predicate holds exactly
    when [expiry - now <= 10 minutes] or there is no token; read at the
    same instant, each is the negation of the other. *)
Theorem validity_and_renewal_are_complementary (w : Mundo) :
  (fst (_token_e_valido w) = Ok true <->
     exists d v, _token_data w = Some d /\ _validade_token w = Some v /\
                 v - agora w > minutos 10) /\
  (fst (_token_precisa_renovar w) = Ok true <->
     _token_data w = None \/ _validade_token w = None \/
     exists v, _validade_token w = Some v /\ v - agora w <= minutos 10) /\
  (exists b, fst (_token_e_valido w) = Ok b /\
             fst (_token_precisa_renovar w) = Ok (negb b)) /\
  (forall d v, _token_data w = Some d -> _validade_token w = Some v ->
     (v - agora w = minutos 10 -> fst (_token_e_valido w) = Ok false) /\
     (v - agora w = minutos 10 + segundos 1 ->
      fst (_token_e_valido w) = Ok true)).
Proof.
  rewrite _token_e_valido_eq, _token_precisa_renovar_eq.
  fold margem_seguranca.
  destruct (_validade_token w) as [v|], (_token_data w) as [d|]; cbn [fst];
    (split; [|split; [|split]]).
  - split.
    + intros [= E]. exists d, v. rewrite Z.gtb_ltb in E.
      apply Z.ltb_lt in E. repeat split; lia.
    + intros (d' & v' & _ & [= <-] & Hv). f_equal.
      rewrite Z.gtb_ltb. apply Z.ltb_lt. lia.
  - split.
    + intros [= E]. right; right. exists v. apply Z.leb_le in E. auto.
    + intros [[=] | [[=] | (v' & [= <-] & Hv)]]. f_equal.
      apply Z.leb_le. lia.
  - exists (v - agora w >? margem_seguranca). split; [reflexivity|].
    f_equal. apply gtb_negb_leb.
  - intros d' v' _ [= <-]. split; intros E; f_equal; rewrite Z.gtb_ltb.
    + apply Z.ltb_ge. unfold margem_seguranca in *. lia.
    + apply Z.ltb_lt. unfold margem_seguranca in *. revert E.
      unfold minutos, segundos, microssegundos_por_segundo. lia.
  - split; [discriminate | intros (d' & v' & [=] & _)].
  - split; auto.
  - exists false. auto.
  - intros d' v' [=].
  - split; [discriminate | intros (d' & v' & _ & [=] & _)].
  - split; auto.
  - exists false. auto.
  - intros d' v' _ [=].
  - split; [discriminate | intros (d' & v' & [=] & _)].
  - split; auto.
  - exists false. auto.
  - intros d' v' [=].
Qed.

(** ** Remaining time and status *)

Lemma tempo_restante_token_eq (w : Mundo) :
  tempo_restante_token w =
  match _validade_token w with
  | None => (Ok None, w)
  | Some v =>
      (Ok (Some (Z.max 0 (v - agora w))), com_tiques (S (tiques w)) w)
  end.
Proof.
  unfold tempo_restante_token, bind, gets, datetime_now, ret.
  destruct (_validade_token w) as [v|]; [|reflexivity].
  do 3 f_equal. rewrite Z.gtb_ltb.
  destruct (0 <? v - agora w) eqn:E;
    [apply Z.ltb_lt in E | apply Z.ltb_ge in E]; lia.
Qed.

(** C10. [tempo_restante_token] never returns a negative duration: [None]
    without a recorded expiry, the positive difference while the expiry is
    ahead, and exactly zero once it has passed. *)
Theorem tempo_restante_token_is_clamped_at_zero (w : Mundo) :
  (_validade_token w = None -> fst (tempo_restante_token w) = Ok None) /\
  (forall v, _validade_token w = Some v ->
     (agora w < v ->
      fst (tempo_restante_token w) = Ok (Some (v - agora w)) /\
      0 < v - agora w) /\
     (v <= agora w -> fst (tempo_restante_token w) = Ok (Some 0))) /\
  (forall d, fst (tempo_restante_token w) = Ok (Some d) -> 0 <= d) /\
  (exists r, fst (tempo_restante_token w) = Ok r).
Proof.
  rewrite tempo_restante_token_eq.
  destruct (_validade_token w) as [v|]; cbn [fst];
    (split; [|split; [|split]]); try discriminate; eauto.
  - intros v' [= <-]. split; intros Hv.
    + split; [|lia]. do 2 f_equal. lia.
    + do 2 f_equal. lia.
  - intros d [= <-]. lia.
Qed.

Lemma so_leu_relogio_refl (w : Mundo) : so_leu_relogio w w.
Proof. unfold so_leu_relogio. repeat split; auto. Qed.

Lemma so_leu_relogio_tiques (w : Mundo) (n : nat) :
  (tiques w <= n)%nat -> so_leu_relogio w (com_tiques n w).
Proof. intros Hn. unfold so_leu_relogio. repeat split; auto. Qed.

(** C8. [status_token] is read-only: it cannot fail, it issues no login
    and no query, and it leaves the token, its expiry, the session, the
    cookie file and the output as they were (only clock readings are
    consumed); the four fields it reports are computed from that state. *)
Theorem status_token_is_read_only (w : Mundo) :
  exists st,
    fst (status_token w) = Ok st /\
    so_leu_relogio w (snd (status_token w)) /\
    validade st = _validade_token w /\
    match _validade_token w, _token_data w with
    | Some v, Some _ =>
        token_valido st = negb (v - relogio w (tiques w) <=? minutos 10) /\
        tempo_restante st =
          duracao_ou_none (Z.max 0 (v - relogio w (S (tiques w)))) /\
        precisa_renovar st =
          (v - relogio w (S (S (tiques w))) <=? minutos 10)
    | Some v, None =>
        token_valido st = false /\
        tempo_restante st =
          duracao_ou_none (Z.max 0 (v - relogio w (tiques w))) /\
        precisa_renovar st = true
    | None, _ =>
        token_valido st = false /\ tempo_restante st = None /\
        precisa_renovar st = true
    end.
Proof.
  unfold status_token, bind, gets, ret.
  destruct (_token_data w) as [d|] eqn:Ed, (_validade_token w) as [v|] eqn:Ev.
  - rewrite _token_precisa_renovar_eq, Ed, Ev.
    rewrite tempo_restante_token_eq. cbn [_validade_token com_tiques].
    rewrite Ev. rewrite _token_precisa_renovar_eq.
    cbn [_validade_token _token_data com_tiques]. rewrite Ed, Ev.
    eexists. split; [reflexivity|]. cbn [fst snd].
    split; [unfold so_leu_relogio; cbn; repeat split; lia|].
    cbn. repeat split; reflexivity.
  - rewrite _token_precisa_renovar_eq, Ed, Ev.
    rewrite tempo_restante_token_eq, Ev.
    rewrite _token_precisa_renovar_eq, Ed, Ev.
    eexists. split; [reflexivity|]. cbn [fst snd].
    split; [apply so_leu_relogio_refl|]. cbn. repeat split; reflexivity.
  - rewrite tempo_restante_token_eq, Ev.
    rewrite _token_precisa_renovar_eq.
    cbn [_validade_token _token_data com_tiques]. rewrite Ed, Ev.
    eexists. split; [reflexivity|]. cbn [fst snd].
    split; [unfold so_leu_relogio; cbn; repeat split; lia|].
    cbn. repeat split; reflexivity.
  - rewrite tempo_restante_token_eq, Ev.
    rewrite _token_precisa_renovar_eq, Ed, Ev.
    eexists. split; [reflexivity|]. cbn [fst snd].
    split; [apply so_leu_relogio_refl|]. cbn. repeat split; reflexivity.
Qed.

(** ** Rules for [nunca_levanta] and [preserva] *)

Section Regras.
Context {R : Mundo -> Mundo -> Prop} (R_refl : forall w, R w w)
  (R_trans : forall a b c, R a b -> R b c -> R a c).

Lemma preserva_ret {A} (a : A) : preserva R (ret a).
Proof. intros w. apply R_refl. Qed.

Lemma preserva_raise {A} (e : excecao) : preserva R (@raise A e).
Proof. intros w. apply R_refl. Qed.

Lemma preserva_gets {A} (f : Mundo -> A) : preserva R (gets f).
Proof. intros w. apply R_refl. Qed.

Lemma preserva_modify (f : Mundo -> Mundo) :
  (forall w, R w (f w)) -> preserva R (modify f).
Proof. intros Hf w. apply Hf. Qed.

Lemma preserva_bind {A B} (m : M A) (k : A -> M B) :
  preserva R m -> (forall a, preserva R (k a)) -> preserva R (bind m k).
Proof.
  intros Hm Hk w. unfold bind. specialize (Hm w).
  destruct (m w) as [[a|e] w1]; cbn [snd] in *; [|assumption].
  eapply R_trans; [eassumption | apply Hk].
Qed.

Lemma preserva_try_except {A} (m : M A) (h : excecao -> M A) :
  preserva R m -> (forall e, preserva R (h e)) -> preserva R (try_except m h).
Proof.
  intros Hm Hh w. unfold try_except. specialize (Hm w).
  destruct (m w) as [[a|e] w1]; cbn [snd] in *; [assumption|].
  eapply R_trans; [eassumption | apply Hh].
Qed.

Lemma preserva_loads (blob : string) : preserva R (loads blob).
Proof. intros w. unfold loads. destruct (json_loads blob); apply R_refl. Qed.

Lemma preserva_strptime_de (v : json) : preserva R (strptime_de v).
Proof.
  intros w. unfold strptime_de. destruct v; try apply R_refl.
  destruct (strptime s); apply R_refl.
Qed.

Lemma preserva_subscrito (v : option json) (chave : string) :
  preserva R (subscrito v chave).
Proof.
  intros w. unfold subscrito.
  destruct v as [[| | | | |m]|]; try apply R_refl.
  destruct (m !! chave); apply R_refl.
Qed.

Lemma preserva_datetime_mais (d delta : Z) :
  preserva R (datetime_mais d delta).
Proof.
  intros w. unfold datetime_mais. destruct (_ && _); apply R_refl.
Qed.

End Regras.

(** One step of a proof of [preserva R m] by the shape of [m]; [fim]
    closes the goals [R w w'] left by the primitive updates. *)
Ltac preserva_passo R_refl R_trans fim :=
  lazymatch goal with
  | |- preserva _ (ret _) => apply (preserva_ret R_refl)
  | |- preserva _ (raise _) => apply (preserva_raise R_refl)
  | |- preserva _ (gets _) => apply (preserva_gets R_refl)
  | |- preserva _ (loads _) => apply (preserva_loads R_refl)
  | |- preserva _ (strptime_de _) => apply (preserva_strptime_de R_refl)
  | |- preserva _ (subscrito _ _) => apply (preserva_subscrito R_refl)
  | |- preserva _ (datetime_mais _ _) => apply (preserva_datetime_mais R_refl)
  | |- preserva _ (print _) => intros ?; fim
  | |- preserva _ datetime_now => intros ?; fim
  | |- preserva _ (modify _) => intros ?; fim
  | |- preserva _ (session_post_login _) =>
      let w := fresh "w" in
      intros w; unfold session_post_login; destruct (erp_login w _); fim
  | |- preserva _ (bind _ _) => apply (preserva_bind R_trans); [|intros ?]
  | |- preserva _ (try_except _ _) =>
      apply (preserva_try_except R_trans); [|intros ?]
  | |- preserva _ (match ?x with _ => _ end) => destruct x
  end.

Lemma nunca_levanta_ret {A} (a : A) : nunca_levanta (ret a).
Proof. intros w. exists a. reflexivity. Qed.

Lemma nunca_levanta_gets {A} (f : Mundo -> A) : nunca_levanta (gets f).
Proof. intros w. eexists. reflexivity. Qed.

Lemma nunca_levanta_modify (f : Mundo -> Mundo) : nunca_levanta (modify f).
Proof. intros w. eexists. reflexivity. Qed.

Lemma nunca_levanta_print (m : mensagem) : nunca_levanta (print m).
Proof. apply nunca_levanta_modify. Qed.

Lemma nunca_levanta_bind {A B} (m : M A) (k : A -> M B) :
  nunca_levanta m -> (forall a, nunca_levanta (k a)) ->
  nunca_levanta (bind m k).
Proof.
  intros Hm Hk w. unfold bind. destruct (Hm w) as [a Ha].
  destruct (m w) as [r w1]. cbn [fst] in Ha. subst r. apply Hk.
Qed.

Lemma nunca_levanta_try_except {A} (m : M A) (h : excecao -> M A) :
  (forall e, nunca_levanta (h e)) -> nunca_levanta (try_except m h).
Proof.
  intros Hh w. unfold try_except.
  destruct (m w) as [[a|e] w1]; [eexists; reflexivity | apply Hh].
Qed.

Lemma nunca_levanta__token_e_valido : nunca_levanta _token_e_valido.
Proof.
  intros w. rewrite _token_e_valido_eq.
  destruct (_validade_token w), (_token_data w); eexists; reflexivity.
Qed.

Lemma nunca_levanta__token_precisa_renovar :
  nunca_levanta _token_precisa_renovar.
Proof.
  intros w. rewrite _token_precisa_renovar_eq.
  destruct (_validade_token w), (_token_data w); eexists; reflexivity.
Qed.

Lemma nunca_levanta__fazer_login : nunca_levanta _fazer_login.
Proof.
  apply nunca_levanta_try_except. intros e.
  apply nunca_levanta_bind; [apply nunca_levanta_print|].
  intros _. apply nunca_levanta_ret.
Qed.

Lemma nunca_levanta_carregar_token_salvo : nunca_levanta carregar_token_salvo.
Proof.
  apply nunca_levanta_try_except. intros e.
  apply nunca_levanta_bind; [apply nunca_levanta_print|].
  intros _. apply nunca_levanta_ret.
Qed.

Ltac nunca_levanta_passo :=
  lazymatch goal with
  | |- nunca_levanta (ret _) => apply nunca_levanta_ret
  | |- nunca_levanta (gets _) => apply nunca_levanta_gets
  | |- nunca_levanta (print _) => apply nunca_levanta_print
  | |- nunca_levanta _token_e_valido => apply nunca_levanta__token_e_valido
  | |- nunca_levanta _token_precisa_renovar =>
      apply nunca_levanta__token_precisa_renovar
  | |- nunca_levanta _fazer_login => apply nunca_levanta__fazer_login
  | |- nunca_levanta carregar_token_salvo =>
      apply nunca_levanta_carregar_token_salvo
  | |- nunca_levanta (bind _ _) => apply nunca_levanta_bind; [|intros ?]
  | |- nunca_levanta (match ?x with _ => _ end) => destruct x
  end.

Lemma nunca_levanta_pegar_token_atualizado :
  nunca_levanta pegar_token_atualizado.
Proof. unfold pegar_token_atualizado. repeat nunca_levanta_passo. Qed.

(** ** What the token operations leave alone *)

Lemma mesmo_sql_refl (w : Mundo) : mesmo_sql w w.
Proof. unfold mesmo_sql. auto. Qed.

Lemma mesmo_sql_trans (a b c : Mundo) :
  mesmo_sql a b -> mesmo_sql b c -> mesmo_sql a c.
Proof. unfold mesmo_sql. intros (-> & -> & ->) (-> & -> & ->). auto. Qed.

Ltac mesmo_sql_passo :=
  preserva_passo mesmo_sql_refl mesmo_sql_trans
    ltac:(unfold mesmo_sql; cbn; auto).

Lemma mesmo_sql__token_e_valido : preserva mesmo_sql _token_e_valido.
Proof. unfold _token_e_valido. repeat mesmo_sql_passo. Qed.

Lemma mesmo_sql__token_precisa_renovar :
  preserva mesmo_sql _token_precisa_renovar.
Proof. unfold _token_precisa_renovar. repeat mesmo_sql_passo. Qed.

Lemma mesmo_sql__fazer_login : preserva mesmo_sql _fazer_login.
Proof. unfold _fazer_login. repeat mesmo_sql_passo. Qed.

Lemma mesmo_sql_carregar_token_salvo : preserva mesmo_sql carregar_token_salvo.
Proof.
  unfold carregar_token_salvo.
  repeat first [apply mesmo_sql__token_precisa_renovar | mesmo_sql_passo].
Qed.

Lemma mesmo_sql_pegar_token_atualizado :
  preserva mesmo_sql pegar_token_atualizado.
Proof.
  unfold pegar_token_atualizado.
  repeat first
    [ apply mesmo_sql__token_e_valido
    | apply mesmo_sql__token_precisa_renovar
    | apply mesmo_sql__fazer_login
    | apply mesmo_sql_carregar_token_salvo
    | mesmo_sql_passo ].
Qed.

Lemma mesmo_sql_obter_session_autenticada :
  preserva mesmo_sql obter_session_autenticada.
Proof.
  unfold obter_session_autenticada.
  repeat first [apply mesmo_sql_pegar_token_atualizado | mesmo_sql_passo].
Qed.

Lemma nunca_levanta_obter_session_autenticada :
  nunca_levanta obter_session_autenticada.
Proof.
  unfold obter_session_autenticada.
  apply nunca_levanta_bind; [apply nunca_levanta_pegar_token_atualizado|].
  intros a. repeat nunca_levanta_passo.
Qed.

(** ** The fast path *)

Lemma pegar_token_atualizado_fast_path (w : Mundo) (d : json) (v : Z) :
  _token_data w = Some d -> _validade_token w = Some v ->
  v - agora w > minutos 10 ->
  pegar_token_atualizado w =
  (Ok (Some d),
   com_saida (saida w ++ [MsgTokenAindaValido (Some v)])
     (com_tiques (S (tiques w)) w)).
Proof.
  intros Ed Ev Hv. unfold pegar_token_atualizado, bind at 1.
  rewrite _token_e_valido_eq, Ed, Ev.
  replace (v - agora w >? margem_seguranca) with true.
  - unfold bind, gets, print, modify. cbn. rewrite Ed, Ev. reflexivity.
  - symmetry. rewrite Z.gtb_ltb. apply Z.ltb_lt.
    unfold margem_seguranca. lia.
Qed.

(** C6. While the in-memory token stays valid at the instant each call
    reads the clock, any number of calls in a row issue no login and each
    returns that same token; the token, its expiry, the session and the
    cookie file are untouched. *)
Theorem fast_path_is_idempotent (n : nat) (w : Mundo) (d : json) (v : Z) :
  _token_data w = Some d -> _validade_token w = Some v ->
  (forall k, (k < n)%nat -> v - relogio w (tiques w + k) > minutos 10) ->
  let w' := snd (repetir n pegar_token_atualizado w) in
  fst (repetir n pegar_token_atualizado w) = Ok (repeat (Some d) n) /\
  pedidos_login w' = pedidos_login w /\
  _token_data w' = Some d /\ _validade_token w' = Some v /\
  session_cookies w' = session_cookies w /\
  arquivo_cookies w' = arquivo_cookies w /\
  tiques w' = (tiques w + n)%nat.
Proof.
  revert w. induction n as [|n IH]; intros w Ed Ev Hv.
  - cbn. repeat split; auto.
  - cbn [repetir]. unfold bind.
    rewrite (pegar_token_atualizado_fast_path w d v Ed Ev).
    2:{ specialize (Hv O). rewrite Nat.add_0_r in Hv. apply Hv. lia. }
    set (w1 := com_saida _ _).
    assert (Hv1 : forall k, (k < n)%nat ->
                    v - relogio w1 (tiques w1 + k) > minutos 10).
    { intros k Hk. cbn. specialize (Hv (S k)).
      rewrite Nat.add_succ_r in Hv. apply Hv. lia. }
    specialize (IH w1 Ed Ev Hv1). cbv zeta in IH.
    destruct IH as (Hr & Hl & Ht & Hvv & Hc & Ha & Htq).
    destruct (repetir n pegar_token_atualizado w1) as [r w2].
    cbn [fst snd] in *. subst r. cbn.
    repeat split; auto. rewrite Htq. cbn. lia.
Qed.

(** ** consulta_sql *)

Lemma str_replace_body2 (sql_text : string) :
  str_replace body2 "{SQL_TEXT}" sql_text =
  body2_antes +:+ sql_text +:+ body2_depois.
Proof. reflexivity. Qed.

Lemma consulta_sql_eq (sql_text : string) (w : Mundo)
    (m : gmap string json) (a : json) (resp : resposta) :
  let w1 := snd (obter_session_autenticada w) in
  let w2 := snd (pegar_token_atualizado w1) in
  let w3 :=
    com_pedidos_sql (pedidos_sql w ++ [pedido_sql_de w sql_text a]) w2 in
  fst (pegar_token_atualizado w1) = Ok (Some (JObj m)) ->
  m !! "access_token" = Some a ->
  erp_sql w (length (pedidos_sql w)) = Respondeu resp ->
  consulta_sql sql_text w =
  if status_code resp =? 200 then
    match json_loads (text resp) with
    | Some j => (Ok (valor_python j), w3)
    | None => (Exc ValueError, w3)
    end
  else
    (Ok None,
     com_saida (saida w2 ++ [MsgErroConsultaSQL (status_code resp)]) w3).
Proof.
  intros w1 w2 w3 Htok Ha Hresp.
  pose proof (mesmo_sql_obter_session_autenticada w) as (E1 & P1 & D1).
  pose proof (mesmo_sql_pegar_token_atualizado w1) as (E2 & P2 & D2).
  fold w1 in E1, P1, D1. fold w2 in E2, P2, D2.
  destruct (nunca_levanta_obter_session_autenticada w) as [s Hs].
  unfold w3, pedido_sql_de. clear w3.
  unfold consulta_sql, bind at 1.
  destruct (obter_session_autenticada w) as [r1 w1'] eqn:E.
  cbn [fst snd] in *. subst r1 w1. unfold bind at 1.
  destruct (pegar_token_atualizado w1') as [r2 w2'] eqn:E'.
  cbn [fst snd] in *. subst r2 w2.
  rewrite str_replace_body2.
  unfold bind at 1. unfold subscrito. rewrite Ha. unfold ret at 1.
  unfold bind at 1. unfold gets at 1. unfold bind at 1.
  unfold ss_post_sql. rewrite E2, E1, P2, P1, Hresp.
  unfold api_sql_url. rewrite D2, D1.
  destruct (status_code resp =? 200).
  - unfold bind, loads. destruct (json_loads (text resp)); reflexivity.
  - reflexivity.
Qed.

(** C7. [consulta_sql] substitutes the SQL text as it is into the literal
    body, sends the one request with [Authorization: Bearer <access_token>],
    returns the decoded body on status 200, and on any other status prints
    the status code, returns [None] (which the route turns into
    [success=false] with an error message) and sends nothing more. *)
Theorem consulta_sql_sends_once_and_maps_status
    (sql_text : string) (w : Mundo) (m : gmap string json) (a : json)
    (resp : resposta) :
  let w1 := snd (obter_session_autenticada w) in
  let w2 := snd (pegar_token_atualizado w1) in
  fst (pegar_token_atualizado w1) = Ok (Some (JObj m)) ->
  m !! "access_token" = Some a ->
  erp_sql w (length (pedidos_sql w)) = Respondeu resp ->
  pedidos_sql (snd (consulta_sql sql_text w)) =
    pedidos_sql w ++
    [{| sql_url := api_sql_url w;
        sql_data := body2_antes +:+ sql_text +:+ body2_depois;
        sql_headers :=
          [("Content-Type", "application/json");
           ("Accept", "application/json");
           ("Authorization", "Bearer " +:+ py_str a)] |}] /\
  (status_code resp = 200 ->
   forall j, json_loads (text resp) = Some j ->
     fst (consulta_sql sql_text w) = Ok (valor_python j)) /\
  (status_code resp <> 200 ->
   fst (consulta_sql sql_text w) = Ok None /\
   saida (snd (consulta_sql sql_text w)) =
     saida w2 ++ [MsgErroConsultaSQL (status_code resp)] /\
   fst (executar_sql sql_text w) =
     Devolve {| success := false; data := None;
                error := Some "Falha ao executar a consulta SQL" |}).
Proof.
  intros w1 w2 Htok Ha Hresp. unfold executar_sql.
  rewrite (consulta_sql_eq sql_text w m a resp Htok Ha Hresp).
  fold w1. fold w2.
  destruct (status_code resp =? 200) eqn:St.
  - apply Z.eqb_eq in St. split; [|split].
    + destruct (json_loads (text resp)); reflexivity.
    + intros _ j Hj. rewrite Hj. reflexivity.
    + intros Hne. contradiction.
  - apply Z.eqb_neq in St. split; [|split].
    + reflexivity.
    + intros Heq. contradiction.
    + intros _. repeat split; reflexivity.
Qed.

(** ** The login step *)




(** ** The outcomes of pegar_token_atualizado *)

Lemma mesmo_login_refl (w : Mundo) : mesmo_login w w.
Proof. unfold mesmo_login. auto. Qed.

Lemma mesmo_login_trans (a b c : Mundo) :
  mesmo_login a b -> mesmo_login b c -> mesmo_login a c.
Proof. unfold mesmo_login. intros (-> & -> & ->) (-> & -> & ->). auto. Qed.

Ltac mesmo_login_passo :=
  preserva_passo mesmo_login_refl mesmo_login_trans
    ltac:(unfold mesmo_login; cbn; auto).

Lemma mesmo_login__token_precisa_renovar :
  preserva mesmo_login _token_precisa_renovar.
Proof. unfold _token_precisa_renovar. repeat mesmo_login_passo. Qed.

Lemma mesmo_login_carregar_token_salvo :
  preserva mesmo_login carregar_token_salvo.
Proof.
  unfold carregar_token_salvo.
  repeat first [apply mesmo_login__token_precisa_renovar | mesmo_login_passo].
Qed.

(** What a validity check tells, and what it leaves. *)
Lemma _token_e_valido_casos (w : Mundo) :
  (exists d v,
     _token_e_valido w = (Ok true, com_tiques (S (tiques w)) w) /\
     _token_data w = Some d /\ _validade_token w = Some v /\
     v - agora w > minutos 10) \/
  (exists w1,
     _token_e_valido w = (Ok false, w1) /\ so_leu_relogio w w1 /\
     (_token_data w = None \/ _validade_token w = None \/
      exists v, _validade_token w = Some v /\ v - agora w <= minutos 10 /\
                tiques w1 = S (tiques w))).
Proof.
  rewrite _token_e_valido_eq.
  destruct (_validade_token w) as [v|] eqn:Ev, (_token_data w) as [d|] eqn:Ed.
  2-4: right; exists w; split; [reflexivity|];
       split; [apply so_leu_relogio_refl | auto].
  destruct (v - agora w >? margem_seguranca) eqn:E;
    rewrite Z.gtb_ltb in E;
    [apply Z.ltb_lt in E | apply Z.ltb_ge in E];
    unfold margem_seguranca in E.
  - left. exists d, v. repeat split; auto. lia.
  - right. eexists. split; [reflexivity|].
    split; [apply so_leu_relogio_tiques; lia|].
    right; right. exists v. auto.
Qed.

Lemma so_leu_relogio_mesmo_login (w w' : Mundo) :
  so_leu_relogio w w' -> mesmo_login w w'.
Proof. unfold so_leu_relogio, mesmo_login. tauto. Qed.

Lemma ramo_valido (msg : option Z -> mensagem) (k : M (option json))
    (x : Mundo) (d : json) (v : Z) :
  _token_e_valido x = (Ok true, com_tiques (S (tiques x)) x) ->
  _token_data x = Some d -> _validade_token x = Some v ->
  (valido <- _token_e_valido ;;
   if valido then
     v <- gets _validade_token ;; print (msg v) ;;; gets _token_data
   else k) x =
  (Ok (Some d),
   com_saida (saida x ++ [msg (Some v)]) (com_tiques (S (tiques x)) x)).
Proof.
  intros E Ed Ev. unfold bind at 1. rewrite E.
  unfold bind, gets, print, modify. cbn. rewrite Ed, Ev. reflexivity.
Qed.

Lemma ramo_invalido {A} (k k' : M A) (x x1 : Mundo) :
  _token_e_valido x = (Ok false, x1) ->
  (valido <- _token_e_valido ;; if valido then k' else k) x = k x1.
Proof. intros E. unfold bind at 1. rewrite E. reflexivity. Qed.

Lemma passo_carregar {A} (k : M A) (x : Mundo) :
  exists x1, mesmo_login x x1 /\
    (t <- gets _token_data ;;
     match t with
     | None => carregar_token_salvo ;;; ret tt
     | Some _ => ret tt
     end ;;; k) x = k x1.
Proof.
  unfold bind at 1. unfold gets at 1.
  destruct (_token_data x) as [d|].
  - exists x. split; [apply mesmo_login_refl | reflexivity].
  - exists (snd (carregar_token_salvo x)).
    split; [apply mesmo_login_carregar_token_salvo|].
    destruct (nunca_levanta_carregar_token_salvo x) as [b Hb].
    unfold bind. destruct (carregar_token_salvo x) as [r x1].
    cbn [fst snd] in *. subst r. reflexivity.
Qed.

(** How a call of [pegar_token_atualizado] ends: with the in-memory token
    found valid at the last clock reading and no login; or with one login,
    whose token is returned as stored when it succeeds and [None] when it
    fails; a third ending needs a clock that runs backwards. *)
Lemma pegar_token_atualizado_desfechos (w w' : Mundo)
    (r : res (option json)) :
  pegar_token_atualizado w = (r, w') ->
  (exists d v k,
     r = Ok (Some d) /\ pedidos_login w' = pedidos_login w /\
     _token_data w' = Some d /\ _validade_token w' = Some v /\
     tiques w' = S k /\ v - relogio w k > minutos 10) \/
  (exists wp,
     mesmo_login w wp /\ w' = snd (_fazer_login wp) /\
     ((fst (_fazer_login wp) = Ok true /\ r = Ok (_token_data w')) \/
      (fst (_fazer_login wp) = Ok false /\ r = Ok None))) \/
  (pedidos_login w' = pedidos_login w /\
   exists k, relogio w (S k) < relogio w k).
Proof.
  unfold pegar_token_atualizado. intros P.
  destruct (_token_e_valido_casos w)
    as [(d & v & E & Ed & Ev & Hv) | (w1 & E & F1 & _)].
  { left. rewrite (ramo_valido _ _ w d v E Ed Ev) in P.
    injection P as <- <-. exists d, v, (tiques w). cbn. auto 10. }
  rewrite (ramo_invalido _ _ w w1 E) in P.
  apply so_leu_relogio_mesmo_login in F1.
  destruct (_token_e_valido_casos w1)
    as [(d & v & E1 & Ed & Ev & Hv) | (w2 & E1 & F2 & _)].
  { left. rewrite (ramo_valido _ _ w1 d v E1 Ed Ev) in P.
    injection P as <- <-. destruct F1 as (_ & F1 & F1').
    exists d, v, (tiques w1). cbn. unfold agora in Hv. rewrite F1' in Hv.
    auto 10. }
  rewrite (ramo_invalido _ _ w1 w2 E1) in P.
  apply so_leu_relogio_mesmo_login in F2.
  match type of P with
  | context [bind (gets _token_data) (fun t => bind _ (fun _ => ?k))] =>
      destruct (passo_carregar k w2) as (w3 & F3 & E3)
  end.
  rewrite E3 in P. clear E3.
  pose proof (mesmo_login_trans _ _ _ F1 (mesmo_login_trans _ _ _ F2 F3))
    as F.
  clear F1 F2 F3 E E1 w1 w2.
  destruct (_token_e_valido_casos w3)
    as [(d & v & E & Ed & Ev & Hv) | (w4 & E & F4 & Hinv)].
  { left. rewrite (ramo_valido _ _ w3 d v E Ed Ev) in P.
    injection P as <- <-. destruct F as (_ & F & F').
    exists d, v, (tiques w3). cbn. unfold agora in Hv. rewrite F' in Hv.
    auto 10. }
  rewrite (ramo_invalido _ _ w3 w4 E) in P.
  unfold bind at 1 in P. rewrite _token_precisa_renovar_eq in P.
  destruct F4 as (_ & _ & _ & _ & _ & Ft & Fv & _ & Fr & Fe & Fp & _ & _
                  & _ & Fq).
  destruct F as (F0 & F & F').
  assert (Hlogin : forall wp, mesmo_login w wp ->
            (print MsgRenovando ;;;
             ok <- _fazer_login ;;
             if negb ok then ret None else gets _token_data) wp = (r, w') ->
            exists wp,
              mesmo_login w wp /\ w' = snd (_fazer_login wp) /\
              ((fst (_fazer_login wp) = Ok true /\ r = Ok (_token_data w'))
               \/ (fst (_fazer_login wp) = Ok false /\ r = Ok None))).
  { intros wp Fwp Q. unfold bind at 1 in Q. unfold print, modify in Q.
    set (wq := com_saida _ _) in Q. exists wq. split.
    { destruct Fwp as (A & B & C). unfold mesmo_login. subst wq. cbn. auto. }
    destruct (nunca_levanta__fazer_login wq) as [b Hb].
    unfold bind in Q. destruct (_fazer_login wq) as [r5 w5].
    cbn [fst snd] in *. subst r5.
    destruct b; cbn in Q; injection Q as <- <-; auto. }
  destruct (_validade_token w4) as [v|] eqn:Ev4,
           (_token_data w4) as [d|] eqn:Ed4.
  1: destruct (v - agora w4 <=? margem_seguranca) eqn:Hp.
  2:{ (* the clock ran backwards between the check and the renewal test *)
      right; right. cbn in P. injection P as <- <-. cbn.
      split; [congruence|].
      apply Z.leb_gt in Hp. unfold margem_seguranca in Hp.
      destruct Hinv as [Hn | [Hn | (v' & Hv' & Hle & Hq)]];
        [congruence | congruence |].
      exists (tiques w3). rewrite <- F'.
      assert (v' = v) by congruence. subst v'.
      unfold agora in *. rewrite Hq, Fr in Hp. lia. }
  - right; left. apply (Hlogin (com_tiques (S (tiques w4)) w4)); [|exact P].
    unfold mesmo_login. cbn. repeat split; congruence.
  - right; left. apply (Hlogin w4); [|exact P].
    unfold mesmo_login. repeat split; congruence.
  - right; left. apply (Hlogin w4); [|exact P].
    unfold mesmo_login. repeat split; congruence.
  - right; left. apply (Hlogin w4); [|exact P].
    unfold mesmo_login. repeat split; congruence.
Qed.




(** ** Snapshot round trip *)

Lemma recriar_cookies_union (c jar : gmap string string) :
  recriar_cookies c jar = c ∪ jar.
Proof.
  unfold recriar_cookies.
  apply (map_fold_weak_ind (fun r m => r = m ∪ jar)).
  - symmetry. apply (left_id_L ∅ (∪)).
  - intros i x m r _ ->. apply insert_union_l.
Qed.

Lemma recriar_cookies_vazio (c : gmap string string) :
  recriar_cookies c ∅ = c.
Proof. rewrite recriar_cookies_union. apply (right_id_L ∅ (∪)). Qed.

(** What a successful login has stored. *)
Lemma _fazer_login_sucesso (w w1 : Mundo) :
  _fazer_login w = (Ok true, w1) ->
  exists r blob m e v,
    erp_login w (length (pedidos_login w)) = Respondeu r /\
    status_code r = 200 /\
    session_cookies w1 =
      guardar_cookies (cookies_recebidos r) (session_cookies w) /\
    arquivo_cookies w1 = Gravado (session_cookies w1) /\
    session_cookies w1 !! "oAuthToken" = Some blob /\
    json_loads blob = Some (JObj m) /\
    m !! ".expires" = Some (JStr e) /\
    strptime e = Some v /\
    _token_data w1 = Some (JObj m) /\
    _validade_token w1 = Some v.
Proof.
  unfold _fazer_login, try_except, bind, gets, datetime_now,
    session_post_login.
  cbn [pedidos_login erp_login com_tiques].
  destruct (erp_login w (length (pedidos_login w))) as [|r] eqn:E;
    [discriminate|].
  destruct (status_code r =? 200) eqn:St; [|discriminate].
  apply Z.eqb_eq in St. unfold modify.
  cbn [session_cookies com_session_cookies com_pedidos_login com_tiques].
  set (jar := guardar_cookies _ _).
  destruct (jar !! "oAuthToken") as [blob|] eqn:Eb; [|discriminate].
  unfold loads. destruct (json_loads blob) as [j|] eqn:Ej; [|discriminate].
  unfold ret at 1. cbn [_token_data com_token_data].
  unfold subscrito.
  destruct j as [| | | | |m]; try discriminate.
  cbn [valor_python].
  destruct (m !! ".expires") as [x|] eqn:Ex; [|discriminate].
  unfold ret at 1. unfold strptime_de.
  destruct x as [| | |e| |]; try discriminate.
  destruct (strptime e) as [v|] eqn:Ee; [|discriminate].
  unfold ret at 1. unfold print, modify, ret. intros [= <-].
  exists r, blob, m, e, v. cbn. auto 12.
Qed.

(** Reloading a file whose token decodes and whose expiry, less three
    hours, is still a datetime. *)
Lemma carregar_token_salvo_legivel (x x' : Mundo) (rb : res bool)
    (c : gmap string string) (blob e : string) (m : gmap string json)
    (v : Z) :
  arquivo_cookies x = Gravado c ->
  c !! "oAuthToken" = Some blob ->
  json_loads blob = Some (JObj m) ->
  m !! ".expires" = Some (JStr e) ->
  strptime e = Some v ->
  horas 3 <= v <= datetime_max ->
  carregar_token_salvo x = (rb, x') ->
  _token_data x' = Some (JObj m) /\
  _validade_token x' = Some (v - horas 3) /\
  session_cookies x' = c ∪ session_cookies x.
Proof.
  intros Ea Eb Ej Ex Ee Hv.
  unfold carregar_token_salvo, try_except, bind at 1.
  unfold gets at 1. rewrite Ea, Eb.
  unfold bind at 1. unfold loads. rewrite Ej. unfold ret at 1.
  unfold bind at 1. unfold modify at 1. unfold bind at 1. unfold gets at 1.
  cbn [_token_data com_token_data valor_python].
  unfold bind at 1. unfold subscrito. rewrite Ex. unfold ret at 1.
  unfold bind at 1. unfold strptime_de. rewrite Ee. unfold ret at 1.
  unfold bind at 1. unfold modify at 1.
  unfold bind at 1. unfold datetime_mais.
  change (horas (-3)) with (- horas 3).
  replace ((datetime_min <=? v + - horas 3) && (v + - horas 3 <=? datetime_max))
    with true.
  2:{ symmetry. apply andb_true_iff. split; apply Z.leb_le.
      - unfold datetime_min. lia.
      - assert (0 <= horas 3) by (vm_compute; discriminate). lia. }
  unfold ret at 1. unfold bind at 1. unfold modify at 1.
  unfold bind at 1. unfold modify at 1.
  cbn [session_cookies com_token_data com_validade_token com_session_cookies].
  rewrite recriar_cookies_union.
  unfold bind at 1. rewrite _token_precisa_renovar_eq.
  cbn [_token_data _validade_token com_token_data com_validade_token
       com_session_cookies].
  replace (v + - horas 3) with (v - horas 3) by lia.
  destruct (_ <=? _); cbn; intros [= <- <-]; cbn; auto.
Qed.

(** C5, as the code has it. After a successful login whose expiry [v] is a
    datetime at or after 03:00 of the first day (so that [v - 3h] exists),
    a new manager of the same environment that reloads the cookie file
    holds the same token, the expiry [v - 3h], and in its session exactly
    the cookies that were persisted. *)
Theorem snapshot_round_trip (w w1 : Mundo) (v : Z) :
  _fazer_login w = (Ok true, w1) ->
  _validade_token w1 = Some v ->
  horas 3 <= v <= datetime_max ->
  let w2 := snd (carregar_token_salvo (novo_gerenciador w1)) in
  _token_data w2 = _token_data w1 /\
  _validade_token w2 = Some (v - horas 3) /\
  arquivo_cookies w1 = Gravado (session_cookies w1) /\
  session_cookies w2 = session_cookies w1.
Proof.
  intros L Ev Hv.
  destruct (_fazer_login_sucesso w w1 L)
    as (r & blob & m & e & v' & _ & _ & _ & Ea & Eb & Ej & Ex & Ee & Et & Ev').
  assert (v' = v) by congruence. subst v'. clear Ev'.
  cbv zeta.
  destruct (carregar_token_salvo (novo_gerenciador w1)) as [rb w2] eqn:C.
  destruct (carregar_token_salvo_legivel (novo_gerenciador w1) w2 rb
              (session_cookies w1) blob e m v Ea Eb Ej Ex Ee Hv C)
    as (A1 & A2 & A3).
  cbn [snd]. rewrite A1, A2, A3, Et. cbn.
  rewrite (right_id_L ∅ (∪)). auto.
Qed.

(** ** The Basic-Auth dependency *)

(** X17. When the configured user name and password and the supplied ones
    are ASCII text, a request whose user name or password differs is refused
    with status 401 and the header [WWW-Authenticate: Basic], and a request
    where both match goes through to the handler. *)
Theorem verificar_autenticacao_on_ascii_credentials
    (VALID_USERNAME VALID_PASSWORD : string)
    (credentials : HTTPBasicCredentials) :
  is_ascii VALID_USERNAME = true -> is_ascii VALID_PASSWORD = true ->
  is_ascii (username credentials) = true ->
  is_ascii (password credentials) = true ->
  (username credentials <> VALID_USERNAME \/
   password credentials <> VALID_PASSWORD ->
   verificar_autenticacao VALID_USERNAME VALID_PASSWORD credentials =
     HTTPException 401 (Detalhe "Credenciais inválidas")
       [("WWW-Authenticate", "Basic")]) /\
  (username credentials = VALID_USERNAME /\
   password credentials = VALID_PASSWORD ->
   verificar_autenticacao VALID_USERNAME VALID_PASSWORD credentials =
     Devolve (username credentials)).
Proof.
  intros Au Ap Bu Bp. unfold verificar_autenticacao, compare_digest.
  rewrite Au, Ap, Bu, Bp. cbn [andb]. split.
  - intros [Hu | Hp].
    + apply String.eqb_neq in Hu. rewrite Hu. reflexivity.
    + apply String.eqb_neq in Hp. rewrite Hp, andb_false_r. reflexivity.
  - intros [Hu Hp]. apply String.eqb_eq in Hu, Hp. rewrite Hu, Hp.
    reflexivity.
Qed.

End Propriedades.

(** * Several callers at once: properties *)

Section UmFio.
Context `{Biblioteca}.

(** ** A thread on its own is the sequential method *)

Lemma sozinho_liga {A B} (p : prog A) (k : A -> prog B) (w : Mundo) :
  sozinho (liga p k) w = bind (sozinho p) (fun a => sozinho (k a)) w.
Proof.
  revert w. induction p as [[a|e]|e s IH|s IH|s IH|r s IH]; intros w;
    cbn [liga sozinho]; unfold bind in *; cbn; auto.
Qed.

Lemma sozinho_tentar {A} (p : prog A) (h : excecao -> prog A) (w : Mundo) :
  sozinho (tentar p h) w =
  try_except (sozinho p) (fun e => sozinho (h e)) w.
Proof.
  revert w. induction p as [[a|e]|e s IH|s IH|s IH|r s IH]; intros w;
    cbn [tentar sozinho]; unfold try_except in *; cbn; auto.
Qed.

Lemma sozinho_ao_sair_libera {A} (p : prog A) (w : Mundo) :
  sozinho (ao_sair_libera p) w = sozinho p w.
Proof.
  revert w. induction p as [r|e s IH|s IH|s IH|r s IH]; intros w;
    cbn [ao_sair_libera sozinho]; auto.
Qed.

Lemma sozinho_atomico {A} (m : M A) (w : Mundo) :
  sozinho (atomico m) w = m w.
Proof. cbn. destruct (m w); reflexivity. Qed.

Lemma bind_igual {A B} (m m' : M A) (k k' : A -> M B) (w : Mundo) :
  (forall w, m w = m' w) -> (forall a w, k a w = k' a w) ->
  bind m k w = bind m' k' w.
Proof.
  intros Hm Hk. unfold bind. rewrite Hm.
  destruct (m' w) as [[a|e] w1]; auto.
Qed.

Lemma try_except_igual {A} (m m' : M A) (h h' : excecao -> M A) (w : Mundo) :
  (forall w, m w = m' w) -> (forall e w, h e w = h' e w) ->
  try_except m h w = try_except m' h' w.
Proof.
  intros Hm Hh. unfold try_except. rewrite Hm.
  destruct (m' w) as [[a|e] w1]; auto.
Qed.

(** One step of a proof that a thread program, run alone, is the
    sequential operation written with the same shape. *)
Ltac sozinho_passo :=
  lazymatch goal with
  | |- sozinho (liga _ _) ?w = bind _ _ ?w =>
      rewrite sozinho_liga; apply bind_igual; [intros ?|intros ? ?]
  | |- sozinho (tentar _ _) ?w = try_except _ _ ?w =>
      rewrite sozinho_tentar; apply try_except_igual; [intros ?|intros ? ?]
  | |- sozinho (atomico _) _ = _ => apply sozinho_atomico
  | |- sozinho (Fio.le _) _ = _ => apply sozinho_atomico
  | |- sozinho (Fio.escreve _) _ = _ => apply sozinho_atomico
  | |- sozinho (Fio.imprime _) _ = _ => apply sozinho_atomico
  | |- sozinho (Fio.devolve _) _ = _ => reflexivity
  | |- sozinho (Fio.levanta _) _ = _ => reflexivity
  | |- sozinho (match ?x with _ => _ end) _ = _ => destruct x
  end.

Lemma sozinho_session_post_login (p : pedido_login) (w : Mundo) :
  sozinho (Fio.session_post_login p) w = session_post_login p w.
Proof.
  unfold Fio.session_post_login, session_post_login. cbn.
  destruct (erp_login w _); reflexivity.
Qed.

Lemma sozinho__fazer_login (w : Mundo) :
  sozinho Fio._fazer_login w = _fazer_login w.
Proof.
  unfold Fio._fazer_login, _fazer_login.
  repeat first [apply sozinho_session_post_login | sozinho_passo].
Qed.

Lemma sozinho__token_e_valido (w : Mundo) :
  sozinho Fio._token_e_valido w = _token_e_valido w.
Proof.
  rewrite _token_e_valido_eq. unfold Fio._token_e_valido, Fio.le. cbn.
  destruct (_validade_token w) as [v|] eqn:Ev; cbn; [|reflexivity].
  destruct (_token_data w) as [d|]; cbn; [|reflexivity].
  rewrite Ev. reflexivity.
Qed.

Lemma sozinho__token_precisa_renovar (w : Mundo) :
  sozinho Fio._token_precisa_renovar w = _token_precisa_renovar w.
Proof.
  rewrite _token_precisa_renovar_eq.
  unfold Fio._token_precisa_renovar, Fio.le. cbn.
  destruct (_validade_token w) as [v|] eqn:Ev; cbn; [|reflexivity].
  destruct (_token_data w) as [d|]; cbn; [|reflexivity].
  rewrite Ev. reflexivity.
Qed.

Lemma sozinho_corrige_validade {B} (d : Z) (k : Z -> prog B)
    (k' : Z -> M B) :
  (forall a w, sozinho (k a) w = k' a w) ->
  forall w,
    sozinho
      (Fio.escreve (com_validade_token (Some d)) ~;;
       v <~ Fio.le _validade_token ;;
       d3 <~ match v with
             | Some d => atomico (datetime_mais d (horas (-3)))
             | None => Fio.levanta TypeError
             end ;;
       k d3) w =
    (modify (com_validade_token (Some d)) ;;;
     d3 <- datetime_mais d (horas (-3)) ;;
     k' d3) w.
Proof.
  intros Hk w. rewrite sozinho_liga. unfold bind at 1.
  unfold Fio.escreve. rewrite sozinho_atomico. unfold modify at 1.
  rewrite sozinho_liga. unfold bind at 1.
  unfold Fio.le. rewrite sozinho_atomico. unfold gets at 1.
  cbn [_validade_token com_validade_token].
  rewrite sozinho_liga. unfold bind at 2. unfold modify at 1.
  apply bind_igual; [intros w1; apply sozinho_atomico | exact Hk].
Qed.

Lemma sozinho_carregar_token_salvo (w : Mundo) :
  sozinho Fio.carregar_token_salvo w = carregar_token_salvo w.
Proof.
  unfold Fio.carregar_token_salvo, carregar_token_salvo.
  rewrite sozinho_tentar. apply try_except_igual.
  2:{ intros e w1. repeat sozinho_passo. }
  clear w. intros w. rewrite sozinho_liga. unfold bind at 1.
  unfold Fio.le at 1. rewrite sozinho_atomico. unfold gets at 1.
  lazymatch goal with
  | |- _ = bind (gets ?f) ?k ?w => change (bind (gets f) k w) with (k (f w) w)
  end.
  cbv beta.
  destruct (arquivo_cookies w) as [| |c] eqn:Ea; cbn [negb].
  - reflexivity.
  - rewrite sozinho_liga. unfold bind at 1. unfold Fio.le at 1.
    rewrite sozinho_atomico. unfold gets at 1. rewrite Ea. reflexivity.
  - rewrite sozinho_liga. unfold bind at 1. unfold Fio.le at 1.
    rewrite sozinho_atomico. unfold gets at 1. rewrite Ea.
    destruct (c !! "oAuthToken") as [blob|]; [|reflexivity].
    repeat first
      [ apply sozinho_corrige_validade; intros ? ?
      | apply sozinho__token_precisa_renovar
      | sozinho_passo ].
Qed.

Lemma sozinho_pegar_token_atualizado (w : Mundo) :
  sozinho Fio.pegar_token_atualizado w = pegar_token_atualizado w.
Proof.
  unfold Fio.pegar_token_atualizado, pegar_token_atualizado.
  repeat first
    [ apply sozinho__token_e_valido
    | apply sozinho__token_precisa_renovar
    | apply sozinho__fazer_login
    | apply sozinho_carregar_token_salvo
    | match goal with
      | |- sozinho (com_lock _) _ = _ =>
          unfold com_lock; cbn [sozinho]; rewrite sozinho_ao_sair_libera
      end
    | sozinho_passo ].
Qed.

End UmFio.

(** ** Soundness of the vocabulary: what [seguro] threads guarantee of
    every interleaving *)

Section Solidez.
Variable cn : cenario.

Lemma campos_iguais_refl (w : Mundo) : campos_iguais w w.
Proof. unfold campos_iguais. auto. Qed.

Lemma campos_iguais_trans (a b c : Mundo) :
  campos_iguais a b -> campos_iguais b c -> campos_iguais a c.
Proof.
  unfold campos_iguais.
  intros (A1 & A2 & A3 & A4 & A5) (B1 & B2 & B3 & B4 & B5).
  repeat split; congruence.
Qed.

Lemma fase_C_campos (w w' : Mundo) :
  campos_iguais w w' -> fase_C cn w -> fase_C cn w'.
Proof.
  unfold campos_iguais, fase_C.
  intros (A1 & A2 & A3 & A4 & A5) (C1 & C2 & C3).
  repeat split; congruence.
Qed.

Lemma sabe_campos (t : nat) (s : saber) (w w' : Mundo) (l : option nat) :
  campos_iguais w w' -> sabe cn t s w l -> sabe cn t s w' l.
Proof.
  intros Hc. destruct s as [| | | |x]; cbn; auto.
  - apply fase_C_campos, Hc.
  - intros (Hl & [HC | HA]); split; auto.
    + left. eapply fase_C_campos; eauto.
    + right. unfold fase_A in *. eapply campos_iguais_trans; eauto.
  - intros (Hl & HC). split; auto. eapply fase_C_campos; eauto.
  - intros (Hl & Hx & Hv & Hp).
    split; [assumption|]. split; [|auto].
    eapply campos_iguais_trans; eauto.
Qed.

(** What a thread knows survives the steps of the others. *)
Lemma sabe_estavel (t t' : nat) (s : saber) (w w' : Mundo)
    (l l' : option nat) :
  t <> t' -> sabe cn t' s w l -> garante cn t w l w' l' ->
  sabe cn t' s w' l'.
Proof.
  intros Hne Hs (G1 & G2).
  assert (Hlock : l = Some t' -> campos_iguais w w' /\ l' = l).
  { intros Hl. destruct G2 as (Hc & [Hl' | (Hn & _)]).
    - rewrite Hl. congruence.
    - auto.
    - congruence. }
  destruct s as [| | | |x]; cbn in *; auto.
  - destruct Hs as (Hl & Hs). destruct (Hlock Hl) as (Hc & ->).
    split; auto. destruct Hs as [HC | HA]; [left | right].
    + eapply fase_C_campos; eauto.
    + unfold fase_A in *. eapply campos_iguais_trans; eauto.
  - destruct Hs as (Hl & Hs). destruct (Hlock Hl) as (Hc & ->). auto.
  - destruct Hs as (Hl & Hx & Hv & Hp). destruct (Hlock Hl) as (Hc & ->).
    split; [assumption|]. split; [|auto].
    eapply campos_iguais_trans; eauto.
Qed.

Lemma inv_mono (n : nat) (w : Mundo) (l : option nat) :
  inv cn n w l -> inv cn (S n) w l.
Proof.
  unfold inv. intros (E & T & F).
  split; [assumption|]. split; [lia | assumption].
Qed.

Lemma inv_config_mono (n : nat) (c : Config) :
  inv_config cn n c -> inv_config cn (S n) c.
Proof. intros (I & F). split; [apply inv_mono, I | exact F]. Qed.

Lemma inv_config_passo (n t : nat) (c : Config) :
  (n < c_passos cn)%nat -> inv_config cn n c ->
  inv_config cn (S n) (passo t c).
Proof.
  intros Hn HI. pose proof HI as (I & F). unfold passo.
  destruct (fios c !! t) as [p|] eqn:Ep; [|apply inv_config_mono, HI].
  pose proof (lookup_lt_Some _ _ _ Ep) as Hlen.
  destruct (F t p Ep) as (s & Hs & Hp).
  assert (Outros : forall w' l' q s',
            garante cn t (mundo c) (trinco c) w' l' ->
            sabe cn t s' w' l' -> seguro cn t s' q (fim_esperado cn) ->
            forall t2 p2, <[t := q]> (fios c) !! t2 = Some p2 ->
              exists s2, sabe cn t2 s2 w' l' /\
                         seguro cn t2 s2 p2 (fim_esperado cn)).
  { intros w' l' q s' G Hs' Hq t2 p2 E2.
    destruct (decide (t = t2)) as [<- | Hne].
    - rewrite list_lookup_insert_eq in E2 by assumption.
      injection E2 as <-. eauto.
    - rewrite list_lookup_insert_ne in E2 by assumption.
      destruct (F t2 p2 E2) as (s2 & Hs2 & Hp2).
      exists s2. split; [|assumption].
      eapply sabe_estavel; eauto. }
  destruct p as [r|ef k|k|k|r k]; cbn [seguro] in Hp.
  - apply inv_config_mono, HI.
  - destruct (Hp n _ _ Hn I Hs) as (I' & G & s' & Hs' & Hk).
    split; cbn [mundo trinco fios]; eauto.
  - destruct (trinco c) as [h|] eqn:El; [apply inv_config_mono, HI|].
    destruct (Hp n _ Hn I Hs) as (I' & s' & Hs' & Hk).
    split; cbn [mundo trinco fios]; [assumption|].
    apply (Outros _ _ _ s'); auto.
    split; [auto|]. intros _. split; [apply campos_iguais_refl | auto].
  - destruct (Hp n _ _ Hn I Hs) as (El & I' & s' & Hs' & Hk).
    split; cbn [mundo trinco fios]; [assumption|].
    apply (Outros _ _ _ s'); auto.
    split; [auto|]. intros Hl. congruence.
  - destruct (Hp n _ _ Hn I Hs) as (El & I' & G & s' & Hs' & Hk).
    split; cbn [mundo trinco fios]; eauto.
Qed.

Lemma inv_config_executar (ordem : list nat) (n : nat) (c : Config) :
  (n + length ordem <= c_passos cn)%nat -> inv_config cn n c ->
  inv_config cn (n + length ordem) (executar ordem c).
Proof.
  revert n c. induction ordem as [|t ordem IH]; intros n c Hn HI.
  - cbn. rewrite Nat.add_0_r. assumption.
  - cbn [executar fold_left length] in *.
    replace (n + S (length ordem))%nat with (S n + length ordem)%nat by lia.
    apply (IH (S n) (passo t c)); [lia|].
    apply inv_config_passo; [lia | assumption].
Qed.

(** ** Rules for composed programs *)

Lemma seguro_liga {A B} (t : nat) (p : prog A) (k : A -> prog B)
    (s : saber) (Q : res B -> saber -> Prop) :
  seguro cn t s p
    (fun r s' => match r with
                 | Ok a => seguro cn t s' (k a) Q
                 | Exc e => Q (Exc e) s'
                 end) ->
  seguro cn t s (liga p k) Q.
Proof.
  revert s. induction p as [[a|e]|ef k0 IH|k0 IH|k0 IH|r k0 IH];
    intros s Hp; cbn [liga seguro] in *; auto.
  - intros n w l Hn I Hs.
    destruct (Hp n w l Hn I Hs) as (I' & G & s' & Hs' & Hk). eauto 8.
  - intros n w Hn I Hs.
    destruct (Hp n w Hn I Hs) as (I' & s' & Hs' & Hk). eauto 8.
  - intros n w l Hn I Hs.
    destruct (Hp n w l Hn I Hs) as (El & I' & s' & Hs' & Hk). eauto 8.
  - intros n w l Hn I Hs.
    destruct (Hp n w l Hn I Hs) as (El & I' & G & s' & Hs' & Hk). eauto 10.
Qed.

Lemma seguro_tentar {A} (t : nat) (p : prog A) (h : excecao -> prog A)
    (s : saber) (Q : res A -> saber -> Prop) :
  seguro cn t s p
    (fun r s' => match r with
                 | Ok a => Q (Ok a) s'
                 | Exc e => seguro cn t s' (h e) Q
                 end) ->
  seguro cn t s (tentar p h) Q.
Proof.
  revert s. induction p as [[a|e]|ef k0 IH|k0 IH|k0 IH|r k0 IH];
    intros s Hp; cbn [tentar seguro] in *; auto.
  - intros n w l Hn I Hs.
    destruct (Hp n w l Hn I Hs) as (I' & G & s' & Hs' & Hk). eauto 8.
  - intros n w Hn I Hs.
    destruct (Hp n w Hn I Hs) as (I' & s' & Hs' & Hk). eauto 8.
  - intros n w l Hn I Hs.
    destruct (Hp n w l Hn I Hs) as (El & I' & s' & Hs' & Hk). eauto 8.
  - intros n w l Hn I Hs.
    destruct (Hp n w l Hn I Hs) as (El & I' & G & s' & Hs' & Hk). eauto 10.
Qed.

Lemma seguro_ao_sair_libera {A} (t : nat) (p : prog A) (s : saber)
    (Q : res A -> saber -> Prop) :
  seguro cn t s p (fun r s' => seguro cn t s' (Liberar (Fim r)) Q) ->
  seguro cn t s (ao_sair_libera p) Q.
Proof.
  revert s. induction p as [r|ef k0 IH|k0 IH|k0 IH|r k0 IH];
    intros s Hp; cbn [ao_sair_libera] in *; auto.
  - cbn [seguro] in *. intros n w l Hn I Hs.
    destruct (Hp n w l Hn I Hs) as (I' & G & s' & Hs' & Hk). eauto 8.
  - cbn [seguro] in *. intros n w Hn I Hs.
    destruct (Hp n w Hn I Hs) as (I' & s' & Hs' & Hk). eauto 8.
  - cbn [seguro] in *. intros n w l Hn I Hs.
    destruct (Hp n w l Hn I Hs) as (El & I' & s' & Hs' & Hk). eauto 8.
  - cbn [seguro] in *. intros n w l Hn I Hs.
    destruct (Hp n w l Hn I Hs) as (El & I' & G & s' & Hs' & Hk). eauto 10.
Qed.

Lemma seguro_consequencia {A} (t : nat) (p : prog A) (s : saber)
    (Q Q' : res A -> saber -> Prop) :
  (forall r s', Q r s' -> Q' r s') ->
  seguro cn t s p Q -> seguro cn t s p Q'.
Proof.
  intros HQ. revert s.
  induction p as [r|ef k0 IH|k0 IH|k0 IH|r k0 IH];
    intros s Hp; cbn [seguro] in *; auto.
  - intros n w l Hn I Hs.
    destruct (Hp n w l Hn I Hs) as (I' & G & s' & Hs' & Hk). eauto 8.
  - intros n w Hn I Hs.
    destruct (Hp n w Hn I Hs) as (I' & s' & Hs' & Hk). eauto 8.
  - intros n w l Hn I Hs.
    destruct (Hp n w l Hn I Hs) as (El & I' & s' & Hs' & Hk). eauto 8.
  - intros n w l Hn I Hs.
    destruct (Hp n w l Hn I Hs) as (El & I' & G & s' & Hs' & Hk). eauto 10.
Qed.

End Solidez.

(** ** The callers of pegar_token_atualizado when the login succeeds *)

Section Cenario.
Context `{Biblioteca}.
Variables (cn : cenario) (resp : resposta) (blob e : string)
  (m : gmap string json).

Hypothesis sem_arquivo : arquivo_cookies (c_w0 cn) = Ausente.
Hypothesis sem_token_valido :
  forall v k, _validade_token (c_w0 cn) = Some v ->
    (k < tiques (c_w0 cn) + c_passos cn)%nat ->
    v - relogio (c_w0 cn) k <= minutos 10.
Hypothesis login_responde :
  erp_login (c_w0 cn) (length (pedidos_login (c_w0 cn))) = Respondeu resp.
Hypothesis login_200 : status_code resp = 200.
Hypothesis login_cookie :
  guardar_cookies (cookies_recebidos resp) (session_cookies (c_w0 cn))
    !! "oAuthToken" = Some blob.
Hypothesis login_json : json_loads blob = Some (JObj m).
Hypothesis login_tok : c_tok cn = JObj m.
Hypothesis login_expires : m !! ".expires" = Some (JStr e).
Hypothesis login_strptime : strptime e = Some (c_v1 cn).
Hypothesis token_dura :
  forall k, (k < tiques (c_w0 cn) + c_passos cn)%nat ->
    c_v1 cn - relogio (c_w0 cn) k > minutos 10.

(** The two phases exclude each other as soon as the clock is read. *)
Lemma validade_inicial_nao_e_C (n : nat) (w : Mundo) :
  (n < c_passos cn)%nat ->
  _validade_token w = _validade_token (c_w0 cn) -> ~ fase_C cn w.
Proof.
  intros Hn Hv (_ & _ & Hc). rewrite Hv in Hc.
  assert (Hk : (tiques (c_w0 cn) < tiques (c_w0 cn) + c_passos cn)%nat)
    by lia.
  pose proof (sem_token_valido _ _ Hc Hk).
  pose proof (token_dura _ Hk). lia.
Qed.

Lemma inv_passo_neutro (n : nat) (w w' : Mundo) (l : option nat) :
  relogio w' = relogio w -> erp_login w' = erp_login w ->
  (tiques w' <= S (tiques w))%nat -> campos_iguais w w' ->
  inv cn n w l -> inv cn (S n) w' l.
Proof.
  intros Hr He Ht Hc ((E1 & E2) & T & F).
  split; [split; congruence|]. split; [lia|].
  destruct F as [F | (Fv & Fp & Fa)].
  - left. eapply fase_C_campos; eauto.
  - right. destruct Hc as (C1 & C2 & C3 & C4 & C5).
    split; [congruence|]. split; [congruence|].
    intros Hl. unfold fase_A in *.
    eapply campos_iguais_trans; [apply Fa, Hl|].
    unfold campos_iguais. auto.
Qed.

Lemma garante_neutro (t : nat) (w w' : Mundo) (l : option nat) :
  campos_iguais w w' -> garante cn t w l w' l.
Proof.
  intros Hc. split.
  - apply fase_C_campos, Hc.
  - intros _. auto.
Qed.

(** An action that leaves the attributes and the file alone. *)
Lemma seguro_neutro {A} (t : nat) (s : saber) (ef : Mundo -> Mundo)
    (k : Mundo -> prog A) (Q : res A -> saber -> Prop) :
  (forall w, relogio (ef w) = relogio w /\ erp_login (ef w) = erp_login w /\
             (tiques (ef w) <= S (tiques w))%nat /\
             campos_iguais w (ef w)) ->
  (forall n w l, (n < c_passos cn)%nat -> inv cn n w l -> sabe cn t s w l ->
     exists s', sabe cn t s' w l /\ seguro cn t s' (k w) Q) ->
  seguro cn t s (Atomico ef k) Q.
Proof.
  intros Hef Hk. cbn [seguro]. intros n w l Hn I Hs.
  destruct (Hef w) as (E1 & E2 & E3 & E4).
  split; [eapply inv_passo_neutro; eauto|].
  split; [apply garante_neutro; assumption|].
  destruct (Hk n w l Hn I Hs) as (s' & Hs' & Hq).
  exists s'. split; [|assumption].
  eapply sabe_campos; eauto.
Qed.

Lemma seguro_le {A} (t : nat) (s : saber) (f : Mundo -> A)
    (Q : res A -> saber -> Prop) :
  (forall n w l, (n < c_passos cn)%nat -> inv cn n w l -> sabe cn t s w l ->
     exists s', sabe cn t s' w l /\ Q (Ok (f w)) s') ->
  seguro cn t s (Fio.le f) Q.
Proof.
  intros Hq. apply seguro_neutro.
  - intros w. cbn. repeat split; auto.
  - exact Hq.
Qed.

Lemma seguro_imprime (t : nat) (s : saber) (msg : mensagem)
    (Q : res unit -> saber -> Prop) :
  Q (Ok tt) s -> seguro cn t s (Fio.imprime msg) Q.
Proof.
  intros Hq. apply seguro_neutro.
  - intros w. cbn. repeat split; auto.
  - intros n w l _ _ Hs. exists s. auto.
Qed.

Lemma seguro_agora (t : nat) (s : saber) (Q : res Z -> saber -> Prop) :
  (forall k, (k < tiques (c_w0 cn) + c_passos cn)%nat ->
     Q (Ok (relogio (c_w0 cn) k)) s) ->
  seguro cn t s (atomico datetime_now) Q.
Proof.
  intros Hq. apply seguro_neutro.
  - intros w. cbn. repeat split; auto.
  - intros n w l Hn ((E1 & E2) & T & _) Hs. exists s. split; [assumption|].
    cbn. unfold agora. rewrite E1. apply Hq. lia.
Qed.

(** A computation on local values. *)
Lemma seguro_local {A} (t : nat) (s : saber) (c : M A) (r : res A)
    (Q : res A -> saber -> Prop) :
  (forall w, c w = (r, w)) -> Q r s -> seguro cn t s (atomico c) Q.
Proof.
  intros Hc Hq. apply seguro_neutro.
  - intros w. rewrite Hc. cbn. repeat split; auto.
  - intros n w l _ _ Hs. exists s. split; [assumption|].
    cbn. rewrite Hc. exact Hq.
Qed.

(** Two ways of knowing, one program. *)
Lemma seguro_casos {A} (t : nat) (s s1 s2 : saber) (p : prog A)
    (Q : res A -> saber -> Prop) :
  devolvido p = None ->
  (forall n w l, (n < c_passos cn)%nat -> inv cn n w l -> sabe cn t s w l ->
     sabe cn t s1 w l \/ sabe cn t s2 w l) ->
  seguro cn t s1 p Q -> seguro cn t s2 p Q -> seguro cn t s p Q.
Proof.
  intros Hp Hs H1 H2.
  destruct p as [r|ef k|k|k|r k]; cbn [seguro devolvido] in *;
    [discriminate | | | |].
  - intros n w l Hn I Hk. destruct (Hs n w l Hn I Hk); eauto.
  - intros n w Hn I Hk. destruct (Hs n w None Hn I Hk); eauto.
  - intros n w l Hn I Hk. destruct (Hs n w l Hn I Hk); eauto.
  - intros n w l Hn I Hk. destruct (Hs n w l Hn I Hk); eauto.
Qed.

(** Taking the lock: the manager is as it started, or the login is over. *)
Lemma seguro_adquirir {A} (t : nat) (s : saber) (k : prog A)
    (Q : res A -> saber -> Prop) :
  seguro cn t LockAC k Q -> seguro cn t s (Adquirir k) Q.
Proof.
  intros Hk. cbn [seguro]. intros n w Hn (E & T & F) _.
  split.
  - split; [assumption|]. split; [lia|].
    destruct F as [F | (Fv & Fp & Fa)]; [left; assumption|].
    right. split; [assumption|]. split; [assumption|]. discriminate.
  - exists LockAC. split; [|assumption]. cbn. split; [reflexivity|].
    destruct F as [F | (Fv & Fp & Fa)]; auto.
Qed.

(** Leaving the lock once the login is over. *)
Lemma seguro_liberar {A} (t : nat) (r : res A)
    (Q : res A -> saber -> Prop) :
  Q r SabeC -> seguro cn t LockC (Liberar (Fim r)) Q.
Proof.
  intros Hq. cbn [seguro]. intros n w l Hn (E & T & F) (Hl & HC).
  split; [assumption|]. split.
  - split; [assumption|]. split; [lia|]. left. assumption.
  - exists SabeC. split; [exact HC | exact Hq].
Qed.

(** The holder of the lock, before the login is over: it knows the
    attributes and the file exactly. *)
Lemma seguro_atomico_exato {A} (t : nat) (x x' : Mundo)
    (ef : Mundo -> Mundo) (k : Mundo -> prog A)
    (Q : res A -> saber -> Prop) :
  (forall w, relogio (ef w) = relogio w /\ erp_login (ef w) = erp_login w /\
             (tiques (ef w) <= S (tiques w))%nat) ->
  (forall w, campos_iguais x w -> campos_iguais x' (ef w)) ->
  _validade_token x' = _validade_token (c_w0 cn) ->
  (length (pedidos_login x') <= S (length (pedidos_login (c_w0 cn))))%nat ->
  (forall w, estatico cn w -> campos_iguais x w ->
             (tiques w < tiques (c_w0 cn) + c_passos cn)%nat ->
             seguro cn t (Exato x') (k w) Q) ->
  seguro cn t (Exato x) (Atomico ef k) Q.
Proof.
  intros Hef Hx Hv Hp Hk. cbn [seguro].
  intros n w l Hn (E & T & F) (Hl & Hc & Hxv & Hxp).
  destruct (Hef w) as (E1 & E2 & E3). destruct E as (Er & Ee).
  pose proof (Hx w Hc) as Hc'.
  assert (Hvw : _validade_token (ef w) = _validade_token (c_w0 cn)).
  { destruct Hc' as (_ & -> & _). assumption. }
  split; [|split].
  - split; [split; congruence|]. split; [lia|]. right.
    split; [assumption|]. split.
    + destruct Hc' as (_ & _ & _ & _ & ->). assumption.
    + intros ->. discriminate.
  - split.
    + intros HC. exfalso.
      apply (validade_inicial_nao_e_C n w Hn); [|assumption].
      destruct Hc as (_ & -> & _). assumption.
    + intros Hne. congruence.
  - exists (Exato x'). split.
    + cbn. auto.
    + apply Hk; [split; assumption | assumption | lia].
Qed.

Lemma seguro_le_exato {A} (t : nat) (x : Mundo) (f : Mundo -> A)
    (Q : res A -> saber -> Prop) :
  _validade_token x = _validade_token (c_w0 cn) ->
  (length (pedidos_login x) <= S (length (pedidos_login (c_w0 cn))))%nat ->
  (forall w, estatico cn w -> campos_iguais x w -> Q (Ok (f w)) (Exato x)) ->
  seguro cn t (Exato x) (Fio.le f) Q.
Proof.
  intros Hv Hp Hq. unfold Fio.le, atomico.
  apply (seguro_atomico_exato t x x); auto.
  intros w E Hc _. cbn. auto.
Qed.

Lemma seguro_escreve_exato (t : nat) (x : Mundo) (g : Mundo -> Mundo)
    (Q : res unit -> saber -> Prop) :
  (forall w, relogio (g w) = relogio w /\ erp_login (g w) = erp_login w /\
             (tiques (g w) <= S (tiques w))%nat) ->
  (forall w, campos_iguais x w -> campos_iguais (g x) (g w)) ->
  _validade_token (g x) = _validade_token (c_w0 cn) ->
  (length (pedidos_login (g x))
     <= S (length (pedidos_login (c_w0 cn))))%nat ->
  Q (Ok tt) (Exato (g x)) ->
  seguro cn t (Exato x) (Fio.escreve g) Q.
Proof.
  intros Hg Hx Hv Hp Hq. unfold Fio.escreve, atomico.
  apply (seguro_atomico_exato t x (g x)); auto.
Qed.

Lemma seguro_receber_exato {A} (t : nat) (x : Mundo) (r : resultado_http)
    (k : res resposta -> prog A) (Q : res A -> saber -> Prop) :
  _validade_token x = _validade_token (c_w0 cn) ->
  (length (pedidos_login x) <= S (length (pedidos_login (c_w0 cn))))%nat ->
  seguro cn t (Exato (receber_efeito r x)) (k (receber_valor r)) Q ->
  seguro cn t (Exato x) (Receber r k) Q.
Proof.
  intros Hv Hp Hk. cbn [seguro].
  intros n w l Hn (E & T & F) (Hl & Hc & Hxv & Hxp).
  assert (Hc' : campos_iguais (receber_efeito r x) (receber_efeito r w)).
  { destruct Hc as (C1 & C2 & C3 & C4 & C5).
    destruct r as [|a]; cbn; unfold campos_iguais; cbn; repeat split;
      congruence. }
  assert (Hv' : _validade_token (receber_efeito r x)
                = _validade_token (c_w0 cn)).
  { destruct r; cbn; assumption. }
  assert (Hp' : (length (pedidos_login (receber_efeito r x))
                 <= S (length (pedidos_login (c_w0 cn))))%nat).
  { destruct r; cbn; assumption. }
  assert (Hvw : _validade_token (receber_efeito r w)
                = _validade_token (c_w0 cn)).
  { destruct Hc' as (_ & -> & _). assumption. }
  split; [assumption|]. split; [|split].
  - destruct E as (Er & Ee).
    split; [split; destruct r; cbn; assumption|].
    split; [destruct r; cbn; lia|]. right.
    split; [assumption|]. split.
    + destruct Hc' as (_ & _ & _ & _ & ->). assumption.
    + intros ->. discriminate.
  - split.
    + intros HC. exfalso.
      apply (validade_inicial_nao_e_C n w Hn); [|assumption].
      destruct Hc as (_ & -> & _). assumption.
    + intros Hne. congruence.
  - exists (Exato (receber_efeito r x)). split; [cbn; auto | assumption].
Qed.

(** The last write of the login puts the new expiry in place. *)
Lemma seguro_escreve_validade_final (t : nat) (x : Mundo)
    (Q : res unit -> saber -> Prop) :
  length (pedidos_login x) = S (length (pedidos_login (c_w0 cn))) ->
  _token_data x = Some (c_tok cn) ->
  Q (Ok tt) LockC ->
  seguro cn t (Exato x)
    (Fio.escreve (com_validade_token (Some (c_v1 cn)))) Q.
Proof.
  intros Hp Ht Hq. unfold Fio.escreve, atomico. cbn [seguro].
  intros n w l Hn ((Er & Ee) & T & F) (Hl & Hc & Hxv & Hxp).
  destruct Hc as (C1 & C2 & C3 & C4 & C5).
  assert (HC : fase_C cn (com_validade_token (Some (c_v1 cn)) w)).
  { unfold fase_C. cbn. repeat split; congruence. }
  cbn [fst snd modify].
  split; [|split].
  - split; [split; assumption|]. split; [cbn; lia|]. left. exact HC.
  - split; [intros _; exact HC | intros Hne; congruence].
  - exists LockC. split; [split; assumption | exact Hq].
Qed.

Lemma sabe_fase_C (t : nat) (s : saber) (w : Mundo) (l : option nat) :
  s = SabeC \/ s = LockC -> sabe cn t s w l -> fase_C cn w.
Proof. intros [-> | ->]; cbn; tauto. Qed.

(** One action of a thread that knows the login is over. *)
Ltac passo_C Hs :=
  lazymatch goal with
  | |- seguro _ _ ?s (liga (Fio.le _) _) _ =>
      apply seguro_liga, seguro_le;
      let K := fresh "K" in
      let Cp := fresh "Cp" in
      let Ct := fresh "Ct" in
      let Cv := fresh "Cv" in
      intros ? ? ? ? ? K; exists s; split; [exact K|];
      destruct (sabe_fase_C _ _ _ _ Hs K) as (Cp & Ct & Cv);
      cbv beta iota; rewrite ?Ct, ?Cv; cbv beta iota
  | |- seguro _ _ ?s (Fio.le _) _ =>
      apply seguro_le;
      let K := fresh "K" in
      let Cp := fresh "Cp" in
      let Ct := fresh "Ct" in
      let Cv := fresh "Cv" in
      intros ? ? ? ? ? K; exists s; split; [exact K|];
      destruct (sabe_fase_C _ _ _ _ Hs K) as (Cp & Ct & Cv);
      cbv beta iota; rewrite ?Ct, ?Cv; cbv beta iota
  | |- seguro _ _ _ (liga (atomico datetime_now) _) _ =>
      apply seguro_liga, seguro_agora; intros ? ?; cbv beta iota
  | |- seguro _ _ _ (liga (Fio.imprime _) _) _ =>
      apply seguro_liga, seguro_imprime; cbv beta iota
  end.

Lemma valido_com_token_novo (k : nat) :
  (k < tiques (c_w0 cn) + c_passos cn)%nat ->
  (c_v1 cn - relogio (c_w0 cn) k >? margem_seguranca) = true.
Proof.
  intros Hk. rewrite Z.gtb_ltb. apply Z.ltb_lt.
  pose proof (token_dura k Hk). unfold margem_seguranca. lia.
Qed.

Lemma seguro__token_e_valido_C (t : nat) (s : saber) :
  s = SabeC \/ s = LockC ->
  seguro cn t s Fio._token_e_valido (fun r s' => r = Ok true /\ s' = s).
Proof.
  intros Hs. unfold Fio._token_e_valido.
  repeat passo_C Hs.
  cbn [seguro Fio.devolve]. rewrite valido_com_token_novo by assumption.
  auto.
Qed.

(** The way out of a validity check that said yes. *)
Lemma seguro_devolve_token (t : nat) (s : saber) (msg : option Z -> mensagem) :
  s = SabeC \/ s = LockC ->
  seguro cn t s
    (v <~ Fio.le _validade_token ;; Fio.imprime (msg v) ~;;
     Fio.le _token_data)
    (fun r s' => r = Ok (Some (c_tok cn)) /\ s' = s).
Proof.
  intros Hs. repeat passo_C Hs. auto.
Qed.

Lemma invalido_com_validade_inicial (v : Z) (k : nat) :
  _validade_token (c_w0 cn) = Some v ->
  (k < tiques (c_w0 cn) + c_passos cn)%nat ->
  (v - relogio (c_w0 cn) k >? margem_seguranca) = false /\
  (v - relogio (c_w0 cn) k <=? margem_seguranca) = true.
Proof.
  intros Hv Hk. pose proof (sem_token_valido v k Hv Hk).
  unfold margem_seguranca. split.
  - rewrite Z.gtb_ltb. apply Z.ltb_ge. lia.
  - apply Z.leb_le. lia.
Qed.

(** A validity check by a thread that knows nothing: it says yes only
    once the login is over. *)
Lemma seguro__token_e_valido_Nada (t : nat) :
  seguro cn t Nada Fio._token_e_valido
    (fun r s' => (r = Ok true /\ s' = SabeC) \/ (r = Ok false /\ s' = Nada)).
Proof.
  assert (HC : SabeC = SabeC \/ SabeC = LockC) by auto.
  unfold Fio._token_e_valido.
  apply seguro_liga, seguro_le. intros n w l Hn (E & T & F) K.
  destruct F as [C | (Fv & Fp & Fa)].
  { exists SabeC. split; [exact C|]. destruct C as (Cp & Ct & Cv).
    cbv beta iota. rewrite Cv. cbv beta iota.
    repeat passo_C HC. cbn [seguro Fio.devolve].
    rewrite valido_com_token_novo by assumption. auto. }
  exists Nada. split; [exact I|]. cbv beta iota. rewrite Fv.
  remember (_validade_token (c_w0 cn)) as ov eqn:Ev0 in |- *.
  symmetry in Ev0.
  destruct ov as [v0|]; [|cbn [seguro Fio.devolve]; auto].
  clear n w l Hn E T Fv Fp Fa K.
  apply seguro_liga, seguro_le. intros n w l Hn (E & T & F) K.
  destruct F as [C | (Fv & Fp & Fa)].
  { exists SabeC. split; [exact C|]. destruct C as (Cp & Ct & Cv).
    cbv beta iota. rewrite Ct. cbv beta iota.
    repeat passo_C HC. cbn [seguro Fio.devolve].
    rewrite valido_com_token_novo by assumption. auto. }
  exists Nada. split; [exact I|]. cbv beta iota.
  destruct (_token_data w) as [d|]; [|cbn [seguro Fio.devolve]; auto].
  clear n w l Hn E T Fv Fp Fa K.
  apply seguro_liga, seguro_agora. intros k Hk. cbv beta iota.
  apply seguro_liga, seguro_le. intros n w l Hn (E & T & F) K.
  destruct F as [C | (Fv & Fp & Fa)].
  { exists SabeC. split; [exact C|]. destruct C as (Cp & Ct & Cv).
    cbv beta iota. rewrite Cv. cbn [seguro Fio.devolve].
    rewrite valido_com_token_novo by assumption. auto. }
  exists Nada. split; [exact I|]. cbv beta iota. rewrite Fv, Ev0.
  cbn [seguro Fio.devolve].
  destruct (invalido_com_validade_inicial v0 k Ev0 Hk) as (-> & _). auto.
Qed.

(** The checks of the holder of the lock while the manager is as it
    started. *)
Lemma seguro__token_e_valido_A (t : nat) :
  seguro cn t (Exato (c_w0 cn)) Fio._token_e_valido
    (fun r s' => r = Ok false /\ s' = Exato (c_w0 cn)).
Proof.
  unfold Fio._token_e_valido.
  apply seguro_liga, seguro_le_exato; [reflexivity | lia |].
  intros w E (C1 & C2 & C3 & C4 & C5). cbv beta iota. rewrite C2.
  remember (_validade_token (c_w0 cn)) as ov eqn:Ev0 in |- *.
  symmetry in Ev0.
  destruct ov as [v0|]; [|cbn [seguro Fio.devolve]; auto].
  clear w E C1 C2 C3 C4 C5.
  apply seguro_liga, seguro_le_exato; [reflexivity | lia |].
  intros w E (C1 & C2 & C3 & C4 & C5). cbv beta iota.
  destruct (_token_data w) as [d|]; [|cbn [seguro Fio.devolve]; auto].
  clear w E C1 C2 C3 C4 C5.
  apply seguro_liga, seguro_agora. intros k Hk. cbv beta iota.
  apply seguro_liga, seguro_le_exato; [reflexivity | lia |].
  intros w E (C1 & C2 & C3 & C4 & C5). cbv beta iota. rewrite C2, Ev0.
  cbn [seguro Fio.devolve].
  destruct (invalido_com_validade_inicial v0 k Ev0 Hk) as (-> & _). auto.
Qed.

Lemma seguro__token_precisa_renovar_A (t : nat) :
  seguro cn t (Exato (c_w0 cn)) Fio._token_precisa_renovar
    (fun r s' => r = Ok true /\ s' = Exato (c_w0 cn)).
Proof.
  unfold Fio._token_precisa_renovar.
  apply seguro_liga, seguro_le_exato; [reflexivity | lia |].
  intros w E (C1 & C2 & C3 & C4 & C5). cbv beta iota. rewrite C2.
  remember (_validade_token (c_w0 cn)) as ov eqn:Ev0 in |- *.
  symmetry in Ev0.
  destruct ov as [v0|]; [|cbn [seguro Fio.devolve]; auto].
  clear w E C1 C2 C3 C4 C5.
  apply seguro_liga, seguro_le_exato; [reflexivity | lia |].
  intros w E (C1 & C2 & C3 & C4 & C5). cbv beta iota.
  destruct (_token_data w) as [d|]; [|cbn [seguro Fio.devolve]; auto].
  clear w E C1 C2 C3 C4 C5.
  apply seguro_liga, seguro_agora. intros k Hk. cbv beta iota.
  apply seguro_liga, seguro_le_exato; [reflexivity | lia |].
  intros w E (C1 & C2 & C3 & C4 & C5). cbv beta iota. rewrite C2, Ev0.
  cbn [seguro Fio.devolve].
  destruct (invalido_com_validade_inicial v0 k Ev0 Hk) as (_ & ->). auto.
Qed.

(** The check made just after the lock is taken. *)
Lemma seguro__token_e_valido_LockAC (t : nat) :
  seguro cn t LockAC Fio._token_e_valido
    (fun r s' => (r = Ok true /\ s' = LockC) \/
                 (r = Ok false /\ s' = Exato (c_w0 cn))).
Proof.
  apply (seguro_casos t LockAC LockC (Exato (c_w0 cn))).
  - reflexivity.
  - intros n w l Hn I (Hl & [C | A]); [left | right]; cbn;
      [auto | split; [assumption|]; split; [exact A|];
              split; [reflexivity | lia]].
  - eapply seguro_consequencia; [|apply seguro__token_e_valido_C; auto].
    cbv beta. intros r s' (-> & ->). auto.
  - eapply seguro_consequencia; [|apply seguro__token_e_valido_A].
    cbv beta. intros r s' (-> & ->). auto.
Qed.

(** Without a cookie file there is nothing to reload. *)
Lemma seguro_carregar_token_salvo_A (t : nat) :
  seguro cn t (Exato (c_w0 cn)) Fio.carregar_token_salvo
    (fun r s' => r = Ok false /\ s' = Exato (c_w0 cn)).
Proof.
  unfold Fio.carregar_token_salvo.
  apply seguro_tentar, seguro_liga, seguro_le_exato; [reflexivity | lia |].
  intros w E (C1 & C2 & C3 & C4 & C5). cbv beta iota.
  rewrite C4, sem_arquivo. cbn [negb seguro Fio.devolve]. auto.
Qed.

(** Side conditions on the world the holder of the lock keeps track of. *)
Ltac lado :=
  first
    [ solve [reflexivity]
    | solve [cbn; rewrite ?length_app; cbn; lia]
    | solve [intros ?; cbn; auto]
    | solve [let C1 := fresh in let C2 := fresh in let C3 := fresh in
             let C4 := fresh in let C5 := fresh in
             intros ? (C1 & C2 & C3 & C4 & C5); unfold campos_iguais;
             cbn in C1, C2, C3, C4, C5 |- *; repeat split; congruence] ].

(** The login of the holder of the lock. *)
Lemma seguro__fazer_login_A (t : nat) :
  seguro cn t (Exato (c_w0 cn)) Fio._fazer_login
    (fun r s' => r = Ok true /\ s' = LockC).
Proof.
  assert (HC : LockC = SabeC \/ LockC = LockC) by auto.
  unfold Fio._fazer_login.
  apply seguro_tentar.
  apply seguro_liga, seguro_agora. intros k Hk. cbv beta iota.
  do 3 (apply seguro_liga, seguro_le_exato; [reflexivity | lia |];
        intros ? _ _; cbv beta iota).
  apply seguro_liga. unfold Fio.session_post_login.
  match goal with
  | |- context [com_pedidos_login (_ ++ [?q])] => set (p := q)
  end.
  apply (seguro_atomico_exato t (c_w0 cn)
           (com_pedidos_login (pedidos_login (c_w0 cn) ++ [p]) (c_w0 cn)));
    [lado | lado | lado | lado |].
  intros w3 (Er & Ee) (C1 & C2 & C3 & C4 & C5) _.
  rewrite Ee, C5, login_responde.
  apply seguro_receber_exato; [lado | lado |].
  cbn [receber_valor receber_efeito seguro]. rewrite login_200.
  rewrite Z.eqb_refl.
  clear w3 Er Ee C1 C2 C3 C4 C5.
  apply seguro_liga, seguro_le_exato; [lado | lado |].
  intros w4 E4 (C1 & C2 & C3 & C4 & C5). cbv beta iota. rewrite C3.
  cbn [session_cookies com_session_cookies com_pedidos_login].
  clear w4 E4 C1 C2 C3 C4 C5.
  apply seguro_liga, seguro_escreve_exato; [lado | lado | lado | lado |].
  cbv beta iota. rewrite login_cookie.
  apply seguro_liga, (seguro_local t _ _ (Ok (JObj m))).
  { intros ?. unfold loads. rewrite login_json. reflexivity. }
  cbv beta iota.
  apply seguro_liga, seguro_escreve_exato; [lado | lado | lado | lado |].
  cbv beta iota.
  apply seguro_liga, seguro_le_exato; [lado | lado |].
  intros w5 E5 (C1 & C2 & C3 & C4 & C5). cbv beta iota. rewrite C1.
  cbn [_token_data com_token_data valor_python].
  clear w5 E5 C1 C2 C3 C4 C5.
  apply seguro_liga, (seguro_local t _ _ (Ok (JStr e))).
  { intros ?. unfold subscrito. rewrite login_expires. reflexivity. }
  cbv beta iota.
  apply seguro_liga, (seguro_local t _ _ (Ok (c_v1 cn))).
  { intros ?. unfold strptime_de. rewrite login_strptime. reflexivity. }
  cbv beta iota.
  apply seguro_liga, seguro_escreve_validade_final.
  { cbn. rewrite length_app. cbn. lia. }
  { cbn. rewrite login_tok. reflexivity. }
  cbv beta iota.
  repeat passo_C HC.
  cbn [seguro Fio.devolve]. auto.
Qed.

(** Every caller ends with the token of the one login. *)
Lemma seguro_pegar_token_atualizado (t : nat) :
  seguro cn t Nada Fio.pegar_token_atualizado (fim_esperado cn).
Proof.
  assert (HC : LockC = SabeC \/ LockC = LockC) by auto.
  assert (Resto : forall k : prog unit,
    seguro cn t (Exato (c_w0 cn)) k
      (fun r s' => r = Ok tt /\ s' = Exato (c_w0 cn)) ->
    seguro cn t (Exato (c_w0 cn))
      (k ~;;
       valido <~ Fio._token_e_valido ;;
       if valido then
         v <~ Fio.le _validade_token ;;
         Fio.imprime (MsgTokenCarregadoValido v) ~;;
         Fio.le _token_data
       else
         precisa <~ Fio._token_precisa_renovar ;;
         if precisa then
           Fio.imprime MsgRenovando ~;;
           ok <~ Fio._fazer_login ;;
           if negb ok then Fio.devolve None else Fio.le _token_data
         else
           Fio.le _token_data)
      (fun r s' => seguro cn t s' (Liberar (Fim r)) (fim_esperado cn))).
  { intros k Hk. apply seguro_liga.
    eapply seguro_consequencia; [|exact Hk].
    cbv beta. intros r s' (-> & ->).
    apply seguro_liga.
    eapply seguro_consequencia; [|apply seguro__token_e_valido_A].
    cbv beta. intros r s' (-> & ->).
    apply seguro_liga.
    eapply seguro_consequencia; [|apply seguro__token_precisa_renovar_A].
    cbv beta. intros r s' (-> & ->).
    apply seguro_liga, seguro_imprime. cbv beta iota.
    apply seguro_liga.
    eapply seguro_consequencia; [|apply seguro__fazer_login_A].
    cbv beta. intros r s' (-> & ->). cbn [negb].
    passo_C HC. apply seguro_liberar. split; reflexivity. }
  unfold Fio.pegar_token_atualizado.
  apply seguro_liga.
  eapply seguro_consequencia; [|apply seguro__token_e_valido_Nada].
  cbv beta. intros r s' [(-> & ->) | (-> & ->)].
  - eapply seguro_consequencia; [|apply seguro_devolve_token; auto].
    cbv beta. intros r s' (-> & ->). split; reflexivity.
  - unfold com_lock. apply seguro_adquirir, seguro_ao_sair_libera.
    apply seguro_liga.
    eapply seguro_consequencia; [|apply seguro__token_e_valido_LockAC].
    cbv beta. intros r s' [(-> & ->) | (-> & ->)].
    + eapply seguro_consequencia; [|apply seguro_devolve_token; auto].
      cbv beta. intros r s' (-> & ->). apply seguro_liberar.
      split; reflexivity.
    + apply seguro_liga, seguro_le_exato; [reflexivity | lia |].
      intros w E Hc. cbv beta iota.
      destruct (_token_data w) as [d|].
      * apply Resto. cbn [seguro Fio.devolve]. auto.
      * apply Resto. apply seguro_liga.
        eapply seguro_consequencia; [|apply seguro_carregar_token_salvo_A].
        cbv beta. intros r s' (-> & ->). cbn [seguro Fio.devolve]. auto.
Qed.

(** C4, as the code has it. Any number of callers enter
    [pegar_token_atualizado] at once on a manager with no cookie file and
    no expiry beyond the margin, and the ERP answers the first login with
    a token that stays valid while they run. Then, however their actions
    interleave: at most one login is ever issued; at most one caller at a
    time has a login in flight; and every caller that has returned has
    returned the token of that one login. *)
Theorem concurrent_callers_share_one_login (n_fios : nat)
    (ordem : list nat) :
  (length ordem < c_passos cn)%nat ->
  let c := executar ordem (config_inicial n_fios (c_w0 cn)) in
  (length (pedidos_login (mundo c))
     <= S (length (pedidos_login (c_w0 cn))))%nat /\
  (forall t1 t2 p1 p2,
     fios c !! t1 = Some p1 -> fios c !! t2 = Some p2 ->
     em_voo p1 = true -> em_voo p2 = true -> t1 = t2) /\
  (forall t r,
     fios c !! t = Some (Fim r) ->
     r = Ok (Some (c_tok cn)) /\
     length (pedidos_login (mundo c))
       = S (length (pedidos_login (c_w0 cn)))).
Proof.
  intros Hlen c.
  assert (I0 : inv_config cn 0 (config_inicial n_fios (c_w0 cn))).
  { split.
    - cbn. split; [split; reflexivity|]. split; [lia|]. right.
      split; [reflexivity|]. split; [lia|]. intros _.
      apply campos_iguais_refl.
    - intros t p Hp. cbn in Hp. apply lookup_replicate_1 in Hp as (-> & _).
      exists Nada. split; [exact Logic.I | apply seguro_pegar_token_atualizado]. }
  pose proof (inv_config_executar cn ordem 0 _ ltac:(cbn; lia) I0)
    as (I & F).
  fold c in I, F. cbn [Nat.add] in I.
  split; [|split].
  - destruct I as (_ & _ & [(-> & _) | (_ & Hp & _)]); lia.
  - assert (Dono : forall t p, fios c !! t = Some p -> em_voo p = true ->
                     trinco c = Some t).
    { intros t p Hp Hv. destruct (F t p Hp) as (s & Hs & Hq).
      destruct p as [| | | |r k]; try discriminate.
      cbn [seguro] in Hq.
      destruct (Hq _ _ _ Hlen I Hs) as (Hl & _). exact Hl. }
    intros t1 t2 p1 p2 H1 H2 V1 V2.
    pose proof (Dono t1 p1 H1 V1). pose proof (Dono t2 p2 H2 V2).
    congruence.
  - intros t r Hp. destruct (F t _ Hp) as (s & Hs & Hq).
    cbn [seguro] in Hq. destruct Hq as (-> & ->). cbn in Hs.
    split; [reflexivity|]. destruct Hs as (Hs & _). exact Hs.
Qed.

End Cenario.

(** * Worked examples *)

(** C1. With no token in memory and no cookie file, when the login answers
    with a token that expires five minutes after the call started,
    [pegar_token_atualizado] returns that token: one login is issued, the
    token has less than the ten-minute margin left, and a validity check
    made right after the return says no. *)
Theorem pegar_token_atualizado_returns_token_inside_margin :
  let r := fst (@pegar_token_atualizado biblioteca_exemplo mundo_token_curto) in
  let w' := snd (@pegar_token_atualizado biblioteca_exemplo mundo_token_curto) in
  r = Ok (Some (token_exemplo "2025-01-01T12:05:00Z")) /\
  length (pedidos_login w') = 1%nat /\
  _validade_token w' = Some (instante "2025-01-01T12:05:00Z") /\
  instante "2025-01-01T12:05:00Z" - relogio mundo_token_curto 0 = minutos 5 /\
  instante "2025-01-01T12:05:00Z" - agora w' <= minutos 10 /\
  fst (@_token_e_valido w') = Ok false.
Proof. vm_compute. repeat split; discriminate. Qed.


(** A login whose token decodes but carries no [.expires] fails after
    [_token_data] has been assigned: the token is kept, the expiry is not
    set. *)
Example failed_login_keeps_decoded_token :
  let w' := snd (@_fazer_login biblioteca_exemplo mundo_token_sem_validade) in
  fst (@_fazer_login biblioteca_exemplo mundo_token_sem_validade) = Ok false /\
  _token_data mundo_token_sem_validade = None /\
  _token_data w' = Some (JObj {["access_token" := JStr "abc"]}) /\
  _validade_token w' = None /\
  saida w' = [MsgErroLogin KeyError].
Proof. vm_compute. repeat split; reflexivity. Qed.

(** A login answered with status 200 and no [oAuthToken] cookie is not
    always a failure: the manager starts beside a cookie file whose token
    has expired, replays its cookies into the session, logs in, finds the
    old [oAuthToken] in the session, and returns the old token with its
    expiry as written. *)
Example login_without_token_cookie_adopts_stale_cookie :
  let w := mundo_snapshot_vencido_sem_token in
  let w' := snd (@pegar_token_atualizado biblioteca_exemplo w) in
  fst (@pegar_token_atualizado biblioteca_exemplo w)
    = Ok (Some (JObj (<["access_token" := JStr "old"]>
                        (<[".expires" := JStr "2025-01-01T14:00:00Z"]> ∅)))) /\
  length (pedidos_login w') = 1%nat /\
  _validade_token w' = Some (instante "2025-01-01T14:00:00Z") /\
  saida w' = [MsgTokenSalvoVencido; MsgRenovando;
              MsgLoginSucesso (Some (instante "2025-01-01T14:00:00Z"))].
Proof. vm_compute. repeat split; reflexivity. Qed.

(** C5 does not hold as stated: after a successful login whose expiry is
    [datetime.min], reloading the cookie file stops at the subtraction of
    three hours; the expiry stays uncorrected and no cookie is replayed. *)
Lemma snapshot_reload_overflows_at_datetime_min :
  let w1 := snd (@_fazer_login biblioteca_exemplo mundo_validade_minima) in
  let w2 := snd (@carregar_token_salvo biblioteca_exemplo
                   (novo_gerenciador w1)) in
  fst (@_fazer_login biblioteca_exemplo mundo_validade_minima) = Ok true /\
  _validade_token w1 = Some 0 /\
  arquivo_cookies w1 = Gravado (session_cookies w1) /\
  _validade_token w2 <> Some (0 - horas 3) /\
  session_cookies w2 <> session_cookies w1 /\
  saida w2 = [MsgLoginSucesso (Some 0); MsgErroCarregar OverflowError].
Proof.
  vm_compute. repeat split; try discriminate.
Qed.

(** C9. With a configured password that is not ASCII text, a request with
    a wrong password is not refused with status 401 and
    [WWW-Authenticate: Basic]: [secrets.compare_digest] raises [TypeError]
    and nothing catches it. *)
Lemma verificar_autenticacao_raises_on_non_ascii_password :
  password {| username := "admin"; password := "errada" |} <> "sénha" /\
  verificar_autenticacao "admin" "sénha"
    {| username := "admin"; password := "errada" |} = NaoTratada TypeError.
Proof. split; [discriminate | reflexivity]. Qed.

(** C5 at a login whose token is good until 20:00. *)
Lemma snapshot_round_trip_witness :
  let w1 := snd (@_fazer_login biblioteca_exemplo (mundo_token_longo 200)) in
  let w2 := snd (@carregar_token_salvo biblioteca_exemplo
                   (novo_gerenciador w1)) in
  _token_data w2 = _token_data w1 /\
  _validade_token w2 = Some (instante "2025-01-01T20:00:00Z" - horas 3) /\
  arquivo_cookies w1 = Gravado (session_cookies w1) /\
  session_cookies w2 = session_cookies w1.
Proof.
  apply (@snapshot_round_trip biblioteca_exemplo (mundo_token_longo 200)).
  - reflexivity.
  - reflexivity.
  - vm_compute. split; discriminate.
Defined.

(** C6 at three calls in a row on a token good until 20:00. *)
Lemma fast_path_is_idempotent_witness :
  let w' := snd (repetir 3 (@pegar_token_atualizado biblioteca_exemplo)
                   mundo_token_em_memoria) in
  fst (repetir 3 (@pegar_token_atualizado biblioteca_exemplo)
         mundo_token_em_memoria)
    = Ok (repeat (Some (token_exemplo "2025-01-01T20:00:00Z")) 3) /\
  pedidos_login w' = pedidos_login mundo_token_em_memoria /\
  _token_data w' = Some (token_exemplo "2025-01-01T20:00:00Z") /\
  _validade_token w' = Some (instante "2025-01-01T20:00:00Z") /\
  session_cookies w' = session_cookies mundo_token_em_memoria /\
  arquivo_cookies w' = arquivo_cookies mundo_token_em_memoria /\
  tiques w' = (tiques mundo_token_em_memoria + 3)%nat.
Proof.
  apply (@fast_path_is_idempotent biblioteca_exemplo 3 mundo_token_em_memoria).
  - reflexivity.
  - reflexivity.
  - intros k Hk.
    destruct k as [|[|[|k]]]; [vm_compute; reflexivity .. | lia].
Defined.

(** C7 at a query answered with status 500. *)
Lemma consulta_sql_sends_once_and_maps_status_witness :
  let B := biblioteca_exemplo in
  let w := mundo_token_longo 500 in
  let resp := {| status_code := 500;
                 text := "{" +:+ aspas +:+ "rows" +:+ aspas +:+ ":" +:+ aspas
                         +:+ "none" +:+ aspas +:+ "}";
                 cookies_recebidos := [] |} in
  let w2 := snd (@pegar_token_atualizado B
                   (snd (@obter_session_autenticada B w))) in
  pedidos_sql (snd (@consulta_sql B "SELECT * FROM dual" w)) =
    pedidos_sql w ++
    [{| sql_url := api_sql_url w;
        sql_data := body2_antes +:+ "SELECT * FROM dual" +:+ body2_depois;
        sql_headers :=
          [("Content-Type", "application/json");
           ("Accept", "application/json");
           ("Authorization", "Bearer " +:+ @py_str B (JStr "abc"))] |}] /\
  (status_code resp = 200 ->
   forall j, @json_loads B (text resp) = Some j ->
     fst (@consulta_sql B "SELECT * FROM dual" w) = Ok (valor_python j)) /\
  (status_code resp <> 200 ->
   fst (@consulta_sql B "SELECT * FROM dual" w) = Ok None /\
   saida (snd (@consulta_sql B "SELECT * FROM dual" w)) =
     saida w2 ++ [MsgErroConsultaSQL (status_code resp)] /\
   fst (@executar_sql B "SELECT * FROM dual" w) =
     Devolve {| success := false; data := None;
                error := Some "Falha ao executar a consulta SQL" |}).
Proof.
  cbv zeta.
  apply (@consulta_sql_sends_once_and_maps_status biblioteca_exemplo
           "SELECT * FROM dual" (mundo_token_longo 500)
           (<["access_token" := JStr "abc"]>
              (<[".expires" := JStr "2025-01-01T20:00:00Z"]> ∅))).
  - vm_compute. reflexivity.
  - vm_compute. reflexivity.
  - reflexivity.
Defined.

(** The dependency at a wrong password for the user [admin], all in
    ASCII. *)
Lemma verificar_autenticacao_on_ascii_credentials_witness :
  let c := {| username := "admin"; password := "errada" |} in
  (username c <> "admin" \/ password c <> "segredo" ->
   verificar_autenticacao "admin" "segredo" c =
     HTTPException 401 (Detalhe "Credenciais inválidas")
       [("WWW-Authenticate", "Basic")]) /\
  (username c = "admin" /\ password c = "segredo" ->
   verificar_autenticacao "admin" "segredo" c = Devolve (username c)).
Proof.
  apply (verificar_autenticacao_on_ascii_credentials "admin" "segredo");
    reflexivity.
Defined.

(** C4 does not hold as stated: two callers enter together on a manager
    without a token, every login is refused, and each caller issues a
    login of its own; both return [None]. *)
Lemma two_callers_two_logins_when_login_fails :
  let c := executar (alternado 2 60)
             (@config_inicial biblioteca_exemplo 2 mundo_login_recusado) in
  map devolvido (fios c) = [Some (Ok None); Some (Ok None)] /\
  length (pedidos_login (mundo c)) = 2%nat /\
  trinco c = None.
Proof. vm_compute. repeat split; reflexivity. Qed.

(** C4 at three callers taking turns. *)
Lemma concurrent_callers_share_one_login_witness :
  let c := executar (alternado 3 45)
             (@config_inicial biblioteca_exemplo 3 (c_w0 cenario_exemplo)) in
  (length (pedidos_login (mundo c))
     <= S (length (pedidos_login (c_w0 cenario_exemplo))))%nat /\
  (forall t1 t2 p1 p2,
     fios c !! t1 = Some p1 -> fios c !! t2 = Some p2 ->
     em_voo p1 = true -> em_voo p2 = true -> t1 = t2) /\
  (forall t r,
     fios c !! t = Some (Fim r) ->
     r = Ok (Some (c_tok cenario_exemplo)) /\
     length (pedidos_login (mundo c))
       = S (length (pedidos_login (c_w0 cenario_exemplo)))).
Proof.
  apply (@concurrent_callers_share_one_login biblioteca_exemplo
           cenario_exemplo
           {| status_code := 200; text := EmptyString;
              cookies_recebidos :=
                [("oAuthToken", blob_token "abc" "2025-01-01T20:00:00Z");
                 ("ASP.NET_SessionId", "xyz")] |}
           (blob_token "abc" "2025-01-01T20:00:00Z")
           "2025-01-01T20:00:00Z"
           (<["access_token" := JStr "abc"]>
              (<[".expires" := JStr "2025-01-01T20:00:00Z"]> ∅))).
  - reflexivity.
  - intros v k Hv. discriminate Hv.
  - reflexivity.
  - reflexivity.
  - vm_compute. reflexivity.
  - vm_compute. reflexivity.
  - reflexivity.
  - vm_compute. reflexivity.
  - vm_compute. reflexivity.
  - intros k Hk.
    change (c_v1 cenario_exemplo) with 63871358400000000.
    change (relogio (c_w0 cenario_exemplo) k)
      with (63871329600000000 + Z.of_nat k * 1000000).
    change (minutos 10) with 600000000.
    change (tiques (c_w0 cenario_exemplo) + c_passos cenario_exemplo)%nat
      with 200%nat in Hk.
    lia.
  - vm_compute. lia.
Defined.

(** The run of the witness is complete: the three callers have returned
    the same token and one login has been issued. *)
Example three_callers_one_login :
  let c := executar (alternado 3 45)
             (@config_inicial biblioteca_exemplo 3 (c_w0 cenario_exemplo)) in
  map devolvido (fios c) =
    repeat (Some (Ok (Some (c_tok cenario_exemplo)))) 3 /\
  length (pedidos_login (mundo c)) = 1%nat.
Proof. vm_compute. split; reflexivity. Qed.

(** With a cookie file the callers may part ways even though the login
    succeeds: while the holder of the lock is between the two assignments
    of [_validade_token] in [carregar_token_salvo], the expiry as written
    (14:00) makes the fast path of another caller return the token of the
    file; the holder then corrects the expiry to 11:00, finds it past,
    logs in and returns the new token. *)
Example snapshot_reload_lets_fast_path_return_stale_token :
  let c := executar ordem_leitura_a_meio
             (@config_inicial biblioteca_exemplo 2 mundo_snapshot_vencido) in
  map access_token_devolvido (fios c) = [Some (JStr "abc"); Some (JStr "old")]
  /\ length (pedidos_login (mundo c)) = 1%nat.
Proof. vm_compute. split; reflexivity. Qed.

(** Run alone, the thread is the sequential method the other properties
    are about. *)
Example thread_alone_is_the_sequential_method :
  forall (B : Biblioteca) (w : Mundo),
    sozinho (@Fio.pegar_token_atualizado B) w = @pegar_token_atualizado B w.
Proof. intros B w. apply sozinho_pegar_token_atualizado. Qed.

(** ** The lock, for every manager and every schedule *)

Section FiosGerais.
Context `{Biblioteca}.

Lemma leitor_liga {A B} (p : prog A) (k : A -> prog B) :
  leitor p -> (forall a, leitor (k a)) -> leitor (liga p k).
Proof.
  intros Hp Hk. induction p as [[a|e]|e s IH|s IH|s IH|r s IH]; cbn in *;
    auto; try contradiction.
  destruct Hp as (He & Hs). split; auto.
Qed.

Lemma leitor_atomico {A} (m : M A) :
  (forall w, campos_iguais w (snd (m w))) -> leitor (atomico m).
Proof. intros Hm. cbn. split; auto. Qed.

Lemma leitor_le {A} (f : Mundo -> A) : leitor (Fio.le f).
Proof. apply leitor_atomico. intros w. apply campos_iguais_refl. Qed.

Lemma leitor_imprime (m : mensagem) : leitor (Fio.imprime m).
Proof.
  apply leitor_atomico. intros w. cbn. unfold campos_iguais. cbn. auto.
Qed.

Lemma leitor_agora : leitor (atomico datetime_now).
Proof.
  apply leitor_atomico. intros w. cbn. unfold campos_iguais. cbn. auto.
Qed.

Lemma leitor__token_e_valido : leitor Fio._token_e_valido.
Proof.
  unfold Fio._token_e_valido.
  apply leitor_liga; [apply leitor_le|]. intros [v|]; [|exact I].
  apply leitor_liga; [apply leitor_le|]. intros [t|]; [|exact I].
  apply leitor_liga; [apply leitor_agora|]. intros a.
  apply leitor_liga; [apply leitor_le|]. intros [v'|]; exact I.
Qed.

Lemma fora_leitor {A} (p : prog A) : leitor p -> fora p.
Proof.
  induction p as [r|e s IH|s IH|s IH|r s IH]; cbn; try tauto.
  intros (He & Hs). split; auto.
Qed.

Lemma fora_liga {A B} (p : prog A) (k : A -> prog B) :
  leitor p -> (forall a, fora (k a)) -> fora (liga p k).
Proof.
  intros Hp Hk. induction p as [[a|e]|e s IH|s IH|s IH|r s IH]; cbn in *;
    auto; try contradiction.
  destruct Hp as (He & Hs). split; auto.
Qed.

Lemma neutro_liga {A B} (p : prog A) (k : A -> prog B) :
  neutro p -> (forall a, neutro (k a)) -> neutro (liga p k).
Proof.
  intros Hp Hk. induction p as [[a|e]|e s IH|s IH|s IH|r s IH]; cbn in *;
    auto; try contradiction.
Qed.

Lemma neutro_tentar {A} (p : prog A) (h : excecao -> prog A) :
  neutro p -> (forall e, neutro (h e)) -> neutro (tentar p h).
Proof.
  intros Hp Hh. induction p as [[a|e]|e s IH|s IH|s IH|r s IH]; cbn in *;
    auto; try contradiction.
Qed.

Lemma neutro_atomico {A} (m : M A) : neutro (atomico m).
Proof. cbn. auto. Qed.

Lemma neutro_leitor {A} (p : prog A) : leitor p -> neutro p.
Proof.
  induction p as [r|e s IH|s IH|s IH|r s IH]; cbn; try tauto.
  intros (He & Hs). auto.
Qed.

Lemma dentro_ao_sair_libera {A} (p : prog A) :
  neutro p -> dentro (ao_sair_libera p).
Proof.
  induction p as [r|e s IH|s IH|s IH|r s IH]; cbn; try tauto; auto.
Qed.

Lemma neutro_session_post_login (p : pedido_login) :
  neutro (Fio.session_post_login p).
Proof. cbn. intros w x. exact I. Qed.

Ltac neutro_passo :=
  lazymatch goal with
  | |- neutro (liga _ _) => apply neutro_liga; [|intros ?]
  | |- neutro (tentar _ _) => apply neutro_tentar; [|intros ?]
  | |- neutro (atomico _) => apply neutro_atomico
  | |- neutro (Fio.le _) => apply neutro_atomico
  | |- neutro (Fio.escreve _) => apply neutro_atomico
  | |- neutro (Fio.imprime _) => apply neutro_atomico
  | |- neutro (Fio.session_post_login _) => apply neutro_session_post_login
  | |- neutro (Fio.devolve _) => exact I
  | |- neutro (Fio.levanta _) => exact I
  | |- neutro (Fim _) => exact I
  | |- neutro Fio._token_e_valido =>
      apply neutro_leitor, leitor__token_e_valido
  | |- neutro (if ?b then _ else _) => destruct b
  | |- neutro (match ?x with Some _ => _ | None => _ end) => destruct x
  | |- neutro (match ?x with Ausente => _ | Ilegivel => _ | Gravado _ => _ end) =>
      destruct x
  end.

Lemma neutro__token_precisa_renovar : neutro Fio._token_precisa_renovar.
Proof. unfold Fio._token_precisa_renovar. repeat neutro_passo. Qed.

Lemma neutro__fazer_login : neutro Fio._fazer_login.
Proof.
  unfold Fio._fazer_login.
  repeat neutro_passo.
Qed.

Lemma neutro_carregar_token_salvo : neutro Fio.carregar_token_salvo.
Proof.
  unfold Fio.carregar_token_salvo.
  repeat first
    [ lazymatch goal with
      | |- neutro Fio._token_precisa_renovar =>
          apply neutro__token_precisa_renovar
      end
    | neutro_passo ].
Qed.

Lemma fora_pegar_token_atualizado : fora Fio.pegar_token_atualizado.
Proof.
  unfold Fio.pegar_token_atualizado.
  apply fora_liga; [apply leitor__token_e_valido|]. intros [|].
  - apply fora_leitor.
    apply leitor_liga; [apply leitor_le|]. intros v.
    apply leitor_liga; [apply leitor_imprime|]. intros _.
    apply leitor_le.
  - unfold com_lock. cbn [fora]. apply dentro_ao_sair_libera.
    repeat first
      [ lazymatch goal with
        | |- neutro Fio._token_precisa_renovar =>
            apply neutro__token_precisa_renovar
        | |- neutro Fio._fazer_login => apply neutro__fazer_login
        | |- neutro Fio.carregar_token_salvo =>
            apply neutro_carregar_token_salvo
        end
      | neutro_passo ].
Qed.

(** *** The invariant of the runs *)

Lemma dentro_nao_acabou {A} (p : prog A) :
  dentro p ->
  match p with
  | Fim _ | Adquirir _ => False
  | _ => True
  end.
Proof. destruct p; cbn; auto. Qed.

Lemma fios_insert_outros {A} (P : prog A -> Prop) (l : list (prog A))
    (t : nat) (x : prog A) :
  (forall t' p, t' <> t -> l !! t' = Some p -> P p) ->
  forall t' p, t' <> t -> <[t:=x]> l !! t' = Some p -> P p.
Proof.
  intros Hl t' p Ne Ep.
  rewrite list_lookup_insert_ne in Ep by congruence. eauto.
Qed.

Lemma fios_insert_todos {A} (P : prog A -> Prop) (l : list (prog A))
    (t : nat) (x : prog A) :
  (t < length l)%nat -> P x ->
  (forall t' p, t' <> t -> l !! t' = Some p -> P p) ->
  forall t' p, <[t:=x]> l !! t' = Some p -> P p.
Proof.
  intros Hlt Hx Hl t' p Ep.
  destruct (decide (t' = t)) as [->|Ne].
  - rewrite list_lookup_insert_eq in Ep by assumption.
    injection Ep as <-. assumption.
  - rewrite list_lookup_insert_ne in Ep by congruence. eauto.
Qed.

Lemma bem_formado_passo (t : nat) (c : Config) :
  bem_formado c -> bem_formado (passo t c).
Proof.
  unfold bem_formado, passo. intros Hc.
  destruct (fios c !! t) as [p|] eqn:Ep; [|exact Hc].
  assert (Hlt : (t < length (fios c))%nat) by (eapply lookup_lt_Some; eauto).
  destruct (trinco c) as [h|] eqn:El.
  - destruct Hc as ((ph & Eh & Dh) & Ho).
    destruct (decide (t = h)) as [->|Ne].
    + assert (ph = p) by congruence. subst ph.
      destruct p as [r|e s|s|s|r s]; cbn [mundo trinco fios];
        rewrite ?El; cbn in Dh; try contradiction.
      * split; [|apply fios_insert_outros; assumption].
        exists (s (mundo c)). split; [|apply Dh].
        apply list_lookup_insert_eq. assumption.
      * apply fios_insert_todos; auto.
      * split; [|apply fios_insert_outros; assumption].
        exists (s (receber_valor r)). split; [|apply Dh].
        apply list_lookup_insert_eq. assumption.
    + pose proof (Ho _ _ Ne Ep) as Fp.
      destruct p as [r|e s|s|s|r s]; cbn [mundo trinco fios];
        rewrite ?El; cbn in Fp; try contradiction.
      * split; [eauto|assumption].
      * destruct Fp as (_ & Fs). split.
        -- exists ph. split; [|assumption].
           rewrite list_lookup_insert_ne by congruence. assumption.
        -- intros t' p' Ne' Ep'.
           destruct (decide (t' = t)) as [->|Nt].
           ++ rewrite list_lookup_insert_eq in Ep' by assumption.
              injection Ep' as <-. apply Fs.
           ++ rewrite list_lookup_insert_ne in Ep' by congruence. eauto.
      * split; [eauto|assumption].
  - pose proof (Hc _ _ Ep) as Fp.
    destruct p as [r|e s|s|s|r s]; cbn [mundo trinco fios];
      rewrite ?El; cbn in Fp; try contradiction.
    + assumption.
    + destruct Fp as (_ & Fs).
      apply fios_insert_todos; auto. intros; eauto.
    + split; [|apply fios_insert_outros; intros; eauto].
      exists s. split; [|assumption].
      apply list_lookup_insert_eq. assumption.
Qed.

Lemma bem_formado_executar (ordem : list nat) (c : Config) :
  bem_formado c -> bem_formado (executar ordem c).
Proof.
  revert c. induction ordem as [|t ordem IH]; intros c Hc; [exact Hc|].
  cbn. apply IH, bem_formado_passo, Hc.
Qed.

Lemma bem_formado_config_inicial (n : nat) (w : Mundo) :
  bem_formado (config_inicial n w).
Proof.
  unfold bem_formado, config_inicial. cbn. intros t p Ep.
  apply lookup_replicate_1 in Ep as (-> & _).
  apply fora_pegar_token_atualizado.
Qed.

Lemma bem_formado_alcancavel (n : nat) (w : Mundo) (ordem : list nat) :
  bem_formado (executar ordem (config_inicial n w)).
Proof. apply bem_formado_executar, bem_formado_config_inicial. Qed.


(** *** What the invariant gives *)

Lemma passo_parado (t : nat) (c : Config) :
  pode_avancar t c = false -> passo t c = c.
Proof.
  unfold pode_avancar, passo.
  destruct (fios c !! t) as [[r|e s|s|s|r s]|]; try discriminate; auto.
  destruct (trinco c); [reflexivity | discriminate].
Qed.

Lemma executar_app (o1 o2 : list nat) (c : Config) :
  executar (o1 ++ o2) c = executar o2 (executar o1 c).
Proof. unfold executar. apply fold_left_app. Qed.

Lemma passo_length (t : nat) (c : Config) :
  length (fios (passo t c)) = length (fios c).
Proof.
  unfold passo.
  destruct (fios c !! t) as [[r|e s|s|s|r s]|]; cbn [fios];
    rewrite ?length_insert; auto.
  destruct (trinco c); cbn [fios]; rewrite ?length_insert; auto.
Qed.

Lemma executar_length (ordem : list nat) (c : Config) :
  length (fios (executar ordem c)) = length (fios c).
Proof.
  revert c. induction ordem as [|t o IH]; intros c; [reflexivity|].
  cbn. rewrite IH. apply passo_length.
Qed.

(** Who is not the holder writes nothing. *)
Lemma passo_de_fora (t : nat) (c : Config) :
  bem_formado c -> trinco c <> Some t ->
  campos_iguais (mundo c) (mundo (passo t c)).
Proof.
  unfold bem_formado, passo. intros Hc Ht.
  destruct (fios c !! t) as [p|] eqn:Ep; [|apply campos_iguais_refl].
  assert (Fp : fora p).
  { destruct (trinco c) as [h|].
    - destruct Hc as (_ & Ho). apply (Ho t); congruence.
    - eauto. }
  destruct p as [r|e s|s|s|r s]; cbn in Fp; try contradiction.
  - apply campos_iguais_refl.
  - cbn [mundo]. destruct Fp as (He & _). apply He.
  - destruct (trinco c); apply campos_iguais_refl.
Qed.

(** Either every caller has returned or one of them can move. *)
Lemma acabou_ou_avanca (c : Config) :
  bem_formado c ->
  (forall t p, fios c !! t = Some p -> exists r, p = Fim r) \/
  exists t, pode_avancar t c = true.
Proof.
  unfold bem_formado. intros Hc.
  destruct (trinco c) as [h|] eqn:El.
  - right. destruct Hc as ((p & Ep & Dp) & _). exists h.
    unfold pode_avancar. rewrite Ep.
    destruct p; cbn in Dp; try contradiction; reflexivity.
  - assert (Hd : forall l : list (prog (option json)),
             (forall t p, l !! t = Some p -> fora p) ->
             (forall t p, l !! t = Some p -> exists r, p = Fim r) \/
             exists t p, l !! t = Some p /\ devolvido p = None).
    { induction l as [|p l IH]; intros Hl.
      - left. intros t p Ep. destruct t; discriminate.
      - destruct p as [r|e s|s|s|r s].
        + destruct IH as [Hall | (t & p & Ep & Dp)].
          * intros t p Ep. apply (Hl (S t)). exact Ep.
          * left. intros [|t] p Ep.
            -- injection Ep as <-. eauto.
            -- apply (Hall t). exact Ep.
          * right. exists (S t), p. auto.
        + right. exists 0%nat. eexists. split; reflexivity.
        + right. exists 0%nat. eexists. split; reflexivity.
        + right. exists 0%nat. eexists. split; reflexivity.
        + right. exists 0%nat. eexists. split; reflexivity. }
    destruct (Hd (fios c) Hc) as [Hall | (t & p & Ep & Dp)]; [left; exact Hall|].
    right. exists t. unfold pode_avancar. rewrite Ep, El.
    pose proof (Hc _ _ Ep) as Fp.
    destruct p; cbn in Fp, Dp; try contradiction; try discriminate; reflexivity.
Qed.

(** *** Every path of the method is short *)

Lemma acaba_em_mono {A} (n m : nat) (p : prog A) :
  (n <= m)%nat -> acaba_em n p -> acaba_em m p.
Proof.
  revert n m. induction p as [r|e s IH|s IH|s IH|r s IH]; intros n m Hnm Hp;
    [exact I|..];
    (destruct n as [|n]; [destruct Hp|]);
    (destruct m as [|m]; [lia|]);
    cbn in *.
  - intros w. apply (IH w n m); [lia | apply Hp].
  - apply (IH n m); [lia | apply Hp].
  - apply (IH n m); [lia | apply Hp].
  - intros x. apply (IH x n m); [lia | apply Hp].
Qed.

Lemma acaba_em_liga {A B} (a b : nat) (p : prog A) (k : A -> prog B) :
  acaba_em a p -> (forall x, acaba_em b (k x)) ->
  acaba_em (a + b) (liga p k).
Proof.
  revert a. induction p as [[x|e]|e s IH|s IH|s IH|r s IH]; intros a Hp Hk;
    cbn in *; auto.
  - apply (acaba_em_mono b); [lia | apply Hk].
  - destruct a as [|a]; [contradiction|]. cbn. intros w. apply IH; auto.
  - destruct a as [|a]; [contradiction|]. cbn. apply IH; auto.
  - destruct a as [|a]; [contradiction|]. cbn. apply IH; auto.
  - destruct a as [|a]; [contradiction|]. cbn. intros x. apply IH; auto.
Qed.

Lemma acaba_em_tentar {A} (a b : nat) (p : prog A) (h : excecao -> prog A) :
  acaba_em a p -> (forall e, acaba_em b (h e)) ->
  acaba_em (a + b) (tentar p h).
Proof.
  revert a. induction p as [[x|e]|e s IH|s IH|s IH|r s IH]; intros a Hp Hh;
    cbn in *; auto.
  - apply (acaba_em_mono b); [lia | apply Hh].
  - destruct a as [|a]; [contradiction|]. cbn. intros w. apply IH; auto.
  - destruct a as [|a]; [contradiction|]. cbn. apply IH; auto.
  - destruct a as [|a]; [contradiction|]. cbn. apply IH; auto.
  - destruct a as [|a]; [contradiction|]. cbn. intros x. apply IH; auto.
Qed.

Lemma acaba_em_ao_sair_libera {A} (a : nat) (p : prog A) :
  acaba_em a p -> acaba_em (S a) (ao_sair_libera p).
Proof.
  revert a. induction p as [r|e s IH|s IH|s IH|r s IH]; intros a Hp;
    cbn in *; auto.
  - destruct a as [|a]; [contradiction|]. intros w. apply IH; auto.
  - destruct a as [|a]; [contradiction|]. apply IH; auto.
  - destruct a as [|a]; [contradiction|]. apply IH; auto.
  - destruct a as [|a]; [contradiction|]. intros x. apply IH; auto.
Qed.

Lemma acaba_em_atomico {A} (m : M A) : acaba_em 1 (atomico m).
Proof. cbn. auto. Qed.

(** [p] then [k], within [n] actions when [p] takes at most [a]. *)
Lemma acaba_em_liga_ate {A B} (a n : nat) (p : prog A) (k : A -> prog B) :
  acaba_em a p -> (a <= n)%nat -> (forall x, acaba_em (n - a) (k x)) ->
  acaba_em n (liga p k).
Proof.
  intros Hp Hle Hk. apply (acaba_em_mono (a + (n - a))); [lia|].
  apply acaba_em_liga; auto.
Qed.

Lemma acaba_em_tentar_ate {A} (a n : nat) (p : prog A) (h : excecao -> prog A) :
  acaba_em a p -> (a <= n)%nat -> (forall e, acaba_em (n - a) (h e)) ->
  acaba_em n (tentar p h).
Proof.
  intros Hp Hle Hh. apply (acaba_em_mono (a + (n - a))); [lia|].
  apply acaba_em_tentar; auto.
Qed.

Ltac acaba_passo :=
  lazymatch goal with
  | |- acaba_em _ (liga (atomico _) _) =>
      apply (acaba_em_liga_ate 1); [apply acaba_em_atomico | lia | intros ?; cbn [Nat.sub]]
  | |- acaba_em _ (liga (Fio.le _) _) =>
      apply (acaba_em_liga_ate 1); [apply acaba_em_atomico | lia | intros ?; cbn [Nat.sub]]
  | |- acaba_em _ (liga (Fio.escreve _) _) =>
      apply (acaba_em_liga_ate 1); [apply acaba_em_atomico | lia | intros ?; cbn [Nat.sub]]
  | |- acaba_em _ (liga (Fio.imprime _) _) =>
      apply (acaba_em_liga_ate 1); [apply acaba_em_atomico | lia | intros ?; cbn [Nat.sub]]
  | |- acaba_em _ (liga (match ?x with Some _ => _ | None => _ end) _) =>
      destruct x
  | |- acaba_em _ (liga (Fio.levanta _) _) => exact I
  | |- acaba_em _ (liga (Fio.devolve _) _) => cbn [liga Fio.devolve]
  | |- acaba_em _ (atomico _) =>
      apply (acaba_em_mono 1); [lia | apply acaba_em_atomico]
  | |- acaba_em _ (Fio.le _) =>
      apply (acaba_em_mono 1); [lia | apply acaba_em_atomico]
  | |- acaba_em _ (Fio.devolve _) => exact I
  | |- acaba_em _ (Fio.levanta _) => exact I
  | |- acaba_em _ (Fim _) => exact I
  | |- acaba_em _ (if ?b then _ else _) => destruct b
  | |- acaba_em _ (match ?x with Some _ => _ | None => _ end) => destruct x
  | |- acaba_em _ (match ?x with Ausente => _ | Ilegivel => _ | Gravado _ => _ end) =>
      destruct x
  end.

Lemma acaba_em__token_e_valido : acaba_em 4 Fio._token_e_valido.
Proof. unfold Fio._token_e_valido. repeat acaba_passo. Qed.

Lemma acaba_em__token_precisa_renovar : acaba_em 4 Fio._token_precisa_renovar.
Proof. unfold Fio._token_precisa_renovar. repeat acaba_passo. Qed.

Lemma acaba_em_session_post_login (p : pedido_login) :
  acaba_em 2 (Fio.session_post_login p).
Proof. cbn. intros w x. exact I. Qed.

Lemma acaba_em__fazer_login : acaba_em 17 Fio._fazer_login.
Proof.
  unfold Fio._fazer_login.
  apply (acaba_em_tentar_ate 16); [|lia|intros e; cbn [Nat.sub]; repeat acaba_passo].
  repeat first
    [ apply (acaba_em_liga_ate 2);
        [apply acaba_em_session_post_login | lia | intros ?; cbn [Nat.sub]]
    | acaba_passo ].
Qed.

Lemma acaba_em_carregar_token_salvo : acaba_em 19 Fio.carregar_token_salvo.
Proof.
  unfold Fio.carregar_token_salvo.
  apply (acaba_em_tentar_ate 18); [|lia|intros e; cbn [Nat.sub]; repeat acaba_passo].
  repeat first
    [ apply (acaba_em_liga_ate 4);
        [apply acaba_em__token_precisa_renovar | lia | intros ?; cbn [Nat.sub]]
    | acaba_passo ].
Qed.

Lemma acaba_em_pegar_token_atualizado :
  acaba_em passos_pegar_token_atualizado Fio.pegar_token_atualizado.
Proof.
  unfold Fio.pegar_token_atualizado, passos_pegar_token_atualizado.
  apply (acaba_em_liga_ate 4); [apply acaba_em__token_e_valido | lia |].
  intros [|]; cbn [Nat.sub]; [repeat acaba_passo|].
  unfold com_lock. cbn [acaba_em].
  apply (acaba_em_mono 55); [lia|]. apply acaba_em_ao_sair_libera.
  repeat first
    [ apply (acaba_em_liga_ate 4 _ Fio._token_e_valido);
        [apply acaba_em__token_e_valido | lia | intros ?; cbn [Nat.sub]]
    | apply (acaba_em_liga_ate 4 _ Fio._token_precisa_renovar);
        [apply acaba_em__token_precisa_renovar | lia | intros ?; cbn [Nat.sub]]
    | apply (acaba_em_liga_ate 19 _ (liga Fio.carregar_token_salvo _));
        [ apply (acaba_em_liga_ate 19);
            [apply acaba_em_carregar_token_salvo | lia | intros ?; exact I]
        | lia | intros ?; cbn [Nat.sub]]
    | apply (acaba_em_liga_ate 17 _ Fio._fazer_login);
        [apply acaba_em__fazer_login | lia | intros ?; cbn [Nat.sub]]
    | acaba_passo ].
Qed.


(** *** Taking turns, every caller returns *)

Lemma sum_list_insert (l : list nat) (t b b' : nat) :
  l !! t = Some b ->
  (sum_list (<[t:=b']> l) + b = sum_list l + b')%nat.
Proof.
  revert t. induction l as [|x l IH]; intros [|t] E; try discriminate.
  - injection E as ->. cbn. lia.
  - specialize (IH t E).
    change (<[S t:=b']> (x :: l)) with (x :: <[t:=b']> l).
    cbn [sum_list_with]. lia.
Qed.

Lemma sum_list_zero (l : list nat) (t b : nat) :
  sum_list l = 0%nat -> l !! t = Some b -> b = 0%nat.
Proof.
  revert t. induction l as [|x l IH]; intros [|t] S0 E; try discriminate;
    cbn in *.
  - injection E as ->. lia.
  - apply (IH t); [lia | assumption].
Qed.

Lemma passo_orcamento (t : nat) (c : Config) (bs : list nat) :
  orcamento c bs ->
  exists bs', orcamento (passo t c) bs' /\
    (sum_list bs' <= sum_list bs)%nat /\
    (pode_avancar t c = true -> (sum_list bs' < sum_list bs)%nat).
Proof.
  unfold orcamento, passo, pode_avancar. intros Hb.
  destruct (fios c !! t) as [p|] eqn:Ep;
    [|exists bs; split; [assumption | split; [lia | discriminate]]].
  destruct (Forall2_lookup_l _ _ _ _ _ Hb Ep) as (b & Eb & Hp).
  assert (Hcaso : forall p' : prog (option json),
    (exists b', b = S b' /\ acaba_em b' p') ->
    exists bs', Forall2 (fun p b => acaba_em b p) (<[t:=p']> (fios c)) bs' /\
      (sum_list bs' < sum_list bs)%nat).
  { intros p' (b' & -> & Hp'). exists (<[t:=b']> bs). split.
    - apply Forall2_insert; assumption.
    - pose proof (sum_list_insert bs t (S b') b' Eb). lia. }
  destruct p as [r|e s|s|s|r s]; cbn in Hp.
  - exists bs. split; [assumption | split; [lia | discriminate]].
  - destruct b as [|b']; [contradiction|].
    destruct (Hcaso (s (mundo c))) as (bs' & F & L); [eauto|].
    exists bs'. cbn [fios]. split; [assumption | split; [lia | intros _; lia]].
  - destruct (trinco c).
    + exists bs. split; [assumption | split; [lia | discriminate]].
    + destruct b as [|b']; [contradiction|].
      destruct (Hcaso s) as (bs' & F & L); [eauto|].
      exists bs'. cbn [fios]. split; [assumption | split; [lia | intros _; lia]].
  - destruct b as [|b']; [contradiction|].
    destruct (Hcaso s) as (bs' & F & L); [eauto|].
    exists bs'. cbn [fios]. split; [assumption | split; [lia | intros _; lia]].
  - destruct b as [|b']; [contradiction|].
    destruct (Hcaso (s (receber_valor r))) as (bs' & F & L); [eauto|].
    exists bs'. cbn [fios]. split; [assumption | split; [lia | intros _; lia]].
Qed.

Lemma executar_orcamento (l : list nat) (c : Config) (bs : list nat) :
  orcamento c bs ->
  exists bs', orcamento (executar l c) bs' /\
    (sum_list bs' <= sum_list bs)%nat /\
    (executar l c = c \/ (sum_list bs' < sum_list bs)%nat).
Proof.
  revert c bs. induction l as [|t l IH]; intros c bs Hb.
  - exists bs. split; [assumption | split; [lia | left; reflexivity]].
  - cbn [executar fold_left]. fold (executar l (passo t c)).
    destruct (pode_avancar t c) eqn:Ea.
    + destruct (passo_orcamento t c bs Hb) as (bs1 & H1 & L1 & S1).
      destruct (IH _ _ H1) as (bs2 & H2 & L2 & _).
      exists bs2. specialize (S1 Ea).
      split; [assumption | split; [lia | right; lia]].
    + rewrite (passo_parado t c Ea). apply IH. assumption.
Qed.

Lemma rodada_avanca (l : list nat) (t : nat) (c : Config) (bs : list nat) :
  In t l -> pode_avancar t c = true -> orcamento c bs ->
  exists bs', orcamento (executar l c) bs' /\
    (sum_list bs' < sum_list bs)%nat.
Proof.
  intros Hin Ha Hb. apply in_split in Hin as (l1 & l2 & ->).
  rewrite executar_app.
  destruct (executar_orcamento l1 c bs Hb) as (bs1 & H1 & L1 & [E|S1]).
  - rewrite E. cbn [executar fold_left]. fold (executar l2 (passo t c)).
    destruct (passo_orcamento t c bs Hb) as (bs2 & H2 & L2 & S2).
    destruct (executar_orcamento l2 _ _ H2) as (bs3 & H3 & L3 & _).
    exists bs3. specialize (S2 Ha). split; [assumption | lia].
  - destruct (executar_orcamento (t :: l2) _ _ H1) as (bs3 & H3 & L3 & _).
    exists bs3. split; [assumption | lia].
Qed.

Lemma todos_devolveram_parado (l : list nat) (c : Config) :
  todos_devolveram c -> executar l c = c.
Proof.
  intros Hc. induction l as [|t l IH]; [reflexivity|].
  cbn [executar fold_left]. fold (executar l (passo t c)).
  assert (E : passo t c = c).
  { unfold passo. destruct (fios c !! t) as [p|] eqn:Ep; [|reflexivity].
    destruct (Hc _ _ Ep) as (r & ->). reflexivity. }
  rewrite E. exact IH.
Qed.

Lemma flat_map_const_seq {A} (l : list A) (a b v : nat) :
  flat_map (fun _ => l) (seq a v) = flat_map (fun _ => l) (seq b v).
Proof.
  revert a b. induction v as [|v IH]; intros a b; [reflexivity|].
  cbn. f_equal. apply IH.
Qed.

Lemma alternado_S (n v : nat) :
  alternado n (S v) = seq 0 n ++ alternado n v.
Proof.
  unfold alternado. cbn [seq flat_map]. f_equal. apply flat_map_const_seq.
Qed.

Lemma orcamento_zero (c : Config) (bs : list nat) :
  orcamento c bs -> sum_list bs = 0%nat -> todos_devolveram c.
Proof.
  intros Hb S0 t p Ep.
  destruct (Forall2_lookup_l _ _ _ _ _ Hb Ep) as (b & Eb & Hp).
  rewrite (sum_list_zero bs t b S0 Eb) in Hp.
  destruct p; cbn in Hp; try contradiction. eauto.
Qed.

Lemma alternado_devolve (B : nat) (c : Config) (bs : list nat) :
  bem_formado c -> orcamento c bs -> (sum_list bs <= B)%nat ->
  todos_devolveram (executar (alternado (length (fios c)) B) c).
Proof.
  revert c bs. induction B as [|B IH]; intros c bs Hc Hb HB.
  - apply (orcamento_zero c bs); [assumption | lia].
  - rewrite alternado_S, executar_app.
    destruct (acabou_ou_avanca c Hc) as [T | (t & Ht)].
    + rewrite (todos_devolveram_parado (seq 0 _) c T).
      rewrite (todos_devolveram_parado _ c T). exact T.
    + assert (Hin : In t (seq 0 (length (fios c)))).
      { apply in_seq. split; [lia|]. cbn.
        unfold pode_avancar in Ht.
        destruct (fios c !! t) eqn:Ep; [|discriminate].
        eapply lookup_lt_Some; eauto. }
      destruct (rodada_avanca _ t c bs Hin Ht Hb) as (bs' & Hb' & L).
      assert (Hc1 : bem_formado (executar (seq 0 (length (fios c))) c))
        by (apply bem_formado_executar; assumption).
      remember (executar (seq 0 (length (fios c))) c) as c1 eqn:E1.
      assert (El : length (fios c1) = length (fios c))
        by (subst c1; apply executar_length).
      rewrite <- El. apply (IH c1 bs'); [assumption | assumption | lia].
Qed.

(** *** No more logins than callers *)

Lemma envia_ate_mono {A} (a b : nat) (p : prog A) :
  (a <= b)%nat -> envia_ate a p -> envia_ate b p.
Proof.
  revert a b. induction p as [r|e s IH|s IH|s IH|r s IH]; intros a b Hab Hp;
    cbn in *; auto.
  - intros w. destruct (Hp w) as [(E & Hs) | (E & Hs)].
    + left. split; [assumption|]. apply (IH w a b); assumption.
    + right. split; [assumption|].
      destruct a as [|a]; [contradiction|]. destruct b as [|b]; [lia|].
      apply (IH w a b); [lia | assumption].
  - apply (IH a b); assumption.
  - apply (IH a b); assumption.
  - intros x. apply (IH x a b); auto.
Qed.

Lemma envia_ate_liga {A B} (a b : nat) (p : prog A) (k : A -> prog B) :
  envia_ate a p -> (forall x, envia_ate b (k x)) ->
  envia_ate (a + b) (liga p k).
Proof.
  revert a. induction p as [[x|e]|e s IH|s IH|s IH|r s IH]; intros a Hp Hk;
    cbn in *; auto.
  - apply (envia_ate_mono b); [lia | apply Hk].
  - intros w. destruct (Hp w) as [(E & Hs) | (E & Hs)].
    + left. split; [assumption|]. apply IH; assumption.
    + right. split; [assumption|].
      destruct a as [|a]; [contradiction|]. cbn. apply IH; assumption.
Qed.

Lemma envia_ate_tentar {A} (a b : nat) (p : prog A) (h : excecao -> prog A) :
  envia_ate a p -> (forall e, envia_ate b (h e)) ->
  envia_ate (a + b) (tentar p h).
Proof.
  revert a. induction p as [[x|e]|e s IH|s IH|s IH|r s IH]; intros a Hp Hh;
    cbn in *; auto.
  - apply (envia_ate_mono b); [lia | apply Hh].
  - intros w. destruct (Hp w) as [(E & Hs) | (E & Hs)].
    + left. split; [assumption|]. apply IH; assumption.
    + right. split; [assumption|].
      destruct a as [|a]; [contradiction|]. cbn. apply IH; assumption.
Qed.

Lemma envia_ate_ao_sair_libera {A} (a : nat) (p : prog A) :
  envia_ate a p -> envia_ate a (ao_sair_libera p).
Proof.
  revert a. induction p as [r|e s IH|s IH|s IH|r s IH]; intros a Hp;
    cbn in *; auto.
  intros w. destruct (Hp w) as [(E & Hs) | (E & Hs)].
  - left. split; [assumption|]. apply IH; assumption.
  - right. split; [assumption|].
    destruct a as [|a]; [contradiction|]. apply IH; assumption.
Qed.

Lemma envia_ate_leitor {A} (p : prog A) : leitor p -> envia_ate 0 p.
Proof.
  induction p as [r|e s IH|s IH|s IH|r s IH]; cbn; try tauto.
  intros (He & Hs) w. left. split; [apply (He w) | auto].
Qed.

Lemma envia_ate_atomico {A} (m : M A) :
  preserva mesmos_pedidos_login m -> envia_ate 0 (atomico m).
Proof. intros Hm. cbn. intros w. left. split; [apply Hm | exact I]. Qed.

Lemma mesmos_pedidos_login_refl (w : Mundo) : mesmos_pedidos_login w w.
Proof. reflexivity. Qed.

Lemma mesmos_pedidos_login_trans (a b c : Mundo) :
  mesmos_pedidos_login a b -> mesmos_pedidos_login b c ->
  mesmos_pedidos_login a c.
Proof. unfold mesmos_pedidos_login. congruence. Qed.

Lemma envia_ate_session_post_login (p : pedido_login) :
  envia_ate 1 (Fio.session_post_login p).
Proof.
  cbn. intros w. right. split; [eauto|]. intros x. exact I.
Qed.

(** A step that sends nothing, then the rest. *)
Lemma envia_ate_depois {A B} (b : nat) (p : prog A) (k : A -> prog B) :
  envia_ate 0 p -> (forall x, envia_ate b (k x)) -> envia_ate b (liga p k).
Proof. intros Hp Hk. apply (envia_ate_liga 0 b); assumption. Qed.

Ltac calado :=
  apply envia_ate_atomico;
  lazymatch goal with
  | |- preserva _ (loads _) =>
      apply (preserva_loads mesmos_pedidos_login_refl)
  | |- preserva _ (strptime_de _) =>
      apply (preserva_strptime_de mesmos_pedidos_login_refl)
  | |- preserva _ (subscrito _ _) =>
      apply (preserva_subscrito mesmos_pedidos_login_refl)
  | |- preserva _ (datetime_mais _ _) =>
      apply (preserva_datetime_mais mesmos_pedidos_login_refl)
  | |- _ => intros ?; reflexivity
  end.

Ltac envia_passo :=
  lazymatch goal with
  | |- envia_ate _ (liga (Fio.session_post_login _) _) =>
      apply (envia_ate_liga 1 0);
        [apply envia_ate_session_post_login | intros ?]
  | |- envia_ate _ (liga Fio._token_e_valido _) =>
      apply envia_ate_depois;
        [apply envia_ate_leitor, leitor__token_e_valido | intros ?]
  | |- envia_ate _ (liga (atomico _) _) =>
      apply envia_ate_depois; [calado | intros ?]
  | |- envia_ate _ (liga (Fio.le _) _) =>
      apply envia_ate_depois; [calado | intros ?]
  | |- envia_ate _ (liga (Fio.escreve _) _) =>
      apply envia_ate_depois; [calado | intros ?]
  | |- envia_ate _ (liga (Fio.imprime _) _) =>
      apply envia_ate_depois; [calado | intros ?]
  | |- envia_ate _ (liga (match ?x with Some _ => _ | None => _ end) _) =>
      destruct x
  | |- envia_ate _ (liga (Fio.levanta _) _) => exact I
  | |- envia_ate _ (liga (Fio.devolve _) _) => cbn [liga Fio.devolve]
  | |- envia_ate _ (atomico _) =>
      apply (envia_ate_mono 0); [lia | calado]
  | |- envia_ate _ (Fio.le _) =>
      apply (envia_ate_mono 0); [lia | calado]
  | |- envia_ate _ (Fio.devolve _) => exact I
  | |- envia_ate _ (Fio.levanta _) => exact I
  | |- envia_ate _ (Fim _) => exact I
  | |- envia_ate _ (if ?b then _ else _) => destruct b
  | |- envia_ate _ (match ?x with Some _ => _ | None => _ end) => destruct x
  | |- envia_ate _ (match ?x with Ausente => _ | Ilegivel => _ | Gravado _ => _ end) =>
      destruct x
  end.

Lemma envia_ate__token_precisa_renovar :
  envia_ate 0 Fio._token_precisa_renovar.
Proof. unfold Fio._token_precisa_renovar. repeat envia_passo. Qed.

Lemma envia_ate__fazer_login : envia_ate 1 Fio._fazer_login.
Proof.
  unfold Fio._fazer_login.
  apply (envia_ate_tentar 1 0); [|intros e; repeat envia_passo].
  repeat envia_passo.
Qed.

Lemma envia_ate_carregar_token_salvo : envia_ate 0 Fio.carregar_token_salvo.
Proof.
  unfold Fio.carregar_token_salvo.
  apply (envia_ate_tentar 0 0); [|intros e; repeat envia_passo].
  repeat first
    [ lazymatch goal with
      | |- envia_ate _ (liga Fio._token_precisa_renovar _) =>
          apply envia_ate_depois;
            [apply envia_ate__token_precisa_renovar | intros ?]
      end
    | envia_passo ].
Qed.

Lemma envia_ate_pegar_token_atualizado :
  envia_ate 1 Fio.pegar_token_atualizado.
Proof.
  unfold Fio.pegar_token_atualizado.
  apply envia_ate_depois;
    [apply envia_ate_leitor, leitor__token_e_valido | intros [|]];
    [repeat envia_passo|].
  unfold com_lock. cbn [envia_ate]. apply envia_ate_ao_sair_libera.
  repeat first
    [ lazymatch goal with
      | |- envia_ate _ (liga Fio._token_precisa_renovar _) =>
          apply envia_ate_depois;
            [apply envia_ate__token_precisa_renovar | intros ?]
      | |- envia_ate _ (liga (liga Fio.carregar_token_salvo _) _) =>
          apply envia_ate_depois;
            [ apply envia_ate_depois;
                [apply envia_ate_carregar_token_salvo | intros ?; exact I]
            | intros ?]
      | |- envia_ate _ (liga Fio._fazer_login _) =>
          apply (envia_ate_liga 1 0);
            [apply envia_ate__fazer_login | intros ?]
      end
    | envia_passo ].
Qed.

Lemma passo_envios (t : nat) (c : Config) (ks : list nat) :
  Forall2 (fun p k => envia_ate k p) (fios c) ks ->
  exists ks' q,
    Forall2 (fun p k => envia_ate k p) (fios (passo t c)) ks' /\
    pedidos_login (mundo (passo t c)) = pedidos_login (mundo c) ++ q /\
    (length q + sum_list ks' <= sum_list ks)%nat.
Proof.
  unfold passo. intros Hk.
  assert (Hfica : exists ks' q,
    Forall2 (fun p k => envia_ate k p) (fios c) ks' /\
    pedidos_login (mundo c) = pedidos_login (mundo c) ++ q /\
    (length q + sum_list ks' <= sum_list ks)%nat).
  { exists ks, []. rewrite app_nil_r. cbn. auto. }
  destruct (fios c !! t) as [p|] eqn:Ep; [|exact Hfica].
  destruct (Forall2_lookup_l _ _ _ _ _ Hk Ep) as (k & Ek & Hp).
  assert (Hmesmo : forall p' : prog (option json), envia_ate k p' ->
    exists ks', Forall2 (fun p k => envia_ate k p) (<[t:=p']> (fios c)) ks' /\
      (sum_list ks' <= sum_list ks)%nat).
  { intros p' Hp'. exists (<[t:=k]> ks). split.
    - apply Forall2_insert; assumption.
    - pose proof (sum_list_insert ks t k k Ek). lia. }
  destruct p as [r|e s|s|s|r s]; cbn in Hp.
  - exact Hfica.
  - cbn [mundo fios]. destruct (Hp (mundo c)) as [(E & Hs) | ((q & E) & Hs)].
    + destruct (Hmesmo _ Hs) as (ks' & F & L).
      exists ks', []. rewrite app_nil_r. cbn. auto.
    + destruct k as [|k']; [contradiction|].
      exists (<[t:=k']> ks), [q]. split; [|split; [assumption|]].
      * apply Forall2_insert; assumption.
      * pose proof (sum_list_insert ks t (S k') k' Ek). cbn. lia.
  - destruct (trinco c); [exact Hfica|]. cbn [mundo fios].
    destruct (Hmesmo _ Hp) as (ks' & F & L).
    exists ks', []. rewrite app_nil_r. cbn. auto.
  - cbn [mundo fios]. destruct (Hmesmo _ Hp) as (ks' & F & L).
    exists ks', []. rewrite app_nil_r. cbn. auto.
  - cbn [mundo fios]. destruct (Hmesmo _ (Hp (receber_valor r))) as (ks' & F & L).
    exists ks', []. rewrite app_nil_r. cbn.
    split; [assumption | split; [|assumption]].
    destruct r; reflexivity.
Qed.

Lemma executar_envios (l : list nat) (c : Config) (ks : list nat) :
  Forall2 (fun p k => envia_ate k p) (fios c) ks ->
  exists q,
    pedidos_login (mundo (executar l c)) = pedidos_login (mundo c) ++ q /\
    (length q <= sum_list ks)%nat.
Proof.
  revert c ks. induction l as [|t l IH]; intros c ks Hk.
  - exists []. rewrite app_nil_r. cbn. split; [reflexivity | lia].
  - cbn [executar fold_left]. fold (executar l (passo t c)).
    destruct (passo_envios t c ks Hk) as (ks1 & q1 & H1 & E1 & L1).
    destruct (IH _ _ H1) as (q2 & E2 & L2).
    exists (q1 ++ q2). rewrite E2, E1, <- app_assoc.
    split; [reflexivity|]. rewrite length_app. lia.
Qed.

(** X1. While a login is in flight, its caller holds the lock: in every
    run of any number of callers, on any manager and under any schedule,
    a thread that has sent the login request and not yet received the
    answer is the holder of [self._lock]; so no two logins are ever in
    flight at once. *)
Theorem login_in_flight_only_for_lock_holder
    (n : nat) (w : Mundo) (ordem : list nat) (t : nat) :
  login_em_voo t (executar ordem (config_inicial n w)) = true ->
  trinco (executar ordem (config_inicial n w)) = Some t /\
  forall t',
    login_em_voo t' (executar ordem (config_inicial n w)) = true -> t' = t.
Proof.
  set (c := executar ordem (config_inicial n w)). intros Ht.
  assert (Hc : bem_formado c) by apply bem_formado_alcancavel.
  assert (Hum : forall u, login_em_voo u c = true -> trinco c = Some u).
  { intros u Hu. unfold login_em_voo in Hu.
    destruct (fios c !! u) as [p|] eqn:Ep; [|discriminate].
    unfold bem_formado in Hc. destruct (trinco c) as [h|].
    - destruct Hc as (_ & Ho).
      destruct (decide (u = h)) as [->|Ne]; [reflexivity|].
      pose proof (Ho _ _ Ne Ep) as Fp.
      destruct p; cbn in Fp, Hu; try discriminate; contradiction.
    - pose proof (Hc _ _ Ep) as Fp.
      destruct p; cbn in Fp, Hu; try discriminate; contradiction. }
  split; [auto|]. intros t' Ht'.
  pose proof (Hum _ Ht) as E1. pose proof (Hum _ Ht') as E2. congruence.
Qed.

(** X2. Only the holder of the lock writes: in every run, a step of a
    thread that does not hold [self._lock] leaves the token, its expiry,
    the cookie jar, the cookie file and the list of the login requests as
    they were. *)
Theorem only_lock_holder_writes_session_state
    (n : nat) (w : Mundo) (ordem : list nat) (t : nat) :
  trinco (executar ordem (config_inicial n w)) <> Some t ->
  campos_iguais (mundo (executar ordem (config_inicial n w)))
    (mundo (passo t (executar ordem (config_inicial n w)))).
Proof.
  intros Ht. apply passo_de_fora; [apply bem_formado_alcancavel | exact Ht].
Qed.

(** X3. The lock is never stuck: in every run the holder of [self._lock],
    if any, is a caller that has not returned, and as long as some caller
    has not returned some caller has an action it can perform. *)
Theorem lock_is_never_leaked_and_never_deadlocks
    (n : nat) (w : Mundo) (ordem : list nat) :
  let c := executar ordem (config_inicial n w) in
  match trinco c with
  | Some h => exists p, fios c !! h = Some p /\ devolvido p = None
  | None => True
  end /\
  (todos_devolveram c \/ exists t, pode_avancar t c = true).
Proof.
  intros c.
  assert (Hc : bem_formado c) by apply bem_formado_alcancavel.
  split; [|apply acabou_ou_avanca; exact Hc].
  unfold bem_formado in Hc. destruct (trinco c) as [h|]; [|exact I].
  destruct Hc as ((p & Ep & Dp) & _). exists p. split; [assumption|].
  destruct p; cbn in Dp; try contradiction; reflexivity.
Qed.

Lemma passo_espera_chegou (t : nat) (c : Config) :
  passo_espera (t, true) c = passo t c.
Proof. unfold passo_espera. cbn. rewrite andb_false_r. reflexivity. Qed.

Lemma passo_espera_casos (tb : nat * bool) (c : Config) :
  passo_espera tb c = c \/ passo_espera tb c = passo (fst tb) c.
Proof. unfold passo_espera. destruct (_ && _); auto. Qed.

Lemma executar_espera_chegou (l : list nat) (c : Config) :
  executar_espera (map (fun t => (t, true)) l) c = executar l c.
Proof.
  revert c. induction l as [|t l IH]; intros c; [reflexivity|].
  cbn [map executar_espera executar fold_left].
  fold (executar_espera (map (fun t => (t, true)) l)
          (passo_espera (t, true) c)).
  fold (executar l (passo t c)).
  rewrite passo_espera_chegou. apply IH.
Qed.

(** A run with late answers is a run: the turns at which nothing
    happened left out. *)
Lemma executar_espera_executar (ordem : list (nat * bool)) (c : Config) :
  exists ordem', executar_espera ordem c = executar ordem' c.
Proof.
  revert c. induction ordem as [|tb ordem IH]; intros c.
  - exists []. reflexivity.
  - cbn [executar_espera fold_left].
    fold (executar_espera ordem (passo_espera tb c)).
    destruct (passo_espera_casos tb c) as [-> | ->].
    + apply IH.
    + destruct (IH (passo (fst tb) c)) as (o & ->).
      exists (fst tb :: o). reflexivity.
Qed.

Lemma executar_espera_app (o1 o2 : list (nat * bool)) (c : Config) :
  executar_espera (o1 ++ o2) c = executar_espera o2 (executar_espera o1 c).
Proof. unfold executar_espera. apply fold_left_app. Qed.

Lemma executar_espera_orcamento (ordem : list (nat * bool)) (c : Config)
    (bs : list nat) :
  bem_formado c -> orcamento c bs ->
  bem_formado (executar_espera ordem c) /\
  length (fios (executar_espera ordem c)) = length (fios c) /\
  exists bs', orcamento (executar_espera ordem c) bs' /\
              (sum_list bs' <= sum_list bs)%nat.
Proof.
  intros Hc Hb. destruct (executar_espera_executar ordem c) as (o & ->).
  split; [apply bem_formado_executar; exact Hc|].
  split; [apply executar_length|].
  destruct (executar_orcamento o c bs Hb) as (bs' & Hb' & L & _).
  exists bs'. auto.
Qed.

Lemma todos_devolveram_espera (ordem : list (nat * bool)) (c : Config) :
  todos_devolveram c -> executar_espera ordem c = c.
Proof.
  intros Hc. destruct (executar_espera_executar ordem c) as (o & ->).
  apply todos_devolveram_parado. exact Hc.
Qed.

Lemma alternado_espera_devolve (rodadas : list bool) (c : Config)
    (bs : list nat) :
  bem_formado c -> orcamento c bs ->
  (sum_list bs <= rodadas_com_resposta rodadas)%nat ->
  todos_devolveram
    (executar_espera (alternado_espera (length (fios c)) rodadas) c).
Proof.
  revert c bs. induction rodadas as [|b rodadas IH]; intros c bs Hc Hb HB.
  - apply (orcamento_zero c bs); [assumption|].
    unfold rodadas_com_resposta in HB. cbn in HB. lia.
  - unfold alternado_espera. cbn [flat_map].
    fold (alternado_espera (length (fios c)) rodadas).
    rewrite executar_espera_app.
    destruct (acabou_ou_avanca c Hc) as [T | (t & Ht)].
    { rewrite (todos_devolveram_espera _ c T).
      rewrite (todos_devolveram_espera _ c T). exact T. }
    destruct b.
    + rewrite executar_espera_chegou.
      assert (Hin : In t (seq 0 (length (fios c)))).
      { apply in_seq. split; [lia|]. cbn.
        unfold pode_avancar in Ht.
        destruct (fios c !! t) eqn:Ep; [|discriminate].
        eapply lookup_lt_Some; eauto. }
      destruct (rodada_avanca _ t c bs Hin Ht Hb) as (bs' & Hb' & L).
      assert (Hc1 : bem_formado (executar (seq 0 (length (fios c))) c))
        by (apply bem_formado_executar; assumption).
      remember (executar (seq 0 (length (fios c))) c) as c1 eqn:E1.
      assert (El : length (fios c1) = length (fios c))
        by (subst c1; apply executar_length).
      rewrite <- El. apply (IH c1 bs'); [assumption | assumption |].
      unfold rodadas_com_resposta in *. cbn in HB. lia.
    + destruct (executar_espera_orcamento
                  (map (fun t => (t, false)) (seq 0 (length (fios c))))
                  c bs Hc Hb) as (Hc1 & El & bs' & Hb' & L).
      remember (executar_espera
                  (map (fun t => (t, false)) (seq 0 (length (fios c)))) c)
        as c1 eqn:E1.
      rewrite <- El. apply (IH c1 bs'); [assumption | assumption |].
      unfold rodadas_com_resposta in *. cbn in HB. lia.
Qed.

(** X4. Taking turns, every caller returns once the ERP has answered:
    [n] callers run [pegar_token_atualizado] in turn, one action each;
    the answer to a login may be late for any number of rounds. When the
    run has [60 * n] rounds in which the answers awaited have arrived,
    all the callers have returned and the lock is free, whatever the
    clock and the file hold and whatever the ERP answers. *)
Theorem round_robin_callers_all_return
    (n : nat) (w : Mundo) (rodadas : list bool) :
  (passos_pegar_token_atualizado * n <= rodadas_com_resposta rodadas)%nat ->
  (forall t, (t < n)%nat ->
     exists r,
       fios (executar_espera (alternado_espera n rodadas)
               (config_inicial n w)) !! t = Some (Fim r)) /\
  trinco (executar_espera (alternado_espera n rodadas) (config_inicial n w))
    = None.
Proof.
  intros HR.
  set (c := executar_espera (alternado_espera n rodadas)
              (config_inicial n w)).
  assert (Hn : length (fios (config_inicial n w)) = n).
  { unfold config_inicial. cbn. apply length_replicate. }
  assert (Hb : orcamento (config_inicial n w)
                 (replicate n passos_pegar_token_atualizado)).
  { unfold orcamento, config_inicial. cbn.
    apply Forall2_replicate. apply acaba_em_pegar_token_atualizado. }
  assert (T : todos_devolveram c).
  { subst c. rewrite <- Hn at 1.
    apply (alternado_espera_devolve _ _ _
             (bem_formado_config_inicial n w) Hb).
    rewrite sum_list_replicate. lia. }
  destruct (executar_espera_orcamento (alternado_espera n rodadas)
              (config_inicial n w) _ (bem_formado_config_inicial n w) Hb)
    as (Hc & Hl & _).
  fold c in Hc, Hl.
  split.
  - intros t Ht.
    assert (Hlt : (t < length (fios c))%nat) by (rewrite Hl, Hn; exact Ht).
    apply lookup_lt_is_Some_2 in Hlt as (p & Ep).
    destruct (T _ _ Ep) as (r & ->). eauto.
  - unfold bem_formado in Hc. destruct (trinco c) as [h|]; [|reflexivity].
    destruct Hc as ((p & Ep & Dp) & _).
    destruct (T _ _ Ep) as (r & ->). destruct Dp.
Qed.

(** X5. No more logins than callers: in every run of [n] callers, on any
    manager and under any schedule, the login requests sent so far are
    those sent before the run followed by at most [n] new ones; a call
    logs in at most once, also when logins fail. *)
Theorem logins_never_exceed_callers
    (n : nat) (w : Mundo) (ordem : list nat) :
  let c := executar ordem (config_inicial n w) in
  exists novos,
    pedidos_login (mundo c) = pedidos_login w ++ novos /\
    (length novos <= n)%nat.
Proof.
  intros c.
  destruct (executar_envios ordem (config_inicial n w) (replicate n 1%nat))
    as (q & E & L).
  { unfold config_inicial. cbn. apply Forall2_replicate.
    apply envia_ate_pegar_token_atualizado. }
  exists q. split; [exact E|].
  rewrite sum_list_replicate in L. lia.
Qed.


(** *** A login that is not answered *)

Lemma passo_com_trinco_alheio (u h : nat) (c : Config) :
  bem_formado c -> trinco c = Some h -> u <> h ->
  trinco (passo u c) = Some h /\
  (forall v, v <> u -> fios (passo u c) !! v = fios c !! v) /\
  (forall s, fios c !! u = Some (Adquirir s) -> passo u c = c).
Proof.
  unfold bem_formado. intros Hc Hl Ne. rewrite Hl in Hc.
  destruct Hc as (_ & Ho). unfold passo.
  destruct (fios c !! u) as [p|] eqn:Ep; [|auto].
  pose proof (Ho _ _ Ne Ep) as Fp.
  destruct p as [r|e s|s|s|r s]; cbn in Fp; try contradiction.
  - auto.
  - cbn [trinco fios]. split; [assumption|]. split; [|discriminate].
    intros v Nv. apply list_lookup_insert_ne. congruence.
  - rewrite Hl. auto.
Qed.

Lemma espera_sem_resposta (t : nat) (ordem : list (nat * bool)) (c : Config) :
  bem_formado c ->
  login_em_voo t c = true -> trinco c = Some t ->
  (forall b, In (t, b) ordem -> b = false) ->
  bem_formado (executar_espera ordem c) /\
  fios (executar_espera ordem c) !! t = fios c !! t /\
  trinco (executar_espera ordem c) = Some t /\
  campos_iguais (mundo c) (mundo (executar_espera ordem c)) /\
  forall u s, fios c !! u = Some (Adquirir s) ->
    fios (executar_espera ordem c) !! u = Some (Adquirir s).
Proof.
  revert c. induction ordem as [|[u b] ordem IH]; intros c Hc Hv Hl Hb.
  - cbn. split; [assumption|]. split; [reflexivity|]. split; [assumption|].
    split; [apply campos_iguais_refl | auto].
  - cbn [executar_espera fold_left].
    fold (executar_espera ordem (passo_espera (u, b) c)).
    assert (Hb' : forall b0, In (t, b0) ordem -> b0 = false)
      by (intros b0 H0; apply Hb; right; exact H0).
    destruct (decide (u = t)) as [->|Ne].
    + assert (b = false) by (apply Hb; left; reflexivity). subst b.
      unfold passo_espera. cbn [fst snd negb]. rewrite Hv. cbn [andb].
      apply IH; assumption.
    + destruct (passo_espera_casos (u, b) c) as [-> | ->];
        [apply IH; assumption|].
      cbn [fst].
      destruct (passo_com_trinco_alheio u t c Hc Hl Ne) as (Tl & Tf & Ta).
      assert (Hv1 : login_em_voo t (passo u c) = true).
      { unfold login_em_voo in *. rewrite Tf by congruence. exact Hv. }
      destruct (IH (passo u c) (bem_formado_passo u c Hc) Hv1 Tl Hb')
        as (I1 & I2 & I3 & I4 & I5).
      split; [exact I1|]. split; [rewrite I2; apply Tf; congruence|].
      split; [exact I3|]. split.
      * eapply campos_iguais_trans; [|exact I4].
        apply passo_de_fora; [exact Hc | congruence].
      * intros v s Ev. apply I5.
        destruct (decide (v = u)) as [->|Nv].
        -- rewrite (Ta s Ev). exact Ev.
        -- rewrite Tf by exact Nv. exact Ev.
Qed.

(** X21. A login that is not answered keeps the lock: the request is
    posted without a timeout, so if in a run a caller has sent its login
    and the answer does not arrive, then, however long the other callers
    go on, that caller still waits for the answer and still holds
    [self._lock], every caller that was waiting for the lock is still
    waiting for it, and the token, its expiry, the cookies, the cookie
    file and the list of the login requests are as they were. *)
Theorem unanswered_login_keeps_the_lock
    (n : nat) (w : Mundo) (ordem ordem' : list (nat * bool)) (t : nat) :
  login_em_voo t (executar_espera ordem (config_inicial n w)) = true ->
  (forall b, In (t, b) ordem' -> b = false) ->
  let c := executar_espera ordem (config_inicial n w) in
  let c' := executar_espera ordem' c in
  login_em_voo t c' = true /\
  trinco c' = Some t /\
  campos_iguais (mundo c) (mundo c') /\
  forall u s, fios c !! u = Some (Adquirir s) ->
    fios c' !! u = Some (Adquirir s).
Proof.
  intros Hv Hb c c'.
  assert (Hc : bem_formado c).
  { subst c. destruct (executar_espera_executar ordem (config_inicial n w))
      as (o & ->). apply bem_formado_alcancavel. }
  assert (Hl : trinco c = Some t).
  { unfold bem_formado in Hc. unfold login_em_voo in Hv. fold c in Hv.
    destruct (fios c !! t) as [p|] eqn:Ep; [|discriminate].
    destruct (trinco c) as [h|].
    - destruct Hc as (_ & Ho).
      destruct (decide (t = h)) as [->|Ne]; [reflexivity|].
      pose proof (Ho _ _ Ne Ep) as Fp.
      destruct p; cbn in Fp, Hv; try discriminate; contradiction.
    - pose proof (Hc _ _ Ep) as Fp.
      destruct p; cbn in Fp, Hv; try discriminate; contradiction. }
  destruct (espera_sem_resposta t ordem' c Hc Hv Hl Hb)
    as (_ & I2 & I3 & I4 & I5).
  fold c' in I2, I3, I4, I5.
  split; [|auto]. unfold login_em_voo in *. rewrite I2. exact Hv.
Qed.

End FiosGerais.

(** ** No caller raises, whatever the others do *)

Section FiosCalmos.
Context `{Biblioteca}.

Lemma tem_validade_receber_efeito (r : resultado_http) (w : Mundo) :
  tem_validade w -> tem_validade (receber_efeito r w).
Proof. destruct r; auto. Qed.

Lemma calmo_consequencia {A} (k : bool) (p : prog A)
    (Q Q' : res A -> bool -> Prop) :
  (forall r k', Q r k' -> Q' r k') -> calmo k p Q -> calmo k p Q'.
Proof.
  intros HQ. revert k.
  induction p as [r|e s IH|s IH|s IH|r s IH]; intros k; cbn; auto.
  intros (He & Hs). split; [exact He|]. intros w Hw.
  destruct (Hs w Hw) as (k' & Hk' & Hc). exists k'. split; auto.
Qed.

Lemma calmo_liga {A B} (k : bool) (p : prog A) (f : A -> prog B)
    (Q : res B -> bool -> Prop) :
  calmo k p (fun r k' =>
    match r with
    | Ok a => calmo k' (f a) Q
    | Exc e => Q (Exc e) k'
    end) ->
  calmo k (liga p f) Q.
Proof.
  revert k. induction p as [[a|e]|e s IH|s IH|s IH|r s IH]; intros k; cbn;
    auto.
  intros (He & Hs). split; [exact He|]. intros w Hw.
  destruct (Hs w Hw) as (k' & Hk' & Hc). exists k'. split; auto.
Qed.

Lemma calmo_tentar {A} (k : bool) (p : prog A) (h : excecao -> prog A)
    (Q : res A -> bool -> Prop) :
  calmo k p (fun r k' =>
    match r with
    | Ok a => Q (Ok a) k'
    | Exc e => calmo k' (h e) Q
    end) ->
  calmo k (tentar p h) Q.
Proof.
  revert k. induction p as [[a|e]|e s IH|s IH|s IH|r s IH]; intros k; cbn;
    auto.
  intros (He & Hs). split; [exact He|]. intros w Hw.
  destruct (Hs w Hw) as (k' & Hk' & Hc). exists k'. split; auto.
Qed.

Lemma calmo_ao_sair_libera {A} (k : bool) (p : prog A)
    (Q : res A -> bool -> Prop) :
  calmo k p Q -> calmo k (ao_sair_libera p) Q.
Proof.
  revert k. induction p as [r|e s IH|s IH|s IH|r s IH]; intros k; cbn; auto.
  intros (He & Hs). split; [exact He|]. intros w Hw.
  destruct (Hs w Hw) as (k' & Hk' & Hc). exists k'. split; auto.
Qed.

(** A program that unsets nothing ends, with some result. *)
Lemma calmo_inofensivo {A} (k : bool) (p : prog A) :
  inofensivo p -> calmo k p (fun _ _ => True).
Proof.
  revert k. induction p as [r|e s IH|s IH|s IH|r s IH]; intros k; cbn; auto.
  intros (He & Hs). split; [exact He|]. intros w Hw.
  exists false. split; [discriminate | auto].
Qed.

Lemma inofensivo_liga {A B} (p : prog A) (f : A -> prog B) :
  inofensivo p -> (forall a, inofensivo (f a)) -> inofensivo (liga p f).
Proof.
  intros Hp Hf. induction p as [[a|e]|e s IH|s IH|s IH|r s IH]; cbn in *;
    auto.
  destruct Hp as (He & Hs). split; auto.
Qed.

Lemma inofensivo_atomico {A} (m : M A) :
  (forall w, tem_validade w -> tem_validade (snd (m w))) ->
  inofensivo (atomico m).
Proof. intros Hm. cbn. split; auto. Qed.

Lemma inofensivo_session_post_login (p : pedido_login) :
  inofensivo (Fio.session_post_login p).
Proof. cbn. split; [auto|]. intros w x. exact I. Qed.

Ltac inofensivo_passo :=
  lazymatch goal with
  | |- inofensivo (liga _ _) => apply inofensivo_liga; [|intros ?]
  | |- inofensivo (Fio.session_post_login _) =>
      apply inofensivo_session_post_login
  | |- inofensivo (atomico (loads ?b)) =>
      apply inofensivo_atomico; intros ? ?; unfold loads;
      destruct (json_loads b); assumption
  | |- inofensivo (atomico (strptime_de ?v)) =>
      apply inofensivo_atomico; intros ? ?; unfold strptime_de;
      destruct v; try assumption;
      match goal with |- context [strptime ?s] => destruct (strptime s) end;
      assumption
  | |- inofensivo (atomico (subscrito ?v ?c)) =>
      apply inofensivo_atomico; intros ? ?; unfold subscrito;
      destruct v as [[| | | | |?]|]; try assumption;
      match goal with |- context [?m !! c] => destruct (m !! c) end;
      assumption
  | |- inofensivo (atomico (datetime_mais _ _)) =>
      apply inofensivo_atomico; intros ? ?; unfold datetime_mais;
      match goal with |- context [if ?b then _ else _] => destruct b end;
      assumption
  | |- inofensivo (atomico datetime_now) =>
      apply inofensivo_atomico; intros ? ?; assumption
  | |- inofensivo (Fio.le _) =>
      apply inofensivo_atomico; intros ? ?; assumption
  | |- inofensivo (Fio.imprime _) =>
      apply inofensivo_atomico; intros ? ?; assumption
  | |- inofensivo (Fio.escreve (com_validade_token (Some _))) =>
      apply inofensivo_atomico; intros ? ?; cbn; unfold tem_validade; cbn;
      eauto
  | |- inofensivo (Fio.escreve _) =>
      apply inofensivo_atomico; intros ? ?; assumption
  | |- inofensivo (Fio.devolve _) => exact I
  | |- inofensivo (Fio.levanta _) => exact I
  | |- inofensivo (Fim _) => exact I
  | |- inofensivo (if ?b then _ else _) => destruct b
  | |- inofensivo (match ?x with Some _ => _ | None => _ end) => destruct x
  | |- inofensivo (match ?x with Ausente => _ | Ilegivel => _ | Gravado _ => _ end) =>
      destruct x
  end.

Lemma inofensivo__token_precisa_renovar :
  inofensivo Fio._token_precisa_renovar.
Proof. unfold Fio._token_precisa_renovar. repeat inofensivo_passo. Qed.

(** The two reads of the expiry agree: what the first finds set, the
    second finds set. *)
Lemma calmo__token_e_valido (k : bool) :
  calmo k Fio._token_e_valido sem_excecao.
Proof.
  unfold Fio._token_e_valido, Fio.le, atomico, gets. cbn.
  split; [auto|]. intros w _.
  destruct (_validade_token w) as [v|] eqn:Ev.
  - exists true. split; [intros _; exists v; exact Ev|]. cbn.
    split; [auto|]. intros w1 Hw1. exists true. split; [exact Hw1|].
    destruct (_token_data w1); cbn; [|exists false; reflexivity].
    split; [auto|]. intros w2 Hw2. exists true. split; [exact Hw2|]. cbn.
    split; [auto|]. intros w3 Hw3. exists true. split; [exact Hw3|].
    destruct (Hw3 eq_refl) as (v3 & ->). cbn. eexists. reflexivity.
  - exists false. split; [discriminate|]. cbn. exists false. reflexivity.
Qed.

Lemma calmo__token_precisa_renovar (k : bool) :
  calmo k Fio._token_precisa_renovar sem_excecao.
Proof.
  unfold Fio._token_precisa_renovar, Fio.le, atomico, gets. cbn.
  split; [auto|]. intros w _.
  destruct (_validade_token w) as [v|] eqn:Ev.
  - exists true. split; [intros _; exists v; exact Ev|]. cbn.
    split; [auto|]. intros w1 Hw1. exists true. split; [exact Hw1|].
    destruct (_token_data w1); cbn; [|exists true; reflexivity].
    split; [auto|]. intros w2 Hw2. exists true. split; [exact Hw2|]. cbn.
    split; [auto|]. intros w3 Hw3. exists true. split; [exact Hw3|].
    destruct (Hw3 eq_refl) as (v3 & ->). cbn. eexists. reflexivity.
  - exists false. split; [discriminate|]. cbn. exists true. reflexivity.
Qed.


Lemma calmo_depois {A B} (k : bool) (p : prog A) (f : A -> prog B)
    (Q : res B -> bool -> Prop) :
  calmo k p sem_excecao -> (forall a k', calmo k' (f a) Q) ->
  calmo k (liga p f) Q.
Proof.
  intros Hp Hf. apply calmo_liga.
  apply (calmo_consequencia k p sem_excecao); [|exact Hp].
  intros r k' (a & ->). apply Hf.
Qed.

Lemma calmo_atomico {A} (k : bool) (m : M A) :
  (forall w, tem_validade w -> tem_validade (snd (m w))) ->
  nunca_levanta m ->
  calmo k (atomico m) sem_excecao.
Proof.
  intros Hm Hn. cbn. split; [exact Hm|]. intros w _.
  exists false. split; [discriminate|]. apply Hn.
Qed.

Lemma calmo_le {A} (k : bool) (f : Mundo -> A) :
  calmo k (Fio.le f) sem_excecao.
Proof. apply calmo_atomico; [auto | apply nunca_levanta_gets]. Qed.

Lemma calmo_imprime (k : bool) (m : mensagem) :
  calmo k (Fio.imprime m) sem_excecao.
Proof. apply calmo_atomico; [auto | apply nunca_levanta_print]. Qed.

Lemma calmo_devolve {A} (k : bool) (a : A) :
  calmo k (Fio.devolve a) sem_excecao.
Proof. exists a. reflexivity. Qed.

(** What is tried and caught does not raise. *)
Lemma calmo_tentar_inofensivo {A} (k : bool) (p : prog A)
    (h : excecao -> prog A) :
  inofensivo p -> (forall e k', calmo k' (h e) sem_excecao) ->
  calmo k (tentar p h) sem_excecao.
Proof.
  intros Hp Hh. apply calmo_tentar.
  apply (calmo_consequencia k p (fun _ _ => True));
    [|apply calmo_inofensivo; exact Hp].
  intros [a|e] k' _; [exists a; reflexivity | apply Hh].
Qed.

Lemma calmo__fazer_login (k : bool) : calmo k Fio._fazer_login sem_excecao.
Proof.
  unfold Fio._fazer_login. apply calmo_tentar_inofensivo.
  - repeat inofensivo_passo.
  - intros e k'. apply calmo_depois; [apply calmo_imprime|].
    intros _ k''. apply calmo_devolve.
Qed.

Lemma calmo_carregar_token_salvo (k : bool) :
  calmo k Fio.carregar_token_salvo sem_excecao.
Proof.
  unfold Fio.carregar_token_salvo. apply calmo_tentar_inofensivo.
  - repeat first
      [ lazymatch goal with
        | |- inofensivo Fio._token_precisa_renovar =>
            apply inofensivo__token_precisa_renovar
        end
      | inofensivo_passo ].
  - intros e k'. apply calmo_depois; [apply calmo_imprime|].
    intros _ k''. apply calmo_devolve.
Qed.

Ltac calmo_passo :=
  lazymatch goal with
  | |- calmo _ (liga Fio._token_e_valido _) _ =>
      apply calmo_depois; [apply calmo__token_e_valido | intros ? ?]
  | |- calmo _ (liga Fio._token_precisa_renovar _) _ =>
      apply calmo_depois; [apply calmo__token_precisa_renovar | intros ? ?]
  | |- calmo _ (liga Fio._fazer_login _) _ =>
      apply calmo_depois; [apply calmo__fazer_login | intros ? ?]
  | |- calmo _ (liga (liga Fio.carregar_token_salvo _) _) _ =>
      apply calmo_depois;
        [ apply calmo_depois;
            [apply calmo_carregar_token_salvo
            | intros ? ?; apply calmo_devolve]
        | intros ? ?]
  | |- calmo _ (liga (Fio.le _) _) _ =>
      apply calmo_depois; [apply calmo_le | intros ? ?]
  | |- calmo _ (liga (Fio.imprime _) _) _ =>
      apply calmo_depois; [apply calmo_imprime | intros ? ?]
  | |- calmo _ (liga (Fio.devolve _) _) _ => cbn [liga Fio.devolve]
  | |- calmo _ (liga (match ?x with Some _ => _ | None => _ end) _) _ =>
      destruct x
  | |- calmo _ (Fio.le _) _ => apply calmo_le
  | |- calmo _ (Fio.devolve _) _ => apply calmo_devolve
  | |- calmo _ (if ?b then _ else _) _ => destruct b
  end.

Lemma calmo_pegar_token_atualizado (k : bool) :
  calmo k Fio.pegar_token_atualizado sem_excecao.
Proof.
  unfold Fio.pegar_token_atualizado.
  apply calmo_depois; [apply calmo__token_e_valido|]. intros [|] k'.
  - repeat calmo_passo.
  - unfold com_lock. cbn [calmo]. apply calmo_ao_sair_libera.
    repeat calmo_passo.
Qed.

Lemma todos_calmos_passo (t : nat) (c : Config) :
  todos_calmos c -> todos_calmos (passo t c).
Proof.
  unfold todos_calmos, passo. intros Hc.
  destruct (fios c !! t) as [p|] eqn:Ep; [|exact Hc].
  assert (Hlt : (t < length (fios c))%nat) by (eapply lookup_lt_Some; eauto).
  destruct (Hc _ _ Ep) as (k & Hk & Hp).
  destruct p as [r|e s|s|s|r s]; cbn in Hp.
  - exact Hc.
  - destruct Hp as (He & Hs). destruct (Hs (mundo c) Hk) as (k' & Hk' & Hc').
    cbn [mundo fios]. intros u q Eq.
    destruct (decide (u = t)) as [->|Ne].
    + rewrite list_lookup_insert_eq in Eq by assumption.
      injection Eq as <-. eauto.
    + rewrite list_lookup_insert_ne in Eq by congruence.
      destruct (Hc _ _ Eq) as (ku & Hku & Hq). exists ku. split; auto.
  - destruct (trinco c); [exact Hc|]. cbn [mundo fios]. intros u q Eq.
    destruct (decide (u = t)) as [->|Ne].
    + rewrite list_lookup_insert_eq in Eq by assumption.
      injection Eq as <-. eauto.
    + rewrite list_lookup_insert_ne in Eq by congruence. eauto.
  - cbn [mundo fios]. intros u q Eq.
    destruct (decide (u = t)) as [->|Ne].
    + rewrite list_lookup_insert_eq in Eq by assumption.
      injection Eq as <-. eauto.
    + rewrite list_lookup_insert_ne in Eq by congruence. eauto.
  - cbn [mundo fios]. intros u q Eq.
    destruct (decide (u = t)) as [->|Ne].
    + rewrite list_lookup_insert_eq in Eq by assumption.
      injection Eq as <-. exists k. split; [|exact Hp].
      intros Ek. apply tem_validade_receber_efeito. auto.
    + rewrite list_lookup_insert_ne in Eq by congruence.
      destruct (Hc _ _ Eq) as (ku & Hku & Hq). exists ku. split; [|exact Hq].
      intros Ek. apply tem_validade_receber_efeito. auto.
Qed.

Lemma todos_calmos_executar (ordem : list nat) (c : Config) :
  todos_calmos c -> todos_calmos (executar ordem c).
Proof.
  revert c. induction ordem as [|t ordem IH]; intros c Hc; [exact Hc|].
  cbn. apply IH, todos_calmos_passo, Hc.
Qed.

(** X16. No caller raises: in every run of any number of callers, on any
    manager and under any schedule, a caller of
    [pegar_token_atualizado] that has returned has returned a value, a
    token or [None]; the exceptions of the login and of the reload are
    caught, and the expiry that [_token_e_valido] has found set is still
    set when it subtracts the present time from it, whatever the other
    callers did in between. *)
Theorem no_caller_ever_raises
    (n : nat) (w : Mundo) (ordem : list nat) (t : nat)
    (r : res (option json)) :
  fios (executar ordem (config_inicial n w)) !! t = Some (Fim r) ->
  exists x, r = Ok x.
Proof.
  intros Et.
  assert (Hc : todos_calmos (executar ordem (config_inicial n w))).
  { apply todos_calmos_executar. intros u p Ep.
    unfold config_inicial in Ep. cbn in Ep.
    apply lookup_replicate_1 in Ep as (-> & _).
    exists false. split; [discriminate|].
    apply calmo_pegar_token_atualizado. }
  destruct (Hc _ _ Et) as (k & _ & Hr). exact Hr.
Qed.

End FiosCalmos.

(** ** The fast path does not wait *)

Section Atalho.
Context `{Biblioteca}.

Lemma executar_livre (p : prog (option json)) (c : Config) (t n : nat) :
  fios c !! t = Some p ->
  passos_livres p (mundo c) = Some n ->
  fios (executar (repeat t n) c) !! t
    = Some (Fim (fst (sozinho p (mundo c)))) /\
  mundo (executar (repeat t n) c) = snd (sozinho p (mundo c)) /\
  trinco (executar (repeat t n) c) = trinco c /\
  forall u, u <> t -> fios (executar (repeat t n) c) !! u = fios c !! u.
Proof.
  revert c n. induction p as [r|e s IH|s IH|s IH|r s IH]; intros c n Ep Hn;
    cbn in Hn; try discriminate.
  - injection Hn as <-. cbn. auto.
  - destruct (passos_livres (s (mundo c)) (e (mundo c))) as [k|] eqn:Ek;
      [|discriminate].
    injection Hn as <-.
    assert (Hlt : (t < length (fios c))%nat)
      by (eapply lookup_lt_Some; eauto).
    cbn [repeat executar fold_left]. fold (executar (repeat t k) (passo t c)).
    assert (Ec : passo t c =
                 {| mundo := e (mundo c); trinco := trinco c;
                    fios := <[t := s (mundo c)]> (fios c) |})
      by (unfold passo; rewrite Ep; reflexivity).
    rewrite Ec.
    destruct (IH (mundo c)
                {| mundo := e (mundo c); trinco := trinco c;
                   fios := <[t := s (mundo c)]> (fios c) |} k)
      as (I1 & I2 & I3 & I4).
    { cbn. apply list_lookup_insert_eq. exact Hlt. }
    { exact Ek. }
    cbn [mundo trinco fios sozinho] in *.
    split; [exact I1|]. split; [exact I2|]. split; [exact I3|].
    intros u Ne. rewrite (I4 u Ne).
    apply list_lookup_insert_ne. congruence.
Qed.

Lemma passos_livres_atalho (w : Mundo) (d : json) (v : Z) :
  _token_data w = Some d -> _validade_token w = Some v ->
  v - agora w > minutos 10 ->
  passos_livres Fio.pegar_token_atualizado w = Some 7%nat.
Proof.
  intros Ed Ev Hv.
  assert (Hb : (v - agora w >? margem_seguranca) = true)
    by (apply Z.gtb_lt; unfold margem_seguranca; lia).
  unfold Fio.pegar_token_atualizado, Fio._token_e_valido, Fio.le, atomico,
    gets.
  cbn. rewrite Ev. cbn. rewrite Ed. cbn. rewrite Ev. cbn.
  rewrite Hb. reflexivity.
Qed.

(** X19. The fast path never waits: a caller that enters
    [pegar_token_atualizado] while the token of the memory is valid
    returns that token after seven actions of its own, whether or not
    another caller holds the lock; it does not take the lock, and it
    leaves the token, the expiry, the cookies, the cookie file and the
    other callers as they were. *)
Theorem fast_path_never_waits_for_the_lock
    (c : Config) (t : nat) (d : json) (v : Z) :
  fios c !! t = Some Fio.pegar_token_atualizado ->
  _token_data (mundo c) = Some d ->
  _validade_token (mundo c) = Some v ->
  v - agora (mundo c) > minutos 10 ->
  fios (executar (repeat t 7) c) !! t = Some (Fim (Ok (Some d))) /\
  trinco (executar (repeat t 7) c) = trinco c /\
  campos_iguais (mundo c) (mundo (executar (repeat t 7) c)) /\
  forall u, u <> t -> fios (executar (repeat t 7) c) !! u = fios c !! u.
Proof.
  intros Ep Ed Ev Hv.
  destruct (executar_livre _ c t 7 Ep
              (passos_livres_atalho (mundo c) d v Ed Ev Hv))
    as (I1 & I2 & I3 & I4).
  rewrite sozinho_pegar_token_atualizado in I1, I2.
  rewrite (pegar_token_atualizado_fast_path (mundo c) d v Ed Ev Hv) in I1, I2.
  cbn [fst snd] in I1, I2.
  split; [exact I1|]. split; [exact I3|]. split; [|exact I4].
  rewrite I2. unfold campos_iguais. cbn. auto.
Qed.

End Atalho.

(** ** The other authenticated requests *)

Section OutrasRequisicoesProvas.
Context `{Biblioteca}.

Lemma obter_session_autenticada_sem_token (w : Mundo) :
  fst (pegar_token_atualizado w) = Ok None ->
  obter_session_autenticada w = (Ok None, snd (pegar_token_atualizado w)).
Proof.
  intros E. unfold obter_session_autenticada, bind.
  destruct (pegar_token_atualizado w) as [r w']. cbn in E. subst r.
  reflexivity.
Qed.

Lemma obter_session_autenticada_fast_path (w : Mundo) (d : json) (v : Z) :
  _token_data w = Some d -> _validade_token w = Some v ->
  v - agora w > minutos 10 ->
  obter_session_autenticada w =
  (Ok (Some (session_cookies w)), depois_do_atalho v w).
Proof.
  intros Ed Ev Hv. unfold obter_session_autenticada, bind.
  rewrite (pegar_token_atualizado_fast_path w d v Ed Ev Hv). reflexivity.
Qed.


(** X6. Without a token the three request methods send nothing, and they
    do not fail alike: when [pegar_token_atualizado] returns [None],
    [requisicao_get] returns [None] and [ativar_categoria] returns
    [False], each after one line printed, while [requisicao_post], which
    builds its headers before it looks at the session, raises
    [TypeError]. *)
Theorem requests_without_token_send_nothing
    (a : MundoAPI) (url : string) (params json_ data : option json)
    (codigo : string) :
  fst (pegar_token_atualizado (base a)) = Ok None ->
  let a' := com_base (snd (pegar_token_atualizado (base a))) a in
  requisicao_get url params a =
    (Ok None, com_saida_api (saida_api a ++ [MsgSemSessaoGET]) a') /\
  ativar_categoria codigo a =
    (Ok false, com_saida_api (saida_api a ++ [MsgSemSessaoAtivar]) a') /\
  requisicao_post url json_ data a = (Exc TypeError, a') /\
  pedidos_api a' = pedidos_api a.
Proof.
  intros E a'. subst a'.
  pose proof (obter_session_autenticada_sem_token (base a) E) as Eo.
  unfold requisicao_get, ativar_categoria, requisicao_post.
  unfold bind_api, no_gerenciador. rewrite Eo.
  destruct (pegar_token_atualizado (base a)) as [r w']. cbn in E. subst r.
  cbn. auto.
Qed.

Lemma requisicao_get_eq (a : MundoAPI) (url : string) (params : option json)
    (m : gmap string json) (tok : json) (v : Z) :
  _token_data (base a) = Some (JObj m) ->
  _validade_token (base a) = Some v ->
  m !! "access_token" = Some tok ->
  v - relogio (base a) (tiques (base a)) > minutos 10 ->
  v - relogio (base a) (S (tiques (base a))) > minutos 10 ->
  requisicao_get url params a =
  (response <-- session_request
     {| api_metodo := GET; api_url := url; api_params := params;
        api_json := None; api_data := None;
        api_headers := cabecalhos_de tok |} ;;
   if status_code response =? 200 then ret_api (Some response)
   else print_api (MsgErroGET (status_code response)) ;;;; ret_api None)
    (com_base (depois_do_atalho v (depois_do_atalho v (base a))) a).
Proof.
  intros Ed Ev Em H0 H1.
  unfold requisicao_get. unfold bind_api at 1. unfold no_gerenciador at 1.
  rewrite (obter_session_autenticada_fast_path (base a) (JObj m) v Ed Ev H0).
  unfold bind_api at 1. unfold no_gerenciador at 1. cbn [base com_base].
  rewrite (pegar_token_atualizado_fast_path (depois_do_atalho v (base a))
             (JObj m) v Ed Ev H1).
  unfold bind_api at 1. unfold no_gerenciador at 1. cbn [base com_base].
  unfold subscrito. rewrite Em. reflexivity.
Qed.

Lemma requisicao_post_eq (a : MundoAPI) (url : string)
    (json_ data : option json)
    (m : gmap string json) (tok : json) (v : Z) :
  _token_data (base a) = Some (JObj m) ->
  _validade_token (base a) = Some v ->
  m !! "access_token" = Some tok ->
  v - relogio (base a) (tiques (base a)) > minutos 10 ->
  v - relogio (base a) (S (tiques (base a))) > minutos 10 ->
  requisicao_post url json_ data a =
  (response <-- session_request
     {| api_metodo := POST; api_url := url; api_params := None;
        api_json := json_; api_data := data;
        api_headers := cabecalhos_de tok |} ;;
   if status_code response =? 200 then ret_api (Some response)
   else print_api (MsgErroPOST (status_code response)) ;;;; ret_api None)
    (com_base (depois_do_atalho v (depois_do_atalho v (base a))) a).
Proof.
  intros Ed Ev Em H0 H1.
  unfold requisicao_post. unfold bind_api at 1. unfold no_gerenciador at 1.
  rewrite (pegar_token_atualizado_fast_path (base a) (JObj m) v Ed Ev H0).
  unfold bind_api at 1. unfold no_gerenciador at 1. cbn [base com_base].
  unfold subscrito. rewrite Em. unfold ret.
  unfold bind_api at 1. unfold no_gerenciador at 1. cbn [base com_base].
  fold (depois_do_atalho v (base a)).
  rewrite (obter_session_autenticada_fast_path (depois_do_atalho v (base a))
             (JObj m) v Ed Ev H1).
  reflexivity.
Qed.

(** X7. With a valid token in memory, [requisicao_get] and
    [requisicao_post] send exactly one request, with the header
    [Authorization: Bearer <access_token>], and no login; the response is
    returned when its status is 200 and [None] otherwise, the session
    keeps the cookies the response sets, and a failure of the transport
    is raised to the caller. *)
Theorem authenticated_requests_send_once_with_bearer
    (a : MundoAPI) (url : string) (params json_ data : option json)
    (m : gmap string json) (tok : json) (v : Z) :
  _token_data (base a) = Some (JObj m) ->
  _validade_token (base a) = Some v ->
  m !! "access_token" = Some tok ->
  v - relogio (base a) (tiques (base a)) > minutos 10 ->
  v - relogio (base a) (S (tiques (base a))) > minutos 10 ->
  let cabecalhos :=
    [("Content-Type", "application/json");
     ("Authorization", "Bearer " +:+ py_str tok)] in
  let enviado (met : metodo_http) (r : res (option resposta) * MundoAPI)
      (p : pedido_api) :=
    pedidos_api (snd r) = pedidos_api a ++ [p] /\
    pedidos_login (base (snd r)) = pedidos_login (base a) /\
    _token_data (base (snd r)) = Some (JObj m) /\
    _validade_token (base (snd r)) = Some v /\
    match erp_api a (length (pedidos_api a)) with
    | FalhaTransporte =>
        fst r = Exc ErroTransporte /\
        session_cookies (base (snd r)) = session_cookies (base a)
    | Respondeu resp =>
        fst r = Ok (if status_code resp =? 200 then Some resp else None) /\
        session_cookies (base (snd r)) =
          guardar_cookies (cookies_recebidos resp) (session_cookies (base a))
    end in
  enviado GET (requisicao_get url params a)
    {| api_metodo := GET; api_url := url; api_params := params;
       api_json := None; api_data := None; api_headers := cabecalhos |} /\
  enviado POST (requisicao_post url json_ data a)
    {| api_metodo := POST; api_url := url; api_params := None;
       api_json := json_; api_data := data; api_headers := cabecalhos |}.
Proof.
  intros Ed Ev Em H0 H1 cabecalhos enviado. subst enviado cabecalhos.
  rewrite (requisicao_get_eq a url params m tok v Ed Ev Em H0 H1).
  rewrite (requisicao_post_eq a url json_ data m tok v Ed Ev Em H0 H1).
  unfold bind_api, session_request. cbn [erp_api com_base pedidos_api].
  destruct (erp_api a (length (pedidos_api a))) as [|resp].
  - cbn. auto 10.
  - destruct (status_code resp =? 200); cbn; auto 10.
Qed.

(** Replacing in a text that begins without [:] starts after that
    beginning. *)
Lemma replace_de_sem_dois_pontos (old new s resto : string) :
  String.get 0 old = Some ":"%char ->
  sem_caractere ":" s = true ->
  replace_de old new 0 (s +:+ resto) = s +:+ replace_de old new 0 resto.
Proof.
  intros Hold Hs. induction s as [|x s IH]; [reflexivity|].
  cbn in Hs. apply andb_true_iff in Hs as (Hx & Hs).
  assert (E : forall r, String x s +:+ r = String x (s +:+ r))
    by reflexivity.
  rewrite !E. cbn [replace_de].
  destruct old as [|o old]; [discriminate|]. cbn in Hold.
  injection Hold as ->.
  cbn [String.prefix].
  destruct (ascii_dec ":" x) as [<-|Ne]; [discriminate|].
  f_equal. apply IH. exact Hs.
Qed.

Lemma url_ativar_categoria (dom codigo : string) :
  sem_caractere ":" dom = true ->
  str_replace
    ("https://" +:+ dom +:+
     ":8343/CadastrosEstruturaisAPI/api/v1/Familia/:codigo_categoria/ativar-categoria")
    ":codigo_categoria" codigo =
  "https://" +:+ dom +:+ ":8343/CadastrosEstruturaisAPI/api/v1/Familia/" +:+
  codigo +:+ "/ativar-categoria".
Proof.
  intros Hd. unfold str_replace.
  assert (E1 : forall r,
    replace_de ":codigo_categoria" codigo 0 ("https://" +:+ r) =
    "https://" +:+ replace_de ":codigo_categoria" codigo 0 r).
  { intros r. reflexivity. }
  rewrite E1. f_equal.
  rewrite (replace_de_sem_dois_pontos ":codigo_categoria" codigo dom _
             eq_refl Hd).
  f_equal.
Qed.

(** X8. [ativar_categoria] with a valid token in memory sends one POST,
    without an [Authorization] header and without a login, to the
    address of the family with the code put in as it is; it returns
    [True] exactly when the answer has status 200, and a failure of the
    transport is raised to the caller. The domain is one without [:]. *)
Theorem ativar_categoria_posts_once_and_maps_status
    (a : MundoAPI) (codigo : string) (d : json) (v : Z) :
  _token_data (base a) = Some d ->
  _validade_token (base a) = Some v ->
  v - relogio (base a) (tiques (base a)) > minutos 10 ->
  sem_caractere ":" (dominio (base a)) = true ->
  let r := ativar_categoria codigo a in
  pedidos_api (snd r) =
    pedidos_api a ++
    [{| api_metodo := POST;
        api_url := "https://" +:+ dominio (base a) +:+
                   ":8343/CadastrosEstruturaisAPI/api/v1/Familia/" +:+
                   codigo +:+ "/ativar-categoria";
        api_params := None; api_json := None; api_data := None;
        api_headers := [] |}] /\
  pedidos_login (base (snd r)) = pedidos_login (base a) /\
  match erp_api a (length (pedidos_api a)) with
  | FalhaTransporte => fst r = Exc ErroTransporte
  | Respondeu resp => fst r = Ok (status_code resp =? 200)
  end.
Proof.
  intros Ed Ev Hv Hd r.
  assert (Eq : ativar_categoria codigo a =
    (response <-- session_request
       {| api_metodo := POST;
          api_url := "https://" +:+ dominio (base a) +:+
                     ":8343/CadastrosEstruturaisAPI/api/v1/Familia/" +:+
                     codigo +:+ "/ativar-categoria";
          api_params := None; api_json := None; api_data := None;
          api_headers := [] |} ;;
     if status_code response =? 200 then
       print_api (MsgCategoriaAtivada codigo) ;;;; ret_api true
     else
       print_api (MsgFalhaAtivar codigo (status_code response)) ;;;;
       ret_api false)
      (com_base (depois_do_atalho v (base a)) a)).
  { unfold ativar_categoria. unfold bind_api at 1. unfold no_gerenciador at 1.
    rewrite (obter_session_autenticada_fast_path (base a) d v Ed Ev Hv).
    unfold bind_api at 1. unfold no_gerenciador at 1.
    cbn [base com_base gets].
    rewrite <- (url_ativar_categoria (dominio (base a)) codigo Hd).
    reflexivity. }
  subst r. rewrite Eq.
  unfold bind_api, session_request. cbn [erp_api com_base pedidos_api].
  destruct (erp_api a (length (pedidos_api a))) as [|resp].
  - cbn. auto.
  - destruct (status_code resp =? 200); cbn; auto.
Qed.

End OutrasRequisicoesProvas.

(** ** [extrair_dominio] and [__init__] *)

Lemma app_vazio_r (s : string) : s +:+ EmptyString = s.
Proof.
  induction s as [|c s IH]; [reflexivity|].
  change (String c s +:+ EmptyString) with (String c (s +:+ EmptyString)).
  rewrite IH. reflexivity.
Qed.

Lemma sem_caractere_cons (c x : ascii) (s : string) :
  sem_caractere c (String x s) = negb (Ascii.eqb x c) && sem_caractere c s.
Proof. reflexivity. Qed.

Lemma remover_porta_de_host (host r : string) :
  sem_caractere ":" host = true ->
  remover_porta_de false (host +:+ r) = host +:+ remover_porta_de false r.
Proof.
  induction host as [|c host IH]; intros Hh; [reflexivity|].
  rewrite sem_caractere_cons in Hh. apply andb_true_iff in Hh as (Hc & Hh).
  apply negb_true_iff in Hc.
  change (String c host +:+ r) with (String c (host +:+ r)).
  cbn [remover_porta_de andb]. rewrite Hc. cbn [andb].
  change (String c host +:+ remover_porta_de false r)
    with (String c (host +:+ remover_porta_de false r)).
  f_equal. apply IH. exact Hh.
Qed.

Lemma remover_porta_de_digitos (p r : string) :
  todos_digitos p = true ->
  remover_porta_de true (p +:+ r) = remover_porta_de true r.
Proof.
  induction p as [|c p IH]; intros Hp; [reflexivity|].
  cbn in Hp. apply andb_true_iff in Hp as (Hc & Hp).
  change (String c p +:+ r) with (String c (p +:+ r)).
  cbn [remover_porta_de andb]. rewrite Hc. apply IH. exact Hp.
Qed.

Lemma remover_porta_de_fim_dos_digitos (r : string) :
  comeca_com_digito r = false ->
  remover_porta_de true r = remover_porta_de false r.
Proof.
  destruct r as [|c r]; [reflexivity|]. cbn [comeca_com_digito]. intros Hc.
  cbn [remover_porta_de andb]. rewrite Hc. reflexivity.
Qed.

Lemma remover_caminho_host (host r : string) :
  sem_caractere "/" host = true ->
  remover_caminho (host +:+ r) = host +:+ remover_caminho r.
Proof.
  induction host as [|c host IH]; intros Hh; [reflexivity|].
  rewrite sem_caractere_cons in Hh. apply andb_true_iff in Hh as (Hc & Hh).
  apply negb_true_iff in Hc.
  change (String c host +:+ r) with (String c (host +:+ r)).
  cbn [remover_caminho]. rewrite Hc. cbn [andb].
  change (String c host +:+ remover_caminho r)
    with (String c (host +:+ remover_caminho r)).
  f_equal. apply IH. exact Hh.
Qed.

Lemma sem_quebra_ate_ao_fim (s : string) :
  sem_caractere quebra_de_linha s = true ->
  ate_ao_fim s = true /\ termina_em_quebra s = false.
Proof.
  induction s as [|c s IH]; intros Hs; [split; reflexivity|].
  rewrite sem_caractere_cons in Hs. apply andb_true_iff in Hs as (Hc & Hs).
  apply negb_true_iff in Hc. destruct (IH Hs) as (IA & IT).
  cbn [ate_ao_fim termina_em_quebra]. rewrite Hc.
  split; [assumption|]. destruct s; [reflexivity | assumption].
Qed.

Lemma sem_caractere_remover_porta_de (c : ascii) (b : bool) (s : string) :
  sem_caractere c s = true ->
  sem_caractere c (remover_porta_de b s) = true.
Proof.
  revert b. induction s as [|x s IH]; intros b Hs; [reflexivity|].
  rewrite sem_caractere_cons in Hs. apply andb_true_iff in Hs as (Hx & Hs).
  cbn [remover_porta_de].
  destruct (b && e_digito x); [apply IH; assumption|].
  destruct (Ascii.eqb x ":" && comeca_com_digito s); [apply IH; assumption|].
  rewrite sem_caractere_cons, Hx. cbn [andb]. apply IH. assumption.
Qed.

Lemma sem_caractere_descartar (c : ascii) (n : nat) (s : string) :
  sem_caractere c s = true -> sem_caractere c (descartar n s) = true.
Proof.
  revert s. induction n as [|n IH]; intros s Hs; [destruct s; exact Hs|].
  destruct s as [|x s]; [exact Hs|].
  rewrite sem_caractere_cons in Hs. apply andb_true_iff in Hs as (_ & Hs).
  cbn [descartar]. apply IH. exact Hs.
Qed.

Lemma sem_caractere_remover_protocolo (c : ascii) (s : string) :
  sem_caractere c s = true -> sem_caractere c (remover_protocolo s) = true.
Proof.
  intros Hs. unfold remover_protocolo.
  destruct (String.prefix "http://" s);
    [apply sem_caractere_descartar; exact Hs|].
  destruct (String.prefix "https://" s);
    [apply sem_caractere_descartar; exact Hs | exact Hs].
Qed.

(** The domain of an address of the usual shape is its host. *)
Lemma extrair_dominio_url_de (esquema host : string)
    (porta caminho : option string) :
  esquema = "http://" \/ esquema = "https://" ->
  sem_caractere "/" host = true ->
  sem_caractere ":" host = true ->
  (forall p, porta = Some p -> p <> EmptyString /\ todos_digitos p = true) ->
  (forall c, caminho = Some c -> sem_caractere quebra_de_linha c = true) ->
  extrair_dominio (url_de esquema host porta caminho) = host.
Proof.
  intros He Hb Hc Hp Hk. unfold extrair_dominio, url_de.
  assert (E1 : forall resto, remover_protocolo (esquema +:+ resto) = resto).
  { intros resto. unfold remover_protocolo.
    destruct He as [-> | ->]; destruct resto; reflexivity. }
  rewrite E1. unfold remover_porta.
  rewrite (remover_porta_de_host host _ Hc).
  assert (E2 : exists k,
    remover_porta_de false
      (match porta with
       | Some p => ":" +:+ p
       | None => EmptyString
       end +:+
       match caminho with
       | Some c => "/" +:+ c
       | None => EmptyString
       end) =
    match k with
    | Some c => "/" +:+ c
    | None => EmptyString
    end /\
    forall c, k = Some c -> sem_caractere quebra_de_linha c = true).
  { assert (Ek : exists k,
      remover_porta_de false
        match caminho with
        | Some c => "/" +:+ c
        | None => EmptyString
        end =
      match k with
      | Some c => "/" +:+ c
      | None => EmptyString
      end /\
      forall c, k = Some c -> sem_caractere quebra_de_linha c = true).
    { destruct caminho as [c|].
      - exists (Some (remover_porta_de false c)). split; [reflexivity|].
        intros c' [= <-]. apply sem_caractere_remover_porta_de.
        apply Hk. reflexivity.
      - exists None. split; [reflexivity | discriminate]. }
    destruct porta as [p|]; [|exact Ek].
    destruct (Hp p eq_refl) as (Hne & Hd).
    destruct Ek as (k & Ek & Hk').
    exists k. split; [|exact Hk'].
    destruct p as [|d p]; [congruence|].
    pose proof Hd as Hd'. cbn in Hd'. apply andb_true_iff in Hd' as (Hd0 & _).
    change ((":" +:+ String d p) +:+ ?r)
      with (String ":" (String d p +:+ r)).
    cbn [remover_porta_de andb Ascii.eqb].
    change (String d p +:+ ?r) with (String d (p +:+ r)).
    cbn [comeca_com_digito]. rewrite Hd0.
    change (String d (p +:+ ?r)) with (String d p +:+ r).
    rewrite (remover_porta_de_digitos _ _ Hd).
    rewrite remover_porta_de_fim_dos_digitos; [exact Ek|].
    destruct caminho; reflexivity. }
  destruct E2 as (k & E2 & Hk'). rewrite E2.
  rewrite (remover_caminho_host host _ Hb).
  destruct k as [c|]; [|apply app_vazio_r].
  destruct (sem_quebra_ate_ao_fim c (Hk' c eq_refl)) as (EA & ET).
  change ("/" +:+ c) with (String "/" c).
  cbn [remover_caminho Ascii.eqb andb]. rewrite EA, ET. apply app_vazio_r.
Qed.

Lemma sem_caractere_app (c : ascii) (a b : string) :
  sem_caractere c (a +:+ b) = sem_caractere c a && sem_caractere c b.
Proof.
  induction a as [|x a IH]; [reflexivity|].
  change (String x a +:+ b) with (String x (a +:+ b)).
  rewrite !sem_caractere_cons, IH. apply andb_assoc.
Qed.

Lemma prefix_true (p s : string) :
  String.prefix p s = true -> exists r, s = p +:+ r.
Proof.
  revert s. induction p as [|a p IH]; intros s Hp.
  - exists s. reflexivity.
  - destruct s as [|b s]; [discriminate|]. cbn in Hp.
    destruct (ascii_dec a b) as [<-|]; [|discriminate].
    destruct (IH s Hp) as (r & ->). exists r. reflexivity.
Qed.

Lemma remover_protocolo_sem_barra (s : string) :
  sem_caractere "/" s = true -> remover_protocolo s = s.
Proof.
  intros Hs. unfold remover_protocolo.
  destruct (String.prefix "http://" s) eqn:E1.
  { apply prefix_true in E1 as (r & ->).
    rewrite sem_caractere_app in Hs. discriminate Hs. }
  destruct (String.prefix "https://" s) eqn:E2; [|reflexivity].
  apply prefix_true in E2 as (r & ->).
  rewrite sem_caractere_app in Hs. discriminate Hs.
Qed.

Lemma remover_caminho_sem_barra (s : string) :
  sem_caractere "/" s = true -> remover_caminho s = s.
Proof.
  induction s as [|c s IH]; intros Hs; [reflexivity|].
  rewrite sem_caractere_cons in Hs. apply andb_true_iff in Hs as (Hc & Hs).
  apply negb_true_iff in Hc. cbn [remover_caminho]. rewrite Hc. cbn [andb].
  f_equal. apply IH. exact Hs.
Qed.

Lemma sem_barra_remover_caminho (s : string) :
  sem_caractere quebra_de_linha s = true ->
  sem_caractere "/" (remover_caminho s) = true.
Proof.
  induction s as [|c s IH]; intros Hs; [reflexivity|].
  rewrite sem_caractere_cons in Hs. apply andb_true_iff in Hs as (Hc & Hs).
  destruct (sem_quebra_ate_ao_fim s Hs) as (EA & ET).
  cbn [remover_caminho]. rewrite EA, ET, andb_true_r.
  destruct (Ascii.eqb c "/") eqn:Ec; [reflexivity|].
  rewrite sem_caractere_cons, Ec. cbn [negb andb]. apply IH. exact Hs.
Qed.

Lemma remover_porta_de_sem_porta (b : bool) (s : string) :
  sem_porta (remover_porta_de b s) = true /\
  (b = true \/ comeca_com_digito s = false ->
   comeca_com_digito (remover_porta_de b s) = false).
Proof.
  revert b. induction s as [|c s IH]; intros b; [split; reflexivity|].
  cbn [remover_porta_de].
  destruct (b && e_digito c) eqn:E1.
  { destruct (IH true) as (I1 & I2). split; [exact I1 | intros _; auto]. }
  destruct (Ascii.eqb c ":" && comeca_com_digito s) eqn:E2.
  { destruct (IH true) as (I1 & I2). split; [exact I1 | intros _; auto]. }
  destruct (IH false) as (I1 & I2). split.
  - cbn [sem_porta]. rewrite I1, andb_true_r. apply negb_true_iff.
    destruct (Ascii.eqb c ":"); [|reflexivity]. cbn [andb] in *.
    apply I2. right. exact E2.
  - cbn [comeca_com_digito]. intros [-> | Hc]; [|exact Hc].
    exact E1.
Qed.

Lemma remover_porta_de_identidade (s : string) :
  sem_porta s = true -> remover_porta_de false s = s.
Proof.
  induction s as [|c s IH]; intros Hs; [reflexivity|].
  cbn [sem_porta] in Hs. apply andb_true_iff in Hs as (Hc & Hs).
  apply negb_true_iff in Hc.
  cbn [remover_porta_de andb]. rewrite Hc. f_equal. apply IH. exact Hs.
Qed.

Lemma comeca_com_digito_remover_caminho (s : string) :
  comeca_com_digito (remover_caminho s) = true ->
  comeca_com_digito s = true.
Proof.
  destruct s as [|c s]; [discriminate|]. cbn [remover_caminho].
  destruct (Ascii.eqb c "/" && ate_ao_fim s); [|auto].
  destruct (termina_em_quebra s); discriminate.
Qed.

Lemma sem_porta_remover_caminho (s : string) :
  sem_porta s = true -> sem_porta (remover_caminho s) = true.
Proof.
  induction s as [|c s IH]; intros Hs; [reflexivity|].
  cbn [sem_porta] in Hs. apply andb_true_iff in Hs as (Hc & Hs).
  apply negb_true_iff in Hc. cbn [remover_caminho].
  destruct (Ascii.eqb c "/" && ate_ao_fim s).
  { destruct (termina_em_quebra s); reflexivity. }
  cbn [sem_porta]. rewrite (IH Hs), andb_true_r. apply negb_true_iff.
  destruct (Ascii.eqb c ":"); [|reflexivity]. cbn [andb] in *.
  destruct (comeca_com_digito (remover_caminho s)) eqn:E; [|reflexivity].
  apply comeca_com_digito_remover_caminho in E. congruence.
Qed.

Lemma sem_porta_sem_dois_pontos (s : string) :
  sem_caractere ":" s = true -> sem_porta s = true.
Proof.
  induction s as [|c s IH]; intros Hs; [reflexivity|].
  rewrite sem_caractere_cons in Hs. apply andb_true_iff in Hs as (Hc & Hs).
  apply negb_true_iff in Hc. cbn [sem_porta]. rewrite Hc, (IH Hs).
  reflexivity.
Qed.

(** What has no [/] and no port is its own domain. *)
Lemma extrair_dominio_identidade (d : string) :
  sem_caractere "/" d = true -> sem_porta d = true ->
  extrair_dominio d = d.
Proof.
  intros Hb Hp. unfold extrair_dominio, remover_porta.
  rewrite (remover_protocolo_sem_barra d Hb).
  rewrite (remover_porta_de_identidade d Hp).
  apply remover_caminho_sem_barra. exact Hb.
Qed.

Lemma os_path_join_tokens (d : string) :
  sem_caractere "/" d = true ->
  os_path_join "tokens" (d +:+ "_" +:+ "cookies.json") =
  "tokens/" +:+ d +:+ "_cookies.json".
Proof.
  intros Hd. unfold os_path_join.
  destruct d as [|c d]; [reflexivity|].
  rewrite sem_caractere_cons in Hd. apply andb_true_iff in Hd as (Hc & _).
  apply negb_true_iff in Hc.
  change (String c d +:+ ?r) with (String c (d +:+ r)).
  cbn [String.prefix].
  destruct (ascii_dec "/" c) as [<-|Ne]; [discriminate|]. reflexivity.
Qed.

(** X9. The manager keeps of the login address its host only: for an
    address [scheme://host], with or without a port and a path,
    [extrair_dominio] returns the host, so that the manager built by
    [__init__] logs in at [https://host/Login], sends its queries to port
    8343 of the host and keeps its cookies in
    [tokens/host_cookies.json], whatever the scheme, the port and the
    path of the address were. *)
Theorem init_keeps_only_the_host_of_the_login_address
    (esquema host : string) (porta caminho : option string)
    (nome_ senha_ nro_empresa_ : Z) (ambiente : Mundo) :
  is_ascii (url_de esquema host porta caminho) = true ->
  esquema = "http://" \/ esquema = "https://" ->
  sem_caractere "/" host = true ->
  sem_caractere ":" host = true ->
  (forall p, porta = Some p -> p <> EmptyString /\ todos_digitos p = true) ->
  (forall c, caminho = Some c -> sem_caractere quebra_de_linha c = true) ->
  let url := url_de esquema host porta caminho in
  let w := __init__ url nome_ senha_ nro_empresa_ ambiente in
  extrair_dominio url = host /\
  url_login w = "https://" +:+ host +:+ "/Login" /\
  api_sql_url w =
    "https://" +:+ host +:+
    ":8343/ConstrutorAnaliseAPI/api/Analysis/GetSqlResult" /\
  caminho_arquivo_cookies url None = "tokens/" +:+ host +:+ "_cookies.json".
Proof.
  intros _ He Hb Hc Hp Hk url w.
  pose proof (extrair_dominio_url_de esquema host porta caminho
                He Hb Hc Hp Hk) as E.
  fold url in E. subst w.
  unfold url_login, api_sql_url, __init__. cbn [dominio]. rewrite E.
  split; [reflexivity|]. split; [reflexivity|]. split; [reflexivity|].
  unfold caminho_arquivo_cookies. rewrite E.
  change (remover_caminho (remover_porta (remover_protocolo host)))
    with (extrair_dominio host).
  rewrite (extrair_dominio_identidade host Hb
             (sem_porta_sem_dois_pontos host Hc)).
  apply os_path_join_tokens. exact Hb.
Qed.

(** X10. The domain is a file name: for a login address without a line
    feed the domain [extrair_dominio] returns has no [/] and is its own
    domain, so the second cleaning in [__init__] changes nothing and the
    default cookie file is [tokens/<domain>_cookies.json], inside the
    directory [tokens]. *)
Theorem default_cookie_file_is_inside_tokens (url : string) :
  is_ascii url = true ->
  sem_caractere quebra_de_linha url = true ->
  sem_caractere "/" (extrair_dominio url) = true /\
  extrair_dominio (extrair_dominio url) = extrair_dominio url /\
  caminho_arquivo_cookies url None =
    "tokens/" +:+ extrair_dominio url +:+ "_cookies.json".
Proof.
  intros _ Hn.
  assert (Hb : sem_caractere "/" (extrair_dominio url) = true).
  { unfold extrair_dominio, remover_porta. apply sem_barra_remover_caminho.
    apply sem_caractere_remover_porta_de, sem_caractere_remover_protocolo.
    exact Hn. }
  assert (Hp : sem_porta (extrair_dominio url) = true).
  { unfold extrair_dominio, remover_porta. apply sem_porta_remover_caminho.
    apply remover_porta_de_sem_porta. }
  assert (Ei : extrair_dominio (extrair_dominio url) = extrair_dominio url)
    by (apply extrair_dominio_identidade; assumption).
  split; [exact Hb|]. split; [exact Ei|].
  unfold caminho_arquivo_cookies.
  change (remover_caminho (remover_porta
            (remover_protocolo (extrair_dominio url))))
    with (extrair_dominio (extrair_dominio url)).
  rewrite Ei. apply os_path_join_tokens. exact Hb.
Qed.

(** ** One caller: what the methods do together *)

Section UmChamador.
Context `{Biblioteca}.

Ltac fica :=
  lazymatch goal with
  | |- preserva _ (bind _ _) =>
      apply (preserva_bind mesmos_pedidos_login_trans); [|intros ?]
  | |- preserva _ (try_except _ _) =>
      apply (preserva_try_except mesmos_pedidos_login_trans); [|intros ?]
  | |- preserva _ (ret _) => apply (preserva_ret mesmos_pedidos_login_refl)
  | |- preserva _ (raise _) =>
      apply (preserva_raise mesmos_pedidos_login_refl)
  | |- preserva _ (gets _) => apply (preserva_gets mesmos_pedidos_login_refl)
  | |- preserva _ (loads _) =>
      apply (preserva_loads mesmos_pedidos_login_refl)
  | |- preserva _ (strptime_de _) =>
      apply (preserva_strptime_de mesmos_pedidos_login_refl)
  | |- preserva _ (subscrito _ _) =>
      apply (preserva_subscrito mesmos_pedidos_login_refl)
  | |- preserva _ (datetime_mais _ _) =>
      apply (preserva_datetime_mais mesmos_pedidos_login_refl)
  | |- preserva _ (modify _) => intros ?; reflexivity
  | |- preserva _ (print _) => intros ?; reflexivity
  | |- preserva _ (if ?b then _ else _) => destruct b
  | |- preserva _ (match ?x with Some _ => _ | None => _ end) => destruct x
  end.

(** A login sends one request, whatever comes of it. *)
Lemma login_um_pedido (resto : resposta -> M bool) (h : excecao -> M bool)
    (w : Mundo) :
  (forall r, preserva mesmos_pedidos_login (resto r)) ->
  (forall e, preserva mesmos_pedidos_login (h e)) ->
  pedidos_login
    (snd (try_except
            (horario <- datetime_now ;;
             n <- gets nome ;;
             s <- gets senha ;;
             e <- gets nro_empresa ;;
             response <- session_post_login
               {| DataHoraLocal := horario; returnUrl := EmptyString;
                  Nome := n; Senha := s; NroEmpresa := e |} ;;
             resto response) h w)) =
  pedidos_login w ++ [pedido_login_de w].
Proof.
  intros Hr Hh.
  unfold try_except, bind, datetime_now, gets, session_post_login.
  cbn [nome senha nro_empresa com_tiques erp_login pedidos_login].
  fold (pedido_login_de w).
  destruct (erp_login w (length (pedidos_login w))) as [|r].
  - rewrite (Hh ErroTransporte _). reflexivity.
  - set (x := com_session_cookies _ _).
    pose proof (Hr r x) as Hm.
    destruct (resto r x) as [[b|e] w1]; cbn [snd] in Hm |- *.
    + rewrite Hm. reflexivity.
    + rewrite (Hh e w1), Hm. reflexivity.
Qed.

Lemma _fazer_login_um_pedido (w : Mundo) :
  pedidos_login (snd (_fazer_login w)) =
  pedidos_login w ++ [pedido_login_de w].
Proof.
  unfold _fazer_login. apply login_um_pedido.
  - intros r. repeat fica.
  - intros e. repeat fica.
Qed.

(** How a call of [pegar_token_atualizado] ends: with the token of the
    memory and no login, or with a login. *)
Lemma pegar_token_atualizado_resultado (w w' : Mundo)
    (r : res (option json)) :
  pegar_token_atualizado w = (r, w') ->
  (exists d,
     r = Ok (Some d) /\ pedidos_login w' = pedidos_login w /\
     _token_data w' = Some d) \/
  (exists wp,
     mesmo_login w wp /\ w' = snd (_fazer_login wp) /\
     ((fst (_fazer_login wp) = Ok true /\ r = Ok (_token_data w')) \/
      (fst (_fazer_login wp) = Ok false /\ r = Ok None))).
Proof.
  intros P.
  destruct (pegar_token_atualizado_desfechos w w' r P)
    as [(d & v & k & -> & Ep & Ed & _) | [Hl | (Ep & _)]].
  - left. exists d. auto.
  - right. exact Hl.
  - (* the clock ran backwards: the token of the memory is returned *)
    revert P Ep. unfold pegar_token_atualizado.
    destruct (_token_e_valido_casos w)
      as [(d & v & E & Ed & Ev & Hv) | (w1 & E & F1 & _)].
    { rewrite (ramo_valido _ _ w d v E Ed Ev). intros [= <- <-] _.
      left. exists d. cbn. auto. }
    rewrite (ramo_invalido _ _ w w1 E).
    destruct (_token_e_valido_casos w1)
      as [(d & v & E1 & Ed & Ev & Hv) | (w2 & E1 & F2 & _)].
    { rewrite (ramo_valido _ _ w1 d v E1 Ed Ev). intros [= <- <-] Ep.
      left. exists d. cbn in *. auto. }
    rewrite (ramo_invalido _ _ w1 w2 E1).
    match goal with
    | |- context [bind (gets _token_data) (fun t => bind _ (fun _ => ?k))] =>
        destruct (passo_carregar k w2) as (w3 & F3 & E3)
    end.
    rewrite E3. clear E3.
    destruct (_token_e_valido_casos w3)
      as [(d & v & E2 & Ed & Ev & Hv) | (w4 & E3 & F4 & _)].
    { rewrite (ramo_valido _ _ w3 d v E2 Ed Ev). intros [= <- <-] Ep.
      left. exists d. cbn in *. auto. }
    rewrite (ramo_invalido _ _ w3 w4 E3).
    unfold bind at 1. rewrite _token_precisa_renovar_eq.
    destruct (_validade_token w4) as [v|] eqn:Ev4,
             (_token_data w4) as [d|] eqn:Ed4.
    1: destruct (v - agora w4 <=? margem_seguranca) eqn:Hp.
    2:{ unfold gets. intros [= <- <-] Ep. left. exists d.
        cbn [_token_data com_tiques pedidos_login] in *. rewrite Ed4. auto. }
    all: intros P Ep; exfalso; revert P Ep;
      unfold bind at 1; unfold print, modify;
      match goal with
      | |- context [bind _fazer_login ?k ?x] =>
          pose proof (_fazer_login_um_pedido x) as Hx;
          destruct (nunca_levanta__fazer_login x) as [b Hb];
          unfold bind; destruct (_fazer_login x) as [r5 w5];
          cbn [fst snd] in Hx, Hb; subst r5
      end;
      destruct b; cbn; intros [= <- <-] Ep; cbn in Ep, Hx;
      rewrite Hx in Ep.
    all: destruct F1 as (_ & _ & _ & _ & _ & _ & _ & _ & _ & _ & Q1 & _);
      destruct F2 as (_ & _ & _ & _ & _ & _ & _ & _ & _ & _ & Q2 & _);
      destruct F3 as (_ & Q3 & _);
      destruct F4 as (_ & _ & _ & _ & _ & _ & _ & _ & _ & _ & Q4 & _);
      cbn in Ep; rewrite ?Q4, ?Q3, ?Q2, ?Q1 in Ep;
      apply (f_equal (@length _)) in Ep; rewrite length_app in Ep;
      cbn in Ep; lia.
Qed.

(** X11. [pegar_token_atualizado] never raises and logs in at most once:
    for every manager, either it sends no login and returns the token of
    the memory, or it sends exactly one login request and returns [None]
    when the login reports a failure and the token the login has stored
    when it reports success. *)
Theorem pegar_token_atualizado_logs_in_at_most_once (w : Mundo) :
  let w' := snd (pegar_token_atualizado w) in
  (exists d,
     fst (pegar_token_atualizado w) = Ok (Some d) /\
     _token_data w' = Some d /\
     pedidos_login w' = pedidos_login w) \/
  (exists p,
     pedidos_login w' = pedidos_login w ++ [p] /\
     (fst (pegar_token_atualizado w) = Ok None \/
      exists d, fst (pegar_token_atualizado w) = Ok (Some d) /\
                _token_data w' = Some d)).
Proof.
  intros w'. subst w'.
  destruct (pegar_token_atualizado w) as [r w'] eqn:P. cbn [fst snd].
  destruct (pegar_token_atualizado_resultado w w' r P)
    as [(d & -> & Ep & Ed) | (wp & (_ & Fp & _) & -> & Hr)].
  - left. exists d. auto.
  - right. exists (pedido_login_de wp).
    rewrite _fazer_login_um_pedido, Fp. split; [reflexivity|].
    destruct Hr as [(Ht & ->) | (Hf & ->)]; [|left; reflexivity].
    right. destruct (_fazer_login wp) as [b w1] eqn:El. cbn in Ht. subst b.
    destruct (_fazer_login_sucesso wp w1 El)
      as (r0 & blob & m & e & v & _ & _ & _ & _ & _ & _ & _ & _ & Ed & _).
    cbn [snd]. rewrite Ed. eauto.
Qed.


(** The reload of a cookie file whose token can be decoded. *)
Lemma carregar_token_salvo_eq (x : Mundo)
    (c : gmap string string) (blob e : string) (m : gmap string json)
    (v : Z) :
  arquivo_cookies x = Gravado c ->
  c !! "oAuthToken" = Some blob ->
  json_loads blob = Some (JObj m) ->
  m !! ".expires" = Some (JStr e) ->
  strptime e = Some v ->
  datetime_min <= v - horas 3 -> v - horas 3 <= datetime_max ->
  carregar_token_salvo x =
  let x1 :=
    com_tiques (S (tiques x))
      (com_session_cookies (c ∪ session_cookies x)
         (com_validade_token (Some (v - horas 3))
            (com_token_data (Some (JObj m)) x))) in
  if v - horas 3 - agora x <=? margem_seguranca
  then (Ok false, com_saida (saida x ++ [MsgTokenSalvoVencido]) x1)
  else (Ok true,
        com_saida (saida x ++ [MsgTokenCarregado (Some (v - horas 3))]) x1).
Proof.
  intros Ea Eb Ej Ex Ee Hmin Hmax.
  unfold carregar_token_salvo, try_except, bind at 1.
  unfold gets at 1. rewrite Ea, Eb.
  unfold bind at 1. unfold loads. rewrite Ej. unfold ret at 1.
  unfold bind at 1. unfold modify at 1. unfold bind at 1. unfold gets at 1.
  cbn [_token_data com_token_data valor_python].
  unfold bind at 1. unfold subscrito. rewrite Ex. unfold ret at 1.
  unfold bind at 1. unfold strptime_de. rewrite Ee. unfold ret at 1.
  unfold bind at 1. unfold modify at 1.
  unfold bind at 1. unfold datetime_mais.
  change (horas (-3)) with (- horas 3).
  replace ((datetime_min <=? v + - horas 3) && (v + - horas 3 <=? datetime_max))
    with true
    by (symmetry; apply andb_true_iff; split; apply Z.leb_le; lia).
  unfold ret at 1. unfold bind at 1. unfold modify at 1.
  unfold bind at 1. unfold modify at 1.
  cbn [session_cookies com_token_data com_validade_token com_session_cookies].
  rewrite recriar_cookies_union.
  unfold bind at 1. rewrite _token_precisa_renovar_eq.
  cbn [_token_data _validade_token com_token_data com_validade_token
       com_session_cookies].
  replace (v + - horas 3) with (v - horas 3) by lia.
  unfold agora at 1.
  cbn [relogio tiques com_token_data com_validade_token com_session_cookies].
  fold (agora x).
  destruct (v - horas 3 - agora x <=? margem_seguranca); reflexivity.
Qed.

(** X12. A manager that starts with a cookie file takes its token from the
    file and sends no login: when no token is in memory, the file holds a
    token that can be decoded and whose expiry, three hours subtracted,
    is more than ten minutes after the second reading of the clock,
    [pegar_token_atualizado] returns the token of the file, with the
    corrected expiry and the cookies of the file in the session, and the
    list of the login requests is as it was. *)
Theorem pegar_token_atualizado_reloads_snapshot_without_login
    (w : Mundo) (c : gmap string string) (blob e : string)
    (m : gmap string json) (v : Z) :
  _token_data w = None ->
  arquivo_cookies w = Gravado c ->
  c !! "oAuthToken" = Some blob ->
  json_loads blob = Some (JObj m) ->
  m !! ".expires" = Some (JStr e) ->
  strptime e = Some v ->
  datetime_min <= v - horas 3 -> v - horas 3 <= datetime_max ->
  v - horas 3 - relogio w (S (tiques w)) > minutos 10 ->
  fst (pegar_token_atualizado w) = Ok (Some (JObj m)) /\
  pedidos_login (snd (pegar_token_atualizado w)) = pedidos_login w /\
  _token_data (snd (pegar_token_atualizado w)) = Some (JObj m) /\
  _validade_token (snd (pegar_token_atualizado w)) = Some (v - horas 3) /\
  session_cookies (snd (pegar_token_atualizado w)) = c ∪ session_cookies w /\
  arquivo_cookies (snd (pegar_token_atualizado w)) = arquivo_cookies w.
Proof.
  intros Et Ea Eb Ej Ex Ee Hmin Hmax Hv.
  assert (E0 : _token_e_valido w = (Ok false, w)).
  { rewrite _token_e_valido_eq, Et. destruct (_validade_token w); reflexivity. }
  pose proof (carregar_token_salvo_eq w c blob e m v Ea Eb Ej Ex Ee Hmin Hmax)
    as Ec.
  cbv zeta in Ec.
  set (x1 := com_tiques (S (tiques w)) _) in Ec.
  assert (Hx : exists msg, carregar_token_salvo w
                 = (Ok (negb (v - horas 3 - agora w <=? margem_seguranca)),
                    com_saida (saida w ++ [msg]) x1)).
  { rewrite Ec. destruct (_ <=? _); eauto. }
  destruct Hx as (msg & Hx). clear Ec.
  set (x2 := com_saida (saida w ++ [msg]) x1) in Hx.
  assert (E2 : _token_e_valido x2 = (Ok true, com_tiques (S (tiques x2)) x2)).
  { rewrite _token_e_valido_eq. cbn.
    replace (v - horas 3 - relogio w (S (tiques w)) >? margem_seguranca)
      with true; [reflexivity|].
    symmetry. apply Z.gtb_lt. unfold margem_seguranca. lia. }
  assert (P : pegar_token_atualizado w =
    (Ok (Some (JObj m)),
     com_saida (saida x2 ++ [MsgTokenCarregadoValido (Some (v - horas 3))])
       (com_tiques (S (tiques x2)) x2))).
  { unfold pegar_token_atualizado.
    rewrite (ramo_invalido _ _ w w E0), (ramo_invalido _ _ w w E0).
    unfold bind at 1. unfold gets at 1. rewrite Et.
    unfold bind at 1. unfold bind at 1. rewrite Hx. unfold ret at 1.
    apply (ramo_valido _ _ x2 (JObj m) (v - horas 3) E2); reflexivity. }
  rewrite P. cbn. auto 10.
Qed.


(** X13. [carregar_token_salvo] never raises, and it returns [True]
    exactly when the cookie file exists, holds an [oAuthToken] that
    decodes to an object whose [.expires] is a date in the expected
    format, and that date, three hours subtracted, is a date more than
    ten minutes after the present reading of the clock; in every other
    case it returns [False]. *)
Theorem carregar_token_salvo_accepts_exactly_fresh_snapshots (w : Mundo) :
  (exists b, fst (carregar_token_salvo w) = Ok b) /\
  (fst (carregar_token_salvo w) = Ok true <->
   exists c blob m e v,
     arquivo_cookies w = Gravado c /\
     c !! "oAuthToken" = Some blob /\
     json_loads blob = Some (JObj m) /\
     m !! ".expires" = Some (JStr e) /\
     strptime e = Some v /\
     datetime_min <= v - horas 3 <= datetime_max /\
     v - horas 3 - agora w > minutos 10).
Proof.
  split; [apply nunca_levanta_carregar_token_salvo|]. split.
  - unfold carregar_token_salvo, try_except, bind at 1. unfold gets at 1.
    destruct (arquivo_cookies w) as [| |c] eqn:Ea; try discriminate.
    destruct (c !! "oAuthToken") as [blob|] eqn:Eb; [|discriminate].
    unfold bind at 1. unfold loads.
    destruct (json_loads blob) as [j|] eqn:Ej; [|discriminate].
    unfold ret at 1.
    unfold bind at 1. unfold modify at 1. unfold bind at 1. unfold gets at 1.
    cbn [_token_data com_token_data].
    unfold bind at 1. unfold subscrito.
    destruct j as [| | | | |m]; try discriminate. cbn [valor_python].
    destruct (m !! ".expires") as [x|] eqn:Ex; [|discriminate].
    unfold ret at 1. unfold bind at 1. unfold strptime_de.
    destruct x as [| | |e| |]; try discriminate.
    destruct (strptime e) as [v|] eqn:Ee; [|discriminate].
    unfold ret at 1. unfold bind at 1. unfold modify at 1.
    unfold bind at 1. unfold datetime_mais.
    change (horas (-3)) with (- horas 3).
    destruct ((datetime_min <=? v + - horas 3)
              && (v + - horas 3 <=? datetime_max)) eqn:Hr; [|discriminate].
    apply andb_true_iff in Hr as (Hmin & Hmax).
    apply Z.leb_le in Hmin. apply Z.leb_le in Hmax.
    unfold ret at 1. unfold bind at 1. unfold modify at 1.
    unfold bind at 1. unfold modify at 1.
    unfold bind at 1. rewrite _token_precisa_renovar_eq.
    cbn [_token_data _validade_token com_token_data com_validade_token
         com_session_cookies].
    unfold agora at 1.
    cbn [relogio tiques com_token_data com_validade_token
         com_session_cookies].
    fold (agora w).
    destruct (v + - horas 3 - agora w <=? margem_seguranca) eqn:Hp;
      [discriminate|].
    intros _. apply Z.leb_gt in Hp. unfold margem_seguranca in Hp.
    exists c, blob, m, e, v.
    split; [reflexivity|]. split; [assumption|]. split; [assumption|].
    split; [assumption|]. split; [assumption|]. split; lia.
  - intros (c & blob & m & e & v & Ea & Eb & Ej & Ex & Ee & (Hmin & Hmax) & Hv).
    rewrite (carregar_token_salvo_eq w c blob e m v Ea Eb Ej Ex Ee Hmin Hmax).
    cbv zeta.
    replace (v - horas 3 - agora w <=? margem_seguranca) with false;
      [reflexivity|].
    symmetry. apply Z.leb_gt. unfold margem_seguranca. lia.
Qed.


(** X14. [consulta_sql] never sends a query without a bearer token: it
    never fails before its second call of [pegar_token_atualizado]; when
    that call returns an object with an [access_token] the query is sent
    once with that token; when it returns [None], or something that is
    not an object, [TypeError] is raised, and [KeyError] when the object
    has no [access_token]; in these cases nothing is sent and the route
    answers with status 500. *)
Theorem consulta_sql_sends_only_with_a_token (sql_text : string) (w : Mundo) :
  let w1 := snd (obter_session_autenticada w) in
  let r := consulta_sql sql_text w in
  let nada_enviado (e : excecao) :=
    fst r = Exc e /\ pedidos_sql (snd r) = pedidos_sql w /\
    fst (executar_sql sql_text w) =
      HTTPException 500 (DetalheErro "Erro ao executar consulta: " e) [] in
  match fst (pegar_token_atualizado w1) with
  | Ok (Some (JObj m)) =>
      match m !! "access_token" with
      | Some a =>
          pedidos_sql (snd r) = pedidos_sql w ++ [pedido_sql_de w sql_text a]
      | None => nada_enviado KeyError
      end
  | Ok _ => nada_enviado TypeError
  | Exc _ => False
  end.
Proof.
  intros w1 r nada_enviado. subst nada_enviado r.
  pose proof (mesmo_sql_obter_session_autenticada w) as (E1 & P1 & D1).
  pose proof (mesmo_sql_pegar_token_atualizado w1) as (E2 & P2 & D2).
  fold w1 in E1, P1, D1.
  destruct (nunca_levanta_obter_session_autenticada w) as [s Hs].
  destruct (nunca_levanta_pegar_token_atualizado w1) as [t Ht].
  rewrite Ht.
  assert (Hc : exists K,
    consulta_sql sql_text w =
      bind (subscrito t "access_token") K (snd (pegar_token_atualizado w1)) /\
    forall a,
      pedidos_sql (snd (K a (snd (pegar_token_atualizado w1)))) =
      pedidos_sql w ++ [pedido_sql_de w sql_text a]).
  { eexists. split.
    - unfold consulta_sql, bind at 1. subst w1.
      destruct (obter_session_autenticada w) as [r1 w1] eqn:E.
      cbn [fst snd] in *. subst r1. unfold bind at 1.
      destruct (pegar_token_atualizado w1) as [r2 w2] eqn:E'.
      cbn [fst snd] in *. subst r2. reflexivity.
    - intros a. cbv beta. rewrite str_replace_body2.
      unfold bind at 1. unfold gets at 1. unfold bind at 1.
      unfold ss_post_sql, pedido_sql_de, api_sql_url.
      rewrite E2, E1, P2, P1, D2, D1.
      destruct (erp_sql w (length (pedidos_sql w))) as [|resp];
        [reflexivity|].
      destruct (status_code resp =? 200).
      + unfold bind, loads. destruct (json_loads (text resp)); reflexivity.
      + reflexivity. }
  destruct Hc as (K & Hc & HK). unfold executar_sql. rewrite Hc.
  unfold bind, subscrito.
  destruct t as [[|b|n|s0|l|m]|];
    try (cbn; split; [reflexivity|]; split; [congruence | reflexivity]).
  destruct (m !! "access_token") as [a|].
  - apply HK.
  - cbn. split; [reflexivity|]. split; [congruence | reflexivity].
Qed.

(** X15. An answer of the SQL endpoint with status 200 is not always a
    success of the route: with a token at hand, a body that is the JSON
    [null] makes the route answer [success = false] with no data, a body
    that is not JSON makes it answer with status 500, and any other JSON
    document is returned as [data] with [success = true]. *)
Theorem executar_sql_on_status_200
    (sql_text : string) (w : Mundo) (m : gmap string json) (a : json)
    (resp : resposta) :
  fst (pegar_token_atualizado (snd (obter_session_autenticada w)))
    = Ok (Some (JObj m)) ->
  m !! "access_token" = Some a ->
  erp_sql w (length (pedidos_sql w)) = Respondeu resp ->
  status_code resp = 200 ->
  fst (executar_sql sql_text w) =
  match json_loads (text resp) with
  | None =>
      HTTPException 500
        (DetalheErro "Erro ao executar consulta: " ValueError) []
  | Some JNull =>
      Devolve {| success := false; data := None;
                 error := Some "Falha ao executar a consulta SQL" |}
  | Some j => Devolve {| success := true; data := Some j; error := None |}
  end.
Proof.
  intros Htok Ha Hresp Hst. unfold executar_sql.
  rewrite (consulta_sql_eq sql_text w m a resp Htok Ha Hresp).
  rewrite Hst. cbn [Z.eqb Pos.eqb].
  destruct (json_loads (text resp)) as [[|b|n|s0|l|m0]|]; reflexivity.
Qed.


Lemma pegar_token_atualizado_pedidos (w : Mundo) :
  exists l,
    pedidos_login (snd (pegar_token_atualizado w)) = pedidos_login w ++ l /\
    (length l <= 1)%nat.
Proof.
  destruct (pegar_token_atualizado w) as [r w'] eqn:P. cbn [snd].
  destruct (pegar_token_atualizado_resultado w w' r P)
    as [(d & _ & Ep & _) | (wp & (_ & Fp & _) & -> & _)].
  - exists []. rewrite app_nil_r. split; [exact Ep | cbn; lia].
  - exists [pedido_login_de wp]. rewrite _fazer_login_um_pedido, Fp.
    split; [reflexivity | cbn; lia].
Qed.

(** The end of [consulta_sql]: the query goes out once. *)
Lemma consulta_sql_cauda (dados : string) (headers : list (string * string))
    (x : Mundo) :
  let m :=
    (url <- gets api_sql_url ;;
     dados_objetos <- ss_post_sql
       {| sql_url := url; sql_data := dados; sql_headers := headers |} ;;
     if status_code dados_objetos =? 200 then
       j <- loads (text dados_objetos) ;;
       ret (valor_python j)
     else
       print (MsgErroConsultaSQL (status_code dados_objetos)) ;;;
       ret None) in
  pedidos_login (snd (m x)) = pedidos_login x /\
  exists c, pedidos_sql (snd (m x)) = pedidos_sql x ++ c /\
            (length c <= 1)%nat.
Proof.
  intros m. subst m. unfold bind, gets, ss_post_sql.
  destruct (erp_sql x (length (pedidos_sql x))) as [|resp].
  - cbn. split; [reflexivity|]. eexists. split; [reflexivity | cbn; lia].
  - destruct (status_code resp =? 200).
    + unfold loads. destruct (json_loads (text resp)); cbn;
        (split; [reflexivity|]; eexists; split; [reflexivity | cbn; lia]).
    + cbn. split; [reflexivity|]. eexists. split; [reflexivity | cbn; lia].
Qed.

(** X20. [consulta_sql] does not retry: whatever the ERP answers, one
    call sends at most two login requests, one for each of its two calls
    of [pegar_token_atualizado], and at most one query. *)
Theorem consulta_sql_does_not_retry (sql_text : string) (w : Mundo) :
  exists logins consultas,
    pedidos_login (snd (consulta_sql sql_text w)) = pedidos_login w ++ logins /\
    pedidos_sql (snd (consulta_sql sql_text w)) = pedidos_sql w ++ consultas /\
    (length logins <= 2)%nat /\ (length consultas <= 1)%nat.
Proof.
  pose proof (mesmo_sql_obter_session_autenticada w) as (_ & P1 & _).
  set (w1 := snd (obter_session_autenticada w)) in *.
  pose proof (mesmo_sql_pegar_token_atualizado w1) as (_ & P2 & _).
  destruct (pegar_token_atualizado_pedidos w) as (l1 & L1 & N1).
  destruct (pegar_token_atualizado_pedidos w1) as (l2 & L2 & N2).
  assert (Ew1 : pedidos_login w1 = pedidos_login w ++ l1).
  { subst w1. unfold obter_session_autenticada, bind.
    destruct (pegar_token_atualizado w) as [[[t|]|e] w'];
      cbn [snd] in *; exact L1. }
  set (w2 := snd (pegar_token_atualizado w1)) in *.
  destruct (nunca_levanta_pegar_token_atualizado w1) as [t Ht].
  assert (Hc : exists K,
    consulta_sql sql_text w = bind (subscrito t "access_token") K w2 /\
    forall a,
      pedidos_login (snd (K a w2)) = pedidos_login w2 /\
      exists c, pedidos_sql (snd (K a w2)) = pedidos_sql w2 ++ c /\
                (length c <= 1)%nat).
  { eexists. split.
    - unfold consulta_sql, bind at 1. subst w2 w1.
      destruct (obter_session_autenticada w) as [r1 w1] eqn:E.
      destruct (nunca_levanta_obter_session_autenticada w) as [s Hs].
      rewrite E in Hs. cbn [fst snd] in *. subst r1.
      unfold bind at 1.
      destruct (pegar_token_atualizado w1) as [r2 w2] eqn:E'.
      cbn [fst snd] in *. subst r2. reflexivity.
    - intros a. cbv beta. apply consulta_sql_cauda. }
  destruct Hc as (K & Hc & HK). rewrite Hc.
  assert (Hfalha : forall e,
    exists logins consultas,
      pedidos_login (snd (Exc e : res (option json), w2))
        = pedidos_login w ++ logins /\
      pedidos_sql (snd (Exc e : res (option json), w2))
        = pedidos_sql w ++ consultas /\
      (length logins <= 2)%nat /\ (length consultas <= 1)%nat).
  { intros e. exists (l1 ++ l2), []. cbn [snd].
    rewrite L2, Ew1, P2, P1, <- app_assoc, app_nil_r.
    split; [reflexivity|]. split; [reflexivity|].
    rewrite length_app. cbn. lia. }
  unfold bind, subscrito.
  destruct t as [[|b|n|s0|l|m]|]; try apply Hfalha.
  destruct (m !! "access_token") as [a|]; [|apply Hfalha].
  destruct (HK a) as (EL & c & EC & NC).
  exists (l1 ++ l2), c. cbn [ret]. rewrite EL, EC, L2, Ew1, P2, P1, <- app_assoc.
  split; [reflexivity|]. split; [reflexivity|].
  rewrite length_app. lia.
Qed.

End UmChamador.

(** ** The further properties at concrete runs *)

(** X1 at two callers on a manager without a token: after thirteen
    actions the first caller has sent its login and waits for the answer,
    holding the lock. *)
Lemma login_in_flight_only_for_lock_holder_witness :
  let c := executar (repeat 0%nat 13)
             (@config_inicial biblioteca_exemplo 2 mundo_login_recusado) in
  login_em_voo 0 c = true /\ trinco c = Some 0%nat.
Proof.
  split; [vm_compute; reflexivity|].
  apply (@login_in_flight_only_for_lock_holder biblioteca_exemplo 2
           mundo_login_recusado (repeat 0%nat 13) 0%nat).
  vm_compute. reflexivity.
Defined.

(** X2 at the same run: the second caller, outside the lock, reads the
    expiry. *)
Lemma only_lock_holder_writes_session_state_witness :
  let c := executar (repeat 0%nat 13)
             (@config_inicial biblioteca_exemplo 2 mundo_login_recusado) in
  trinco c <> Some 1%nat /\ campos_iguais (mundo c) (mundo (passo 1 c)).
Proof.
  assert (Ht : trinco (executar (repeat 0%nat 13)
                 (@config_inicial biblioteca_exemplo 2 mundo_login_recusado))
               <> Some 1%nat) by (vm_compute; discriminate).
  split; [exact Ht|].
  apply (@only_lock_holder_writes_session_state biblioteca_exemplo 2
           mundo_login_recusado (repeat 0%nat 13) 1%nat Ht).
Defined.

(** X6 at a manager whose logins are refused. *)
Lemma requests_without_token_send_nothing_witness :
  let a := mundo_api mundo_login_recusado sem_resposta in
  fst (@requisicao_get biblioteca_exemplo "https://erp.example:8343/x"
         None a) = Ok None /\
  fst (@ativar_categoria biblioteca_exemplo "42" a) = Ok false /\
  fst (@requisicao_post biblioteca_exemplo "https://erp.example:8343/x"
         None None a) = Exc TypeError.
Proof.
  intros a.
  pose proof (@requests_without_token_send_nothing biblioteca_exemplo a
                "https://erp.example:8343/x" None None None "42") as X.
  destruct X as (G & A & P & _); [vm_compute; reflexivity|].
  rewrite G, A, P. repeat split.
Defined.

(** X7 at a manager with a token good until 20:00 and an endpoint that
    answers 404. *)
Lemma authenticated_requests_send_once_with_bearer_witness :
  let a := mundo_api mundo_token_em_memoria (responde 404 "no" []) in
  fst (@requisicao_get biblioteca_exemplo "https://erp.example:8343/x"
         None a) = Ok None /\
  map api_headers
    (pedidos_api
       (snd (@requisicao_post biblioteca_exemplo
               "https://erp.example:8343/x" None None a))) =
  [[("Content-Type", "application/json"); ("Authorization", "Bearer abc")]].
Proof.
  intros a.
  pose proof (@authenticated_requests_send_once_with_bearer
                biblioteca_exemplo a "https://erp.example:8343/x"
                None None None
                (<["access_token" := JStr "abc"]>
                   (<[".expires" := JStr "2025-01-01T20:00:00Z"]> ∅))
                (JStr "abc") (instante "2025-01-01T20:00:00Z")) as X.
  destruct X as ((_ & _ & _ & _ & G) & (P & _));
    [reflexivity | reflexivity | reflexivity
    | vm_compute; reflexivity | vm_compute; reflexivity |].
  split; [exact (proj1 G)|]. rewrite P. reflexivity.
Defined.

(** X8 at the same manager and an endpoint that answers 200. *)
Lemma ativar_categoria_posts_once_and_maps_status_witness :
  let a := mundo_api mundo_token_em_memoria (responde 200 "ok" []) in
  fst (@ativar_categoria biblioteca_exemplo "42" a) = Ok true /\
  map api_url (pedidos_api (snd (@ativar_categoria biblioteca_exemplo "42" a)))
  = ["https://erp.example:8343/CadastrosEstruturaisAPI/api/v1/Familia/42/ativar-categoria"].
Proof.
  intros a.
  pose proof (@ativar_categoria_posts_once_and_maps_status
                biblioteca_exemplo a "42"
                (token_exemplo "2025-01-01T20:00:00Z")
                (instante "2025-01-01T20:00:00Z")) as X.
  destruct X as (P & _ & R);
    [reflexivity | reflexivity | vm_compute; reflexivity | reflexivity |].
  split; [exact R|]. rewrite P. reflexivity.
Defined.

(** X9 at [https://erp.example:8443/Login]. *)
Lemma init_keeps_only_the_host_of_the_login_address_witness :
  let url := "https://erp.example:8443/Login" in
  extrair_dominio url = "erp.example" /\
  url_login (__init__ url 7 1234 1 (mundo_inicial sem_resposta sem_resposta))
    = "https://erp.example/Login" /\
  caminho_arquivo_cookies url None = "tokens/erp.example_cookies.json".
Proof.
  intros url.
  pose proof (init_keeps_only_the_host_of_the_login_address
                "https://" "erp.example" (Some "8443") (Some "Login")
                7 1234 1 (mundo_inicial sem_resposta sem_resposta)) as X.
  destruct X as (D & L & _ & F).
  - reflexivity.
  - right. reflexivity.
  - reflexivity.
  - reflexivity.
  - intros p [= <-]. split; [discriminate | reflexivity].
  - intros c [= <-]. reflexivity.
  - repeat split; assumption.
Defined.

(** X10 at an address with two schemes and two ports. *)
Lemma default_cookie_file_is_inside_tokens_witness :
  let url := "http://https://a:1:22/b/c" in
  extrair_dominio url = "https:" /\
  caminho_arquivo_cookies url None = "tokens/https:_cookies.json".
Proof.
  intros url.
  destruct (default_cookie_file_is_inside_tokens url) as (_ & _ & F);
    [reflexivity | reflexivity |].
  split; [reflexivity | exact F].
Defined.

(** X12 at a manager that starts at noon beside a cookie file whose token
    expires at 20:00 as written. *)
Lemma pegar_token_atualizado_reloads_snapshot_without_login_witness :
  let w := com_arquivo_cookies
             (Gravado {["oAuthToken" :=
                          blob_token "abc" "2025-01-01T20:00:00Z"]})
             (mundo_inicial sem_resposta sem_resposta) in
  fst (@pegar_token_atualizado biblioteca_exemplo w)
    = Ok (Some (token_exemplo "2025-01-01T20:00:00Z")) /\
  pedidos_login (snd (@pegar_token_atualizado biblioteca_exemplo w)) = [].
Proof.
  intros w.
  pose proof (@pegar_token_atualizado_reloads_snapshot_without_login
                biblioteca_exemplo w
                {["oAuthToken" := blob_token "abc" "2025-01-01T20:00:00Z"]}
                (blob_token "abc" "2025-01-01T20:00:00Z")
                "2025-01-01T20:00:00Z"
                (<["access_token" := JStr "abc"]>
                   (<[".expires" := JStr "2025-01-01T20:00:00Z"]> ∅))
                (instante "2025-01-01T20:00:00Z")) as X.
  destruct X as (R & P & _).
  - reflexivity.
  - reflexivity.
  - reflexivity.
  - vm_compute. reflexivity.
  - reflexivity.
  - vm_compute. reflexivity.
  - vm_compute. discriminate.
  - vm_compute. discriminate.
  - vm_compute. reflexivity.
  - split; [exact R | exact P].
Defined.

(** X15 at a manager with a token and an SQL endpoint that answers 200
    with a body that is not JSON. *)
Lemma executar_sql_on_status_200_witness :
  let w := com_token_data (Some (token_exemplo "2025-01-01T20:00:00Z"))
             (com_validade_token (Some (instante "2025-01-01T20:00:00Z"))
                (mundo_inicial sem_resposta (responde 200 "<html>" []))) in
  fst (@executar_sql biblioteca_exemplo "SELECT 1 FROM dual" w) =
  HTTPException 500
    (DetalheErro "Erro ao executar consulta: " ValueError) [].
Proof.
  intros w.
  apply (@executar_sql_on_status_200 biblioteca_exemplo
           "SELECT 1 FROM dual" w
           (<["access_token" := JStr "abc"]>
              (<[".expires" := JStr "2025-01-01T20:00:00Z"]> ∅))
           (JStr "abc")
           {| status_code := 200; text := "<html>";
              cookies_recebidos := [] |}).
  - vm_compute. reflexivity.
  - reflexivity.
  - reflexivity.
  - reflexivity.
Defined.

(** X16 at one caller whose login is refused: it returns [None]. *)
Lemma no_caller_ever_raises_witness :
  exists x, (Ok None : res (option json)) = Ok x.
Proof.
  apply (@no_caller_ever_raises biblioteca_exemplo 1 mundo_login_recusado
           (alternado 1 60) 0%nat).
  vm_compute. reflexivity.
Defined.

(** X19 at a caller that enters while another one holds the lock. *)
Lemma fast_path_never_waits_for_the_lock_witness :
  let c := {| mundo := mundo_token_em_memoria; trinco := Some 1%nat;
              fios := [@Fio.pegar_token_atualizado biblioteca_exemplo;
                       Liberar (Fim (Ok None))] |} in
  fios (executar (repeat 0%nat 7) c) !! 0%nat
    = Some (Fim (Ok (Some (token_exemplo "2025-01-01T20:00:00Z")))) /\
  trinco (executar (repeat 0%nat 7) c) = Some 1%nat.
Proof.
  intros c.
  destruct (@fast_path_never_waits_for_the_lock biblioteca_exemplo c 0%nat
              (token_exemplo "2025-01-01T20:00:00Z")
              (instante "2025-01-01T20:00:00Z")) as (R & T & _).
  - reflexivity.
  - reflexivity.
  - reflexivity.
  - vm_compute. reflexivity.
  - split; [exact R | exact T].
Defined.

(** X4 at two callers whose logins are refused; the answer to the first
    login is five rounds late. *)
Lemma round_robin_callers_all_return_witness :
  let c := executar_espera
             (alternado_espera 2
                (repeat true 13 ++ repeat false 5 ++ repeat true 107))
             (@config_inicial biblioteca_exemplo 2 mundo_login_recusado) in
  (forall t, (t < 2)%nat -> exists r, fios c !! t = Some (Fim r)) /\
  trinco c = None.
Proof.
  apply (@round_robin_callers_all_return biblioteca_exemplo 2
           mundo_login_recusado
           (repeat true 13 ++ repeat false 5 ++ repeat true 107)).
  vm_compute. lia.
Defined.

(** X21 at two callers: the first has sent its login after thirteen
    actions; the second takes twenty turns, the answer does not arrive,
    and the second is left waiting for the lock. *)
Lemma unanswered_login_keeps_the_lock_witness :
  let c := executar_espera (repeat (0%nat, true) 13)
             (@config_inicial biblioteca_exemplo 2 mundo_login_recusado) in
  let c' := executar_espera
              (flat_map (fun _ => [(1%nat, true); (0%nat, false)])
                 (seq 0 20)) c in
  login_em_voo 0 c' = true /\ trinco c' = Some 0%nat /\
  pedidos_login (mundo c') = pedidos_login (mundo c) /\
  devolvido <$> fios c' !! 1%nat = Some None.
Proof.
  intros c c'.
  destruct (@unanswered_login_keeps_the_lock biblioteca_exemplo 2
              mundo_login_recusado (repeat (0%nat, true) 13)
              (flat_map (fun _ => [(1%nat, true); (0%nat, false)])
                 (seq 0 20)) 0%nat)
    as (V & T & (_ & _ & _ & _ & P) & _).
  - vm_compute. reflexivity.
  - intros b Hb. vm_compute in Hb.
    repeat (destruct Hb as [Hb|Hb]; [congruence|]). destruct Hb.
  - split; [exact V|]. split; [exact T|]. split; [exact P|].
    vm_compute. reflexivity.
Defined.
